(** * PageYou prospect analyzer: scoring and ranking core

    A shallow embedding of [src/scoring/ScoringEngine.ts],
    [src/scoring/OpportunityCalculator.ts] and the tables of
    [src/config/constants.ts], with the properties of the specification
    stated and proved (or refuted) over it; and of the code around them,
    with further properties read off the code: the score functions of
    the SEO, mobile and content analyzers, the industry mapping of the
    collector, [analyzeUrl], which calls the scoring core, and the
    reporters, which sort and summarise its results.

    JavaScript numbers are IEEE-754 binary64 values.  They are modelled by
    the Standard Library's executable specification of binary floating
    point ([SpecFloat]), instantiated at precision 53 and maximal exponent
    1024, so that every arithmetic step rounds as the engine does. *)

From Stdlib Require Import ZArith List Bool String Ascii Lia Sorted Permutation.
From Stdlib Require Import Floats.SpecFloat.
Import ListNotations.

Local Open Scope Z_scope.

(* ================================================================== *)
(** * JavaScript numbers                                              *)
(* ================================================================== *)

Module JS.

Definition number := spec_float.

Definition prec : Z := 53.
Definition emax : Z := 1024.

Definition NaN : number := S754_nan.
Definition Infinity : number := S754_infinity false.

(** Arithmetic operators [+ - * /] on numbers. *)
Definition add : number -> number -> number := SFadd prec emax.
Definition sub : number -> number -> number := SFsub prec emax.
Definition mul : number -> number -> number := SFmul prec emax.
Definition div : number -> number -> number := SFdiv prec emax.

(** An integer literal, and a decimal literal written as the fraction
    [n / d] with [d] a power of ten: both denote the nearest binary64
    value (ties to even), as the source text of a numeric literal does. *)
Definition int (z : Z) : number := binary_normalize prec emax z 0 false.
Definition dec (n d : Z) : number := div (int n) (int d).

Definition is_nan (x : number) : bool :=
  match x with S754_nan => true | _ => false end.

(** Relational operators.  Every comparison with NaN is false. *)
Definition lt (x y : number) : bool := SFltb x y.
Definition le (x y : number) : bool := SFleb x y.
Definition gt (x y : number) : bool := SFltb y x.
Definition ge (x y : number) : bool := SFleb y x.
(** [x === y] and [x !== y] on numbers. *)
Definition eq (x y : number) : bool := SFeqb x y.
Definition neq (x y : number) : bool := negb (SFeqb x y).

(** ToBoolean on a number: [0], [-0] and [NaN] are falsy. *)
Definition truthy (x : number) : bool :=
  match x with
  | S754_zero _ | S754_nan => false
  | _ => true
  end.

(** [Math.max(x, y)]: NaN if an argument is NaN; [+0] is larger than [-0]. *)
Definition Math_max (x y : number) : number :=
  if is_nan x || is_nan y then NaN
  else if lt x y then y
  else if lt y x then x
  else match x, y with
       | S754_zero sx, S754_zero sy => S754_zero (sx && sy)
       | _, _ => x
       end.

(** [Math.min(x, y)]: NaN if an argument is NaN; [-0] is smaller than [+0]. *)
Definition Math_min (x y : number) : number :=
  if is_nan x || is_nan y then NaN
  else if lt x y then x
  else if lt y x then y
  else match x, y with
       | S754_zero sx, S754_zero sy => S754_zero (sx || sy)
       | _, _ => x
       end.

(** The signed integer mantissa of a finite number. *)
Definition signed (s : bool) (m : positive) : Z :=
  if s then Z.neg m else Z.pos m.

(** An integral result [z] computed from an argument of sign [s]: a zero
    result keeps the sign of the argument. *)
Definition integral (s : bool) (z : Z) : number :=
  if z =? 0 then S754_zero s else int z.

(** [Math.round(x)]: the integer nearest to [x], ties towards +Infinity.
    NaN, the infinities and the zeros are returned unchanged; so is a
    finite number with a non-negative exponent, which is an integer.
    Otherwise [x = n / 2^k] with [k > 0] and the result is
    [floor ((2 n + 2^k) / 2^(k+1))], computed exactly. *)
Definition Math_round (x : number) : number :=
  match x with
  | S754_finite s m e =>
      if 0 <=? e then x
      else let k := - e in
           integral s ((2 * signed s m + 2 ^ k) / 2 ^ (k + 1))
  | _ => x
  end.

(** [Math.ceil(x)]: the least integer not below [x]. *)
Definition Math_ceil (x : number) : number :=
  match x with
  | S754_finite s m e =>
      if 0 <=? e then x
      else let k := - e in
           integral s (- ((- signed s m) / 2 ^ k))
  | _ => x
  end.

End JS.

Declare Scope js_scope.
Delimit Scope js_scope with js.
Infix "+" := JS.add : js_scope.
Infix "-" := JS.sub : js_scope.
Infix "*" := JS.mul : js_scope.
Infix "/" := JS.div : js_scope.
Infix "<" := JS.lt : js_scope.
Infix "<=" := JS.le : js_scope.
Infix ">" := JS.gt : js_scope.
Infix ">=" := JS.ge : js_scope.
Infix "===" := JS.eq (at level 70, no associativity) : js_scope.
Infix "!==" := JS.neq (at level 70, no associativity) : js_scope.


Local Open Scope string_scope.
Local Open Scope list_scope.
Local Open Scope Z_scope.

(* ================================================================== *)
(** * src/config/constants.ts                                         *)
(* ================================================================== *)

(** Strings are held as their UTF-8 bytes.  For well-formed text, one
    string occurs inside another as a run of bytes exactly when it does
    as a run of UTF-16 code units, so [includes] below agrees with
    [String.prototype.includes]. *)

Record WeightMultipliers := {
  wm_performance : JS.number;
  wm_mobile : JS.number;
  wm_seo : JS.number;
  wm_conversion : JS.number;
  wm_content : JS.number
}.

Record IndustryConfig := {
  keywords : list string;
  weightMultipliers : WeightMultipliers;
  criticalElements : list string;
  averageMonthlyRevenue : JS.number
}.

Record ScoringWeights := {
  sw_performance : JS.number;
  sw_mobile : JS.number;
  sw_seo : JS.number;
  sw_conversion : JS.number;
  sw_content : JS.number
}.

(** A [weightMultipliers] literal, its five decimals given in tenths. *)
Definition multipliers (p m s c ct : Z) : WeightMultipliers :=
  {| wm_performance := JS.dec p 10; wm_mobile := JS.dec m 10;
     wm_seo := JS.dec s 10; wm_conversion := JS.dec c 10;
     wm_content := JS.dec ct 10 |}.

Definition restaurant : IndustryConfig :=
  Eval vm_compute in
  {| keywords := ["メニュー"; "営業時間"; "予約"; "アクセス"; "ランチ"; "ディナー"; "テイクアウト"];
     weightMultipliers := multipliers 10 12 9 13 8;
     criticalElements := ["menu"; "hours"; "reservation"; "location"];
     averageMonthlyRevenue := JS.int 3000000 |}.

Definition beauty : IndustryConfig :=
  Eval vm_compute in
  {| keywords := ["料金"; "スタッフ"; "予約"; "カット"; "カラー"; "パーマ"; "トリートメント"];
     weightMultipliers := multipliers 9 13 10 12 10;
     criticalElements := ["pricing"; "staff"; "reservation"; "gallery"];
     averageMonthlyRevenue := JS.int 2000000 |}.

Definition clinic : IndustryConfig :=
  Eval vm_compute in
  {| keywords := ["診療時間"; "診療科目"; "予約"; "アクセス"; "医師"; "設備"; "保険"];
     weightMultipliers := multipliers 11 11 12 10 11;
     criticalElements := ["hours"; "departments"; "doctors"; "access"];
     averageMonthlyRevenue := JS.int 5000000 |}.

Definition retail : IndustryConfig :=
  Eval vm_compute in
  {| keywords := ["営業時間"; "商品"; "アクセス"; "在庫"; "セール"; "新着"; "ブランド"];
     weightMultipliers := multipliers 12 10 11 9 10;
     criticalElements := ["products"; "hours"; "location"; "contact"];
     averageMonthlyRevenue := JS.int 4000000 |}.

Definition legal : IndustryConfig :=
  Eval vm_compute in
  {| keywords := ["相談"; "料金"; "実績"; "弁護士"; "営業時間"; "アクセス"; "専門分野"];
     weightMultipliers := multipliers 8 9 13 11 13;
     criticalElements := ["consultation"; "lawyers"; "expertise"; "contact"];
     averageMonthlyRevenue := JS.int 3500000 |}.

Definition default : IndustryConfig :=
  Eval vm_compute in
  {| keywords := ["営業時間"; "アクセス"; "料金"; "サービス"; "会社概要"];
     weightMultipliers := multipliers 10 10 10 10 10;
     criticalElements := ["contact"; "about"; "services"];
     averageMonthlyRevenue := JS.int 2500000 |}.

(** The own properties of the object literal [INDUSTRY_CONFIGS], in the
    order they are written. *)
Definition INDUSTRY_CONFIGS_own : list (string * IndustryConfig) :=
  [ ("restaurant", restaurant); ("beauty", beauty); ("clinic", clinic);
    ("retail", retail); ("legal", legal); ("default", default) ].

(** [INDUSTRY_CONFIGS] is a plain object: reading a property that is not
    its own continues on [Object.prototype].  These are the property names
    found there; each holds a function or (for [__proto__]) the prototype
    object itself. *)
Definition Object_prototype_names : list string :=
  [ "constructor"; "hasOwnProperty"; "isPrototypeOf"; "propertyIsEnumerable";
    "toLocaleString"; "toString"; "valueOf"; "__proto__";
    "__defineGetter__"; "__defineSetter__"; "__lookupGetter__";
    "__lookupSetter__" ].

(** What [INDUSTRY_CONFIGS[key]] evaluates to, when it is not [undefined]. *)
Inductive registry_value :=
| Profile (c : IndustryConfig)
| Inherited (name : string).

(** The first value stored under [k] in a list of properties. *)
Fixpoint assoc {A} (k : string) (l : list (string * A)) : option A :=
  match l with
  | [] => None
  | (k', v) :: l' => if String.eqb k k' then Some v else assoc k l'
  end.

(** [INDUSTRY_CONFIGS[key]]; [None] stands for [undefined]. *)
Definition INDUSTRY_CONFIGS (key : string) : option registry_value :=
  match assoc key INDUSTRY_CONFIGS_own with
  | Some c => Some (Profile c)
  | None =>
      if existsb (String.eqb key) Object_prototype_names
      then Some (Inherited key) else None
  end.

Definition DEFAULT_SCORING_WEIGHTS : ScoringWeights :=
  Eval vm_compute in
  {| sw_performance := JS.dec 25 100;
     sw_mobile := JS.dec 20 100;
     sw_seo := JS.dec 20 100;
     sw_conversion := JS.dec 20 100;
     sw_content := JS.dec 15 100 |}.

Inductive PlanTier := Simple | Standard | Premium.
Inductive PriorityTier := High | Medium | Low.

Record Plan := {
  name : string;
  features : list string;
  targetScore : JS.number;
  monthlyPrice : JS.number
}.

Definition PAGEYOU_PLANS (t : PlanTier) : Plan :=
  Eval vm_compute in
  match t with
  | Simple =>
      {| name := "Simpleプラン";
         features := ["基本的なSEO対策"; "モバイル対応"; "表示速度改善"; "月1回の更新サポート"];
         targetScore := JS.int 60;
         monthlyPrice := JS.int 30000 |}
  | Standard =>
      {| name := "Standardプラン";
         features := ["Simpleプランの全機能"; "高度なSEO対策"; "コンバージョン最適化";
                      "月2回の更新サポート"; "アクセス解析レポート"];
         targetScore := JS.int 75;
         monthlyPrice := JS.int 50000 |}
  | Premium =>
      {| name := "Premiumプラン";
         features := ["Standardプランの全機能"; "カスタムデザイン"; "A/Bテスト実施";
                      "週次更新サポート"; "専任コンサルタント"];
         targetScore := JS.int 90;
         monthlyPrice := JS.int 100000 |}
  end.

Record Threshold := { scoreMax : JS.number; monthlyLossMin : JS.number }.

Definition PRIORITY_THRESHOLDS (t : PriorityTier) : Threshold :=
  Eval vm_compute in
  match t with
  | High => {| scoreMax := JS.int 40;
               monthlyLossMin := JS.int 100000 |}
  | Medium => {| scoreMax := JS.int 60;
                 monthlyLossMin := JS.int 50000 |}
  | Low => {| scoreMax := JS.int 100;
              monthlyLossMin := JS.int 0 |}
  end.

(* ================================================================== *)
(** * src/scoring/ScoringEngine.ts                                    *)
(* ================================================================== *)

(** A call either returns a value or throws the [TypeError] raised by
    reading a property of [undefined]. *)
Inductive completion (A : Type) :=
| Return (a : A)
| Throw_TypeError.
Arguments Return {A} a.
Arguments Throw_TypeError {A}.

(** A value that is a number or [undefined]; arithmetic converts
    [undefined] to NaN. *)
Definition ToNumber (v : option JS.number) : JS.number :=
  match v with Some x => x | None => JS.NaN end.

Record CategoryResult := { score : JS.number }.

Record AnalysisResults := {
  res_performance : CategoryResult;
  res_seo : CategoryResult;
  res_mobile : CategoryResult;
  res_conversion : CategoryResult;
  res_content : CategoryResult;
  isHttps : bool
}.

(** The five per-category numbers held by [baseScores] and
    [adjustedScores]. *)
Record CategoryScores := {
  cs_performance : JS.number;
  cs_mobile : JS.number;
  cs_seo : JS.number;
  cs_conversion : JS.number;
  cs_content : JS.number
}.

(** The object returned by [calculateScores]. *)
Record Scores := {
  total : JS.number;
  performance : JS.number;
  mobile : JS.number;
  seo : JS.number;
  conversion : JS.number;
  content : JS.number
}.

Definition is_empty (s : string) : bool :=
  match s with EmptyString => true | _ => false end.

(** [industry ? INDUSTRY_CONFIGS[industry] || INDUSTRY_CONFIGS.default
             : INDUSTRY_CONFIGS.default]
    An absent or empty [industry] is falsy; every value found under a key
    is an object or a function, hence truthy. *)
Definition industryConfigFor (industry : option string) : registry_value :=
  match industry with
  | Some key =>
      if is_empty key then Profile default
      else match INDUSTRY_CONFIGS key with
           | Some v => v
           | None => Profile default
           end
  | None => Profile default
  end.

(** [industryConfig.weightMultipliers]: [undefined] on an inherited member,
    so that reading [.performance] from it throws. *)
Definition weightMultipliers_of (industryConfig : registry_value)
  : completion WeightMultipliers :=
  match industryConfig with
  | Profile c => Return (weightMultipliers c)
  | Inherited _ => Throw_TypeError
  end.

(** [industryConfig.averageMonthlyRevenue]: [undefined] on an inherited
    member. *)
Definition averageMonthlyRevenue_of (industryConfig : registry_value)
  : option JS.number :=
  match industryConfig with
  | Profile c => Some (averageMonthlyRevenue c)
  | Inherited _ => None
  end.

Definition calculateScores (results : AnalysisResults) (industry : option string)
  : completion Scores :=
  let industryConfig := industryConfigFor industry in
  let baseScores :=
    {| cs_performance := score (res_performance results);
       cs_mobile := score (res_mobile results);
       cs_seo := score (res_seo results);
       cs_conversion := score (res_conversion results);
       cs_content := score (res_content results) |} in
  let baseScores :=
    if negb (isHttps results) then
      {| cs_performance := JS.Math_max (JS.int 0) (cs_performance baseScores - JS.int 10)%js;
         cs_mobile := cs_mobile baseScores;
         cs_seo := JS.Math_max (JS.int 0) (cs_seo baseScores - JS.int 15)%js;
         cs_conversion := cs_conversion baseScores;
         cs_content := cs_content baseScores |}
    else baseScores in
  match weightMultipliers_of industryConfig with
  | Throw_TypeError => Throw_TypeError
  | Return wm =>
      let adjustedScores :=
        {| cs_performance := JS.Math_round (cs_performance baseScores * wm_performance wm)%js;
           cs_mobile := JS.Math_round (cs_mobile baseScores * wm_mobile wm)%js;
           cs_seo := JS.Math_round (cs_seo baseScores * wm_seo wm)%js;
           cs_conversion := JS.Math_round (cs_conversion baseScores * wm_conversion wm)%js;
           cs_content := JS.Math_round (cs_content baseScores * wm_content wm)%js |} in
      let defaultWeights := DEFAULT_SCORING_WEIGHTS in
      let totalScore :=
        JS.Math_round
          ((cs_performance adjustedScores * sw_performance defaultWeights +
            cs_mobile adjustedScores * sw_mobile defaultWeights +
            cs_seo adjustedScores * sw_seo defaultWeights +
            cs_conversion adjustedScores * sw_conversion defaultWeights +
            cs_content adjustedScores * sw_content defaultWeights) /
           (sw_performance defaultWeights +
            sw_mobile defaultWeights +
            sw_seo defaultWeights +
            sw_conversion defaultWeights +
            sw_content defaultWeights))%js in
      Return
        {| total := JS.Math_min (JS.int 100) (JS.Math_max (JS.int 0) totalScore);
           performance := JS.Math_min (JS.int 100) (JS.Math_max (JS.int 0) (cs_performance adjustedScores));
           mobile := JS.Math_min (JS.int 100) (JS.Math_max (JS.int 0) (cs_mobile adjustedScores));
           seo := JS.Math_min (JS.int 100) (JS.Math_max (JS.int 0) (cs_seo adjustedScores));
           conversion := JS.Math_min (JS.int 100) (JS.Math_max (JS.int 0) (cs_conversion adjustedScores));
           content := JS.Math_min (JS.int 100) (JS.Math_max (JS.int 0) (cs_content adjustedScores)) |}
  end.

Definition recommendPlan (totalScore : JS.number) : PlanTier :=
  if (totalScore < JS.int 40)%js then Premium
  else if (totalScore < JS.int 70)%js then Standard
  else Simple.

Definition determinePriority (totalScore estimatedMonthlyLoss : JS.number)
  : PriorityTier :=
  if (totalScore <= scoreMax (PRIORITY_THRESHOLDS High))%js
     || (estimatedMonthlyLoss >= monthlyLossMin (PRIORITY_THRESHOLDS High))%js
  then High
  else if (totalScore <= scoreMax (PRIORITY_THRESHOLDS Medium))%js
          || (estimatedMonthlyLoss >= monthlyLossMin (PRIORITY_THRESHOLDS Medium))%js
  then Medium
  else Low.

Definition calculateImprovementPotential (currentScore : JS.number)
  (targetPlan : PlanTier) : JS.number :=
  let targetScore := targetScore (PAGEYOU_PLANS targetPlan) in
  JS.Math_max (JS.int 0) (targetScore - currentScore)%js.

Record ROI := {
  monthlyInvestment : JS.number;
  estimatedMonthlyReturn : JS.number;
  paybackPeriodMonths : JS.number;
  threeYearROI : JS.number
}.

(** [a || b] where [a] is an optional number: [b] when [a] is [undefined],
    [0], [-0] or NaN. *)
Definition or_else (a b : option JS.number) : option JS.number :=
  match a with
  | Some x => if JS.truthy x then a else b
  | None => b
  end.

Definition estimateROI (currentScore : JS.number) (targetPlan : PlanTier)
  (industry : option string) (currentMonthlyRevenue : option JS.number) : ROI :=
  let plan := PAGEYOU_PLANS targetPlan in
  let industryConfig := industryConfigFor industry in
  let improvementPotential := calculateImprovementPotential currentScore targetPlan in
  let revenueBase :=
    or_else currentMonthlyRevenue (averageMonthlyRevenue_of industryConfig) in
  let revenueImprovementRate := (improvementPotential * JS.dec 5 1000)%js in
  let estimatedMonthlyReturn := (ToNumber revenueBase * revenueImprovementRate)%js in
  let paybackPeriodMonths :=
    if (monthlyPrice plan > JS.int 0)%js then
      JS.Math_ceil
        (monthlyPrice plan /
         JS.Math_max (JS.int 1) (estimatedMonthlyReturn - monthlyPrice plan))%js
    else JS.int 0 in
  let totalInvestment := (monthlyPrice plan * JS.int 36)%js in
  let totalReturn := (estimatedMonthlyReturn * JS.int 36)%js in
  let threeYearROI :=
    if (totalInvestment > JS.int 0)%js then
      JS.Math_round (((totalReturn - totalInvestment) / totalInvestment) * JS.int 100)%js
    else JS.int 0 in
  {| monthlyInvestment := monthlyPrice plan;
     estimatedMonthlyReturn := estimatedMonthlyReturn;
     paybackPeriodMonths := paybackPeriodMonths;
     threeYearROI := threeYearROI |}.

(** An entry of the array that [generateScoreBreakdown] returns. *)
Record BreakdownRow := {
  row_category : string;
  row_score : JS.number;
  row_weight : JS.number;
  row_contribution : JS.number
}.

(** [Object.values(weights)]: the five weights, in the order the literal
    of [DEFAULT_SCORING_WEIGHTS] writes them. *)
Definition Object_values (weights : ScoringWeights) : list JS.number :=
  [sw_performance weights; sw_mobile weights; sw_seo weights;
   sw_conversion weights; sw_content weights].

Definition generateScoreBreakdown (scores : Scores) : list BreakdownRow :=
  let weights := DEFAULT_SCORING_WEIGHTS in
  let totalWeight :=
    fold_left (fun sum w => (sum + w)%js) (Object_values weights) (JS.int 0) in
  [ {| row_category := "パフォーマンス";
       row_score := performance scores;
       row_weight := sw_performance weights;
       row_contribution :=
         JS.Math_round ((performance scores * sw_performance weights) / totalWeight)%js |};
    {| row_category := "モバイル対応";
       row_score := mobile scores;
       row_weight := sw_mobile weights;
       row_contribution :=
         JS.Math_round ((mobile scores * sw_mobile weights) / totalWeight)%js |};
    {| row_category := "SEO";
       row_score := seo scores;
       row_weight := sw_seo weights;
       row_contribution :=
         JS.Math_round ((seo scores * sw_seo weights) / totalWeight)%js |};
    {| row_category := "コンバージョン";
       row_score := conversion scores;
       row_weight := sw_conversion weights;
       row_contribution :=
         JS.Math_round ((conversion scores * sw_conversion weights) / totalWeight)%js |};
    {| row_category := "コンテンツ";
       row_score := content scores;
       row_weight := sw_content weights;
       row_contribution :=
         JS.Math_round ((content scores * sw_content weights) / totalWeight)%js |} ].

(* ================================================================== *)
(** * src/scoring/OpportunityCalculator.ts                            *)
(* ================================================================== *)

Module Effort.

Inductive t := Low | Medium | High.

(** [a === b] on effort levels *)
Definition eqb (a b : t) : bool :=
  match a, b with
  | Low, Low | Medium, Medium | High, High => true
  | _, _ => false
  end.

End Effort.

Record Opportunity := {
  title : string;
  description : string;
  estimatedImprovement : JS.number;
  estimatedRevenueLift : JS.number;
  effort : Effort.t;
  priority : JS.number
}.

Record AnalysisData := {
  scores : Scores;
  performanceResult : list Opportunity;
  seoResult : list Opportunity;
  mobileResult : list Opportunity;
  conversionResult : list Opportunity;
  contentResult : list Opportunity
}.

(** [haystack.includes(needle)] *)
Fixpoint includes (haystack needle : string) : bool :=
  String.prefix needle haystack
  || match haystack with
     | EmptyString => false
     | String _ rest => includes rest needle
     end.

(** A [Map<string, V>]: its entries in insertion order.  [set] on a key
    already present replaces the value and keeps the entry's position. *)
Definition JSMap (V : Type) := list (string * V).

Fixpoint Map_get {V} (m : JSMap V) (key : string) : option V :=
  match m with
  | [] => None
  | (k, v) :: m' => if String.eqb k key then Some v else Map_get m' key
  end.

Fixpoint Map_set {V} (m : JSMap V) (key : string) (value : V) : JSMap V :=
  match m with
  | [] => [(key, value)]
  | (k, v) :: m' =>
      if String.eqb k key then (k, value) :: m'
      else (k, v) :: Map_set m' key value
  end.

Definition Map_values {V} (m : JSMap V) : list V := map snd m.

(** [array.sort(compareFn)].  The language requires the sort to be stable
    and, for a comparator that is a consistent ordering, fixes the result:
    the stable insertion sort below computes it.  [a] is moved behind [b]
    exactly when [compareFn(a, b) > 0]. *)
Fixpoint sort_insert {A} (compareFn : A -> A -> JS.number) (a : A) (l : list A)
  : list A :=
  match l with
  | [] => [a]
  | b :: l' =>
      if (compareFn a b > JS.int 0)%js then b :: sort_insert compareFn a l'
      else a :: l
  end.

Definition Array_sort {A} (compareFn : A -> A -> JS.number) (l : list A) : list A :=
  fold_right (sort_insert compareFn) [] l.

(** [array.slice(0, n)] *)
Definition slice0 {A} (n : nat) (l : list A) : list A := firstn n l.

Section OpportunityCalculator.

(** [String.prototype.toLowerCase], left abstract: the calculator only
    compares the keys it produces. *)
Variable toLowerCase : string -> string.

Definition adjustRevenueByIndustry (baseRevenue : JS.number)
  (industryAverage : option JS.number) : JS.number :=
  let adjustmentFactor := (ToNumber industryAverage / JS.int 2500000)%js in
  JS.Math_round (baseRevenue * adjustmentFactor)%js.

(** The four blocks of [generateSyntheticOpportunities]; each pushes one
    opportunity when its condition holds. *)
Definition fullRenewal (industryConfig : registry_value) : Opportunity :=
  {| title := "Webサイトの全面リニューアル";
     description := "現代的なデザインと機能で競合他社に差をつける";
     estimatedImprovement := JS.int 60;
     estimatedRevenueLift :=
       (ToNumber (averageMonthlyRevenue_of industryConfig) * JS.dec 1 10)%js;
     effort := Effort.High;
     priority := JS.int 10 |}.

Definition mobileFirst (industryConfig : registry_value) : Opportunity :=
  {| title := "モバイルファースト設計への移行";
     description := "スマートフォンユーザーを最優先した高速サイトの構築";
     estimatedImprovement := JS.int 40;
     estimatedRevenueLift :=
       (ToNumber (averageMonthlyRevenue_of industryConfig) * JS.dec 8 100)%js;
     effort := Effort.High;
     priority := JS.int 9 |}.

Definition contentMarketing (industryConfig : registry_value) : Opportunity :=
  {| title := "コンテンツマーケティング戦略の導入";
     description := "SEOに強い有益なコンテンツで集客力を強化";
     estimatedImprovement := JS.int 35;
     estimatedRevenueLift :=
       (ToNumber (averageMonthlyRevenue_of industryConfig) * JS.dec 6 100)%js;
     effort := Effort.Medium;
     priority := JS.int 8 |}.

Definition conversionProgram (industryConfig : registry_value) : Opportunity :=
  {| title := "コンバージョン最適化（CRO）プログラム";
     description := "A/Bテストとユーザー行動分析で成約率を倍増";
     estimatedImprovement := JS.int 30;
     estimatedRevenueLift :=
       (ToNumber (averageMonthlyRevenue_of industryConfig) * JS.dec 12 100)%js;
     effort := Effort.Medium;
     priority := JS.int 9 |}.

(** [opportunities.push(o)] under [if (cond)] *)
Definition push_if (cond : bool) (o : Opportunity) (opportunities : list Opportunity)
  : list Opportunity :=
  if cond then opportunities ++ [o] else opportunities.

Definition generateSyntheticOpportunities (data : AnalysisData)
  (industryConfig : registry_value) : list Opportunity :=
  let opportunities := [] in
  let opportunities :=
    push_if (total (scores data) < JS.int 30)%js
            (fullRenewal industryConfig) opportunities in
  let opportunities :=
    push_if ((performance (scores data) < JS.int 50)%js
             && (mobile (scores data) < JS.int 50)%js)
            (mobileFirst industryConfig) opportunities in
  let opportunities :=
    push_if ((seo (scores data) < JS.int 50)%js
             && (content (scores data) < JS.int 50)%js)
            (contentMarketing industryConfig) opportunities in
  let opportunities :=
    push_if (conversion (scores data) < JS.int 40)%js
            (conversionProgram industryConfig) opportunities in
  opportunities.

(** One step of the [forEach] of [deduplicateOpportunities]. *)
Definition dedup_step (seen : JSMap Opportunity) (opp : Opportunity)
  : JSMap Opportunity :=
  let key := toLowerCase (title opp) in
  match Map_get seen key with
  | None => Map_set seen key opp
  | Some existing =>
      if (priority opp > priority existing)%js then Map_set seen key opp
      else seen
  end.

Definition deduplicateOpportunities (opportunities : list Opportunity)
  : list Opportunity :=
  let seen := fold_left dedup_step opportunities [] in
  Map_values seen.

Definition with_priority (opp : Opportunity) (p : JS.number) : Opportunity :=
  {| title := title opp;
     description := description opp;
     estimatedImprovement := estimatedImprovement opp;
     estimatedRevenueLift := estimatedRevenueLift opp;
     effort := effort opp;
     priority := p |}.

Definition with_revenueLift (opp : Opportunity) (r : JS.number) : Opportunity :=
  {| title := title opp;
     description := description opp;
     estimatedImprovement := estimatedImprovement opp;
     estimatedRevenueLift := r;
     effort := effort opp;
     priority := priority opp |}.

(** [priorityBoost += n] under [if (cond)] *)
Definition boost_if (cond : bool) (n : Z) (priorityBoost : JS.number) : JS.number :=
  if cond then (priorityBoost + JS.int n)%js else priorityBoost.

Definition priorityBoostOf (opp : Opportunity) (scores : Scores) : JS.number :=
  let priorityBoost := JS.int 0 in
  let priorityBoost :=
    boost_if (includes (title opp) "パフォーマンス" && (performance scores < JS.int 50)%js)
             2 priorityBoost in
  let priorityBoost :=
    boost_if (includes (title opp) "モバイル" && (mobile scores < JS.int 50)%js)
             2 priorityBoost in
  let priorityBoost :=
    boost_if (includes (title opp) "SEO" && (seo scores < JS.int 50)%js)
             2 priorityBoost in
  let priorityBoost :=
    boost_if (includes (title opp) "コンバージョン" && (conversion scores < JS.int 50)%js)
             2 priorityBoost in
  let priorityBoost :=
    boost_if (Effort.eqb (effort opp) Effort.Low
              && (estimatedImprovement opp > JS.int 20)%js)
             3 priorityBoost in
  let priorityBoost :=
    boost_if (estimatedRevenueLift opp > JS.int 50000)%js 2 priorityBoost in
  priorityBoost.

Definition reprioritize (scores : Scores) (opp : Opportunity) : Opportunity :=
  let priorityBoost := priorityBoostOf opp scores in
  with_priority opp (JS.Math_min (JS.int 10) (priority opp + priorityBoost)%js).

(** The comparator handed to [sort]. *)
Definition byPriorityThenLift (a b : Opportunity) : JS.number :=
  if (priority b !== priority a)%js then (priority b - priority a)%js
  else (estimatedRevenueLift b - estimatedRevenueLift a)%js.

Definition recalculatePriorities (opportunities : list Opportunity) (scores : Scores)
  : list Opportunity :=
  Array_sort byPriorityThenLift (map (reprioritize scores) opportunities).

Definition calculate (data : AnalysisData) (industry : option string)
  : list Opportunity :=
  let industryConfig := industryConfigFor industry in
  let allOpportunities :=
    performanceResult data ++ seoResult data ++ mobileResult data
    ++ conversionResult data ++ contentResult data in
  let adjustedOpportunities :=
    map (fun opp =>
           let adjustedRevenueLift :=
             adjustRevenueByIndustry (estimatedRevenueLift opp)
               (averageMonthlyRevenue_of industryConfig) in
           with_revenueLift opp adjustedRevenueLift)
        allOpportunities in
  let syntheticOpportunities := generateSyntheticOpportunities data industryConfig in
  let combinedOpportunities := adjustedOpportunities ++ syntheticOpportunities in
  let uniqueOpportunities := deduplicateOpportunities combinedOpportunities in
  let prioritizedOpportunities :=
    recalculatePriorities uniqueOpportunities (scores data) in
  slice0 10 prioritizedOpportunities.

End OpportunityCalculator.

Record OpportunityValue := {
  totalMonthlyRevenueLift : JS.number;
  totalImprovement : JS.number;
  quickWins : list Opportunity;
  highImpact : list Opportunity
}.

Definition calculateTotalOpportunityValue (opportunities : list Opportunity)
  : OpportunityValue :=
  let totalMonthlyRevenueLift :=
    fold_left (fun sum opp => (sum + estimatedRevenueLift opp)%js)
              opportunities (JS.int 0) in
  let totalImprovement :=
    fold_left (fun sum opp => (sum + estimatedImprovement opp)%js)
              opportunities (JS.int 0) in
  let quickWins :=
    filter (fun opp => Effort.eqb (effort opp) Effort.Low
                       && (estimatedImprovement opp >= JS.int 10)%js)
           opportunities in
  let highImpact :=
    filter (fun opp => (estimatedRevenueLift opp >= JS.int 30000)%js
                       || (estimatedImprovement opp >= JS.int 25)%js)
           opportunities in
  {| totalMonthlyRevenueLift := totalMonthlyRevenueLift;
     totalImprovement := totalImprovement;
     quickWins := quickWins;
     highImpact := highImpact |}.

(** Lower-casing of the letters A-Z, which is what [toLowerCase] does on
    text whose only cased letters are ASCII. *)
Definition lower_ascii (c : ascii) : ascii :=
  let n := nat_of_ascii c in
  if (65 <=? n)%nat && (n <=? 90)%nat then ascii_of_nat (n + 32) else c.

Fixpoint ascii_toLowerCase (s : string) : string :=
  match s with
  | EmptyString => EmptyString
  | String c r => String (lower_ascii c) (ascii_toLowerCase r)
  end.

(* ================================================================== *)
(** * unnamed/part_000: the types                                     *)
(* ================================================================== *)

(** The fields of the records below carry a prefix ([i_], [bi_], [r_]):
    their plain names are those of fields declared above.  Only the
    severities and categories of an issue are enumerated types; a [Date]
    is held as its time value. *)

Module Severity.

Inductive t := Critical | High | Medium | Low.

End Severity.

Module IssueCategory.

Inductive t := Performance | SEO | Mobile | Conversion | Content.

End IssueCategory.

Record Issue := {
  i_category : IssueCategory.t;
  i_severity : Severity.t;
  i_description : string;
  i_impact : string;
  i_solution : string
}.

Record BusinessInfo := {
  bi_url : string;
  bi_businessName : option string;
  bi_industry : option string;
  bi_location : option string
}.

Record Screenshots := { shot_desktop : string; shot_mobile : string }.

Record AnalysisResult := {
  r_url : string;
  r_businessInfo : BusinessInfo;
  r_scores : Scores;
  r_issues : list Issue;
  r_opportunities : list Opportunity;
  r_estimatedMonthlyLoss : JS.number;
  r_recommendedPlan : PlanTier;
  r_priority : PriorityTier;
  r_screenshots : Screenshots;
  r_analyzedAt : Z
}.

(* ================================================================== *)
(** * src/analyzers/SEOAnalyzer.ts: SEOAnalyzer                       *)
(* ================================================================== *)

(** The fields of [SEOCheckResult] that the score reads. *)
Record SEOCheckResult := {
  hasTitle : bool;
  titleLength : JS.number;
  hasMetaDescription : bool;
  metaDescriptionLength : JS.number;
  hasH1 : bool;
  h1Count : JS.number;
  hasStructuredData : bool;
  hasCanonical : bool;
  hasOGP : bool;
  hasRobotsTxt : bool;
  hasSitemap : bool
}.

Definition calculateSEOScore (result : SEOCheckResult) : JS.number :=
  let score := JS.int 100 in
  let score :=
    if negb (hasTitle result) then (score - JS.int 20)%js
    else if (titleLength result < JS.int 20)%js || (titleLength result > JS.int 60)%js
         then (score - JS.int 10)%js
         else score in
  let score :=
    if negb (hasMetaDescription result) then (score - JS.int 15)%js
    else if (metaDescriptionLength result < JS.int 80)%js
            || (metaDescriptionLength result > JS.int 160)%js
         then (score - JS.int 7)%js
         else score in
  let score :=
    if negb (hasH1 result) then (score - JS.int 15)%js
    else if (h1Count result > JS.int 1)%js then (score - JS.int 5)%js
         else score in
  let score := if negb (hasStructuredData result) then (score - JS.int 10)%js else score in
  let score := if negb (hasCanonical result) then (score - JS.int 5)%js else score in
  let score := if negb (hasOGP result) then (score - JS.int 5)%js else score in
  let score := if negb (hasRobotsTxt result) then (score - JS.int 5)%js else score in
  let score := if negb (hasSitemap result) then (score - JS.int 5)%js else score in
  JS.Math_max (JS.int 0) score.

(* ================================================================== *)
(** * unnamed/part_002: MobileAnalyzer                                *)
(* ================================================================== *)

(** The five checks that [performMobileChecks] stores in its result. *)
Record MobileChecks := {
  hasViewport : bool;
  isMobileResponsive : bool;
  touchTargetSize : bool;
  textSizeReadable : bool;
  horizontalScrolling : bool
}.

(** The computation of [result.mobileScore], which [calculateMobileScore]
    returns as the score. *)
Definition mobileScoreOf (result : MobileChecks) : JS.number :=
  let mobileScore := JS.int 0 in
  let mobileScore :=
    if hasViewport result then (mobileScore + JS.int 20)%js else mobileScore in
  let mobileScore :=
    if isMobileResponsive result then (mobileScore + JS.int 30)%js else mobileScore in
  let mobileScore :=
    if negb (horizontalScrolling result) then (mobileScore + JS.int 20)%js
    else mobileScore in
  let mobileScore :=
    if touchTargetSize result then (mobileScore + JS.int 15)%js else mobileScore in
  let mobileScore :=
    if textSizeReadable result then (mobileScore + JS.int 15)%js else mobileScore in
  mobileScore.

(* ================================================================== *)
(** * src/analyzers/ConversionAnalyzer.ts: ContentAnalyzer            *)
(* ================================================================== *)

(** [ContentCheckResult] without its optional [lastUpdated]. *)
Record ContentCheckResult := {
  totalWords : JS.number;
  hasImages : bool;
  imageCount : JS.number;
  imagesWithAlt : JS.number;
  readabilityScore : JS.number;
  hasVideoContent : bool;
  hasFAQ : bool;
  hasTestimonials : bool;
  contentQualityScore : JS.number
}.

(** The number of matches of the pattern [/\n\n/g] in [text]: the
    occurrences of two line feeds, found from left to right without
    overlap.  It is a count, as is [paragraphCount] below, and is held
    as a natural number. *)
Fixpoint blank_lines (text : string) : nat :=
  match text with
  | String a ((String b rest) as tail) =>
      if Ascii.eqb a "010" && Ascii.eqb b "010" then S (blank_lines rest)
      else blank_lines tail
  | _ => O
  end.

Definition calculateReadabilityScore (text : string) (result : ContentCheckResult)
  : JS.number :=
  let score := JS.int 50 in
  let score :=
    if (totalWords result >= JS.int 300)%js && (totalWords result <= JS.int 2000)%js
    then (score + JS.int 20)%js
    else if (totalWords result >= JS.int 200)%js || (totalWords result <= JS.int 3000)%js
         then (score + JS.int 10)%js
         else score in
  let score := (score + JS.int 10)%js in
  let score :=
    if hasImages result && (imageCount result > JS.int 0)%js then
      let imageRatio := (imageCount result / (totalWords result / JS.int 100))%js in
      if (imageRatio >= JS.dec 5 10)%js && (imageRatio <= JS.int 2)%js
      then (score + JS.int 10)%js else score
    else score in
  let paragraphCount := (blank_lines text + 1)%nat in
  let score :=
    if (3 <? paragraphCount)%nat then (score + JS.int 10)%js else score in
  JS.Math_min (JS.int 100) score.

(* ================================================================== *)
(** * src/collectors/GoogleMapsCollector.ts                           *)
(* ================================================================== *)

(** The own properties of the object literal [typeMapping]. *)
Definition typeMapping_own : list (string * string) :=
  [ ("restaurant", "restaurant"); ("cafe", "restaurant"); ("food", "restaurant");
    ("beauty_salon", "beauty"); ("hair_care", "beauty"); ("spa", "beauty");
    ("clinic", "clinic"); ("hospital", "clinic"); ("dentist", "clinic");
    ("doctor", "clinic");
    ("store", "retail"); ("shopping_mall", "retail"); ("clothing_store", "retail");
    ("lawyer", "legal"); ("accounting", "legal");
    ("gym", "fitness"); ("school", "education") ].

(** What [mapTypesToIndustry] returns: an industry label, or the member
    of [Object.prototype] that [typeMapping[type]] found. *)
Inductive industry_value :=
| Label (industry : string)
| Member (name : string).

(** [typeMapping[type]]; [None] stands for [undefined]. *)
Definition typeMapping (type : string) : option industry_value :=
  match assoc type typeMapping_own with
  | Some industry => Some (Label industry)
  | None =>
      if existsb (String.eqb type) Object_prototype_names
      then Some (Member type) else None
  end.

(** Every value found is a non-empty string, a function or an object,
    hence truthy: the loop returns at the first type that has an entry. *)
Fixpoint mapTypesToIndustry (types : list string) : industry_value :=
  match types with
  | [] => Label "other"
  | type :: rest =>
      match typeMapping type with
      | Some v => v
      | None => mapTypesToIndustry rest
      end
  end.

(* ================================================================== *)
(** * src/analyzers/SEOAnalyzer.ts: ProspectAnalyzer                  *)
(* ================================================================== *)

(** [s.startsWith(prefix)] *)
Definition startsWith (s prefix : string) : bool := String.prefix prefix s.

Definition normalizeUrl (url : string) : string :=
  if negb (startsWith url "http://") && negb (startsWith url "https://")
  then "https://" ++ url
  else url.

(** What an analyzer returns, as far as [analyzeUrl] reads it. *)
Record AnalyzerOutput := {
  out_score : JS.number;
  out_issues : list Issue;
  out_opportunities : list Opportunity
}.

(** [opportunities.reduce((sum, opp) => sum + opp.estimatedRevenueLift, 0)] *)
Definition estimatedMonthlyLossOf (opportunities : list Opportunity) : JS.number :=
  fold_left (fun sum opp => (sum + estimatedRevenueLift opp)%js)
            opportunities (JS.int 0).

Section ProspectAnalyzer.

Variable toLowerCase : string -> string.

(** [analyzeUrl] from the point where the page has loaded and the five
    analyzers and the screenshots have completed; [analyzedAt] is the
    time read there.  An exception thrown on the way is caught, and
    [null] is returned: [None]. *)
Definition analyzeUrl (businessInfo : BusinessInfo)
  (performanceResult seoResult mobileResult conversionResult contentResult
     : AnalyzerOutput)
  (screenshots : Screenshots) (analyzedAt : Z) : option AnalysisResult :=
  let isHttps := startsWith (bi_url businessInfo) "https://" in
  match
    calculateScores
      {| res_performance := {| score := out_score performanceResult |};
         res_seo := {| score := out_score seoResult |};
         res_mobile := {| score := out_score mobileResult |};
         res_conversion := {| score := out_score conversionResult |};
         res_content := {| score := out_score contentResult |};
         isHttps := isHttps |}
      (bi_industry businessInfo)
  with
  | Throw_TypeError => None
  | Return scores =>
      let opportunities :=
        calculate toLowerCase
          {| scores := scores;
             performanceResult := out_opportunities performanceResult;
             seoResult := out_opportunities seoResult;
             mobileResult := out_opportunities mobileResult;
             conversionResult := out_opportunities conversionResult;
             contentResult := out_opportunities contentResult |}
          (bi_industry businessInfo) in
      let issues :=
        out_issues performanceResult ++ out_issues seoResult
        ++ out_issues mobileResult ++ out_issues conversionResult
        ++ out_issues contentResult in
      let estimatedMonthlyLoss := estimatedMonthlyLossOf opportunities in
      let recommendedPlan := recommendPlan (total scores) in
      let priority := determinePriority (total scores) estimatedMonthlyLoss in
      Some {| r_url := bi_url businessInfo;
              r_businessInfo := businessInfo;
              r_scores := scores;
              r_issues := issues;
              r_opportunities := opportunities;
              r_estimatedMonthlyLoss := estimatedMonthlyLoss;
              r_recommendedPlan := recommendedPlan;
              r_priority := priority;
              r_screenshots := screenshots;
              r_analyzedAt := analyzedAt |}
  end.

End ProspectAnalyzer.

(* ================================================================== *)
(** * src/scoring/ScoringEngine.ts: CSVReporter                       *)
(* ================================================================== *)

Definition priorityOrder (p : PriorityTier) : JS.number :=
  match p with
  | High => JS.int 1
  | Medium => JS.int 2
  | Low => JS.int 3
  end.

(** The comparator of [sortResults]. *)
Definition byPriorityThenScore (a b : AnalysisResult) : JS.number :=
  let priorityDiff := (priorityOrder (r_priority a) - priorityOrder (r_priority b))%js in
  if (priorityDiff !== JS.int 0)%js then priorityDiff
  else (total (r_scores a) - total (r_scores b))%js.

Definition sortResults (results : list AnalysisResult) : list AnalysisResult :=
  Array_sort byPriorityThenScore results.

Definition generateNextAction (result : AnalysisResult) : string :=
  match r_priority result with
  | High =>
      if (total (r_scores result) < JS.int 30)%js
      then "緊急対応が必要です。すぐにご連絡ください。"
      else "優先的に改善提案をお送りします。"
  | Medium => "改善提案の準備をいたします。"
  | Low => "定期的な見直しをご提案します。"
  end.

Definition PriorityTier_eqb (a b : PriorityTier) : bool :=
  match a, b with
  | High, High | Medium, Medium | Low, Low => true
  | _, _ => false
  end.

Definition PlanTier_eqb (a b : PlanTier) : bool :=
  match a, b with
  | Simple, Simple | Standard, Standard | Premium, Premium => true
  | _, _ => false
  end.

(** The object [summary] that [generateSummaryCSV] writes, its nine
    fields in the order of the source; the counts are array lengths. *)
Record Summary := {
  analysed : nat;
  highPriority : nat;
  mediumPriority : nat;
  lowPriority : nat;
  averageScore : JS.number;
  totalMonthlyLoss : JS.number;
  premiumRecommended : nat;
  standardRecommended : nat;
  simpleRecommended : nat
}.

(** [array.length] as a number *)
Definition length_of {A} (l : list A) : JS.number := JS.int (Z.of_nat (List.length l)).

(** [generateSummaryCSV], up to the writing of the file. *)
Definition generateSummaryCSV (results : list AnalysisResult) : Summary :=
  {| analysed := List.length results;
     highPriority :=
       List.length (filter (fun r => PriorityTier_eqb (r_priority r) High) results);
     mediumPriority :=
       List.length (filter (fun r => PriorityTier_eqb (r_priority r) Medium) results);
     lowPriority :=
       List.length (filter (fun r => PriorityTier_eqb (r_priority r) Low) results);
     averageScore :=
       JS.Math_round
         (fold_left (fun sum r => (sum + total (r_scores r))%js) results (JS.int 0)
          / length_of results)%js;
     totalMonthlyLoss :=
       fold_left (fun sum r => (sum + r_estimatedMonthlyLoss r)%js) results (JS.int 0);
     premiumRecommended :=
       List.length (filter (fun r => PlanTier_eqb (r_recommendedPlan r) Premium) results);
     standardRecommended :=
       List.length (filter (fun r => PlanTier_eqb (r_recommendedPlan r) Standard) results);
     simpleRecommended :=
       List.length (filter (fun r => PlanTier_eqb (r_recommendedPlan r) Simple) results) |}.

(* ================================================================== *)
(** * unnamed/part_001: MarkdownReporter                              *)
(* ================================================================== *)

(** The comparator of the sort in [generateDetailedAnalysis]. *)
Definition byPriority (a b : Opportunity) : JS.number :=
  (priority b - priority a)%js.

(** [result.opportunities.sort(...).slice(0, 3)] *)
Definition topOpportunities (result : AnalysisResult) : list Opportunity :=
  slice0 3 (Array_sort byPriority (r_opportunities result)).

(* ================================================================== *)
(** * The algorithms as the specification words them                  *)
(* ================================================================== *)

Module Reference.

Inductive Category := Performance | Mobile | SEO | Conversion | Content.

Definition categories : list Category :=
  [Performance; Mobile; SEO; Conversion; Content].

(** GlobalWeights *)
Definition weight (c : Category) : JS.number :=
  match c with
  | Performance => sw_performance DEFAULT_SCORING_WEIGHTS
  | Mobile => sw_mobile DEFAULT_SCORING_WEIGHTS
  | SEO => sw_seo DEFAULT_SCORING_WEIGHTS
  | Conversion => sw_conversion DEFAULT_SCORING_WEIGHTS
  | Content => sw_content DEFAULT_SCORING_WEIGHTS
  end.

Definition multiplier (profile : IndustryConfig) (c : Category) : JS.number :=
  let wm := weightMultipliers profile in
  match c with
  | Performance => wm_performance wm
  | Mobile => wm_mobile wm
  | SEO => wm_seo wm
  | Conversion => wm_conversion wm
  | Content => wm_content wm
  end.

Definition categoryScore (results : AnalysisResults) (c : Category) : JS.number :=
  match c with
  | Performance => score (res_performance results)
  | Mobile => score (res_mobile results)
  | SEO => score (res_seo results)
  | Conversion => score (res_conversion results)
  | Content => score (res_content results)
  end.

(** Step 2: the transport penalty, floored at 0, on two categories only. *)
Definition penalty (c : Category) : option Z :=
  match c with
  | Performance => Some 10
  | SEO => Some 15
  | _ => None
  end.

Definition penalized (results : AnalysisResults) (c : Category) : JS.number :=
  let s := categoryScore results c in
  if isHttps results then s
  else match penalty c with
       | Some p => JS.Math_max (JS.int 0) (s - JS.int p)%js
       | None => s
       end.

(** Step 3: weighting by the industry multiplier, rounded. *)
Definition adjusted (profile : IndustryConfig) (results : AnalysisResults)
  (c : Category) : JS.number :=
  JS.Math_round (penalized results c * multiplier profile c)%js.

(** A sum written term by term, added from left to right. *)
Definition sum (terms : list JS.number) : JS.number :=
  match terms with
  | [] => JS.int 0
  | t :: rest => fold_left JS.add rest t
  end.

(** Step 4: the weight-normalized average. *)
Definition weightedTotal (profile : IndustryConfig) (results : AnalysisResults)
  : JS.number :=
  JS.Math_round
    (sum (map (fun c => adjusted profile results c * weight c)%js categories)
     / sum (map weight categories))%js.

(** Step 5: clamping into [0,100]. *)
Definition clamp (x : JS.number) : JS.number :=
  JS.Math_min (JS.int 100) (JS.Math_max (JS.int 0) x).

Definition computeScores (profile : IndustryConfig) (results : AnalysisResults)
  : Scores :=
  {| total := clamp (weightedTotal profile results);
     performance := clamp (adjusted profile results Performance);
     mobile := clamp (adjusted profile results Mobile);
     seo := clamp (adjusted profile results SEO);
     conversion := clamp (adjusted profile results Conversion);
     content := clamp (adjusted profile results Content) |}.

(** The return-on-investment projection of section 4.4, given the revenue
    base; products are taken in the order the code multiplies. *)
Definition targetScoreOf (plan : PlanTier) : JS.number :=
  match plan with
  | Simple => JS.int 60
  | Standard => JS.int 75
  | Premium => JS.int 90
  end.

Definition monthlyReturn (revenueBase currentScore : JS.number) (plan : PlanTier)
  : JS.number :=
  (revenueBase
   * (JS.Math_max (JS.int 0) (targetScoreOf plan - currentScore) * JS.dec 5 1000))%js.

Definition payback (monthlyInvestment estimatedMonthlyReturn : JS.number)
  : JS.number :=
  if (monthlyInvestment > JS.int 0)%js then
    JS.Math_ceil
      (monthlyInvestment
       / JS.Math_max (JS.int 1) (estimatedMonthlyReturn - monthlyInvestment))%js
  else JS.int 0.

Definition roi3y (monthlyInvestment estimatedMonthlyReturn : JS.number)
  : JS.number :=
  if (monthlyInvestment * JS.int 36 > JS.int 0)%js then
    JS.Math_round
      (((estimatedMonthlyReturn * JS.int 36 - monthlyInvestment * JS.int 36)
        / (monthlyInvestment * JS.int 36)) * JS.int 100)%js
  else JS.int 0.

(** The revenue base as the specification states it: the supplied figure,
    else the industry average. *)
Definition revenueBase_stated (currentMonthlyRevenue : option JS.number)
  (industryAverage : JS.number) : JS.number :=
  match currentMonthlyRevenue with
  | Some r => r
  | None => industryAverage
  end.

(** The revenue base the code uses: the supplied figure unless it is
    absent, zero or NaN. *)
Definition revenueBase_truthy (currentMonthlyRevenue : option JS.number)
  (industryAverage : JS.number) : JS.number :=
  match currentMonthlyRevenue with
  | Some r => if JS.truthy r then r else industryAverage
  | None => industryAverage
  end.

End Reference.

(** Inputs used in the examples. *)
Definition results_of (p m s c ct : JS.number) (https : bool) : AnalysisResults :=
  {| res_performance := {| score := p |};
     res_seo := {| score := s |};
     res_mobile := {| score := m |};
     res_conversion := {| score := c |};
     res_content := {| score := ct |};
     isHttps := https |}.

Definition scores_of (t p m s c ct : Z) : Scores :=
  {| total := JS.int t; performance := JS.int p; mobile := JS.int m;
     seo := JS.int s; conversion := JS.int c; content := JS.int ct |}.

Definition opportunity (t : string) (prio lift : Z) : Opportunity :=
  {| title := t; description := "";
     estimatedImprovement := JS.int 10;
     estimatedRevenueLift := JS.int lift;
     effort := Effort.Medium;
     priority := JS.int prio |}.

(** Thirteen raw opportunities, two of them under the same key, for a
    page that scores low on performance, mobile and conversion. *)
Definition sample : AnalysisData :=
  {| scores := scores_of 25 20 45 80 30 80;
     performanceResult :=
       [opportunity "CDN" 8 40000; opportunity "WebP" 7 25000;
        opportunity "Cache" 5 50000; opportunity "Minify" 3 10000];
     seoResult :=
       [opportunity "Title" 9 25000; opportunity "Meta" 7 20000;
        opportunity "Schema" 8 30000; opportunity "title" 6 40000];
     mobileResult :=
       [opportunity "Viewport" 9 30000; opportunity "Touch" 7 25000];
     conversionResult :=
       [opportunity "Phone" 10 40000; opportunity "Booking" 9 60000];
     contentResult := [opportunity "FAQ" 8 20000] |}.

(** The largest finite number, [1.7976931348623157e308]. *)
Definition MAX_VALUE : JS.number := SFmax_float JS.prec JS.emax.

(** Inputs used in the examples: a hair salon served over HTTPS whose five
    analyzers report low scores and the opportunities of [sample]. *)
Definition output_of (s : Z) (opportunities : list Opportunity) : AnalyzerOutput :=
  {| out_score := JS.int s; out_issues := []; out_opportunities := opportunities |}.

Definition salon : BusinessInfo :=
  {| bi_url := "https://salon.example";
     bi_businessName := Some "Salon";
     bi_industry := Some "beauty";
     bi_location := None |}.

Definition salon_analysis : option AnalysisResult :=
  analyzeUrl ascii_toLowerCase salon
    (output_of 20 (performanceResult sample)) (output_of 30 (seoResult sample))
    (output_of 20 (mobileResult sample)) (output_of 25 (conversionResult sample))
    (output_of 40 (contentResult sample))
    {| shot_desktop := "desktop.png"; shot_mobile := "mobile.png" |} 0.

(** A result with the given priority and total score. *)
Definition result_of (p : PriorityTier) (t : Z) : AnalysisResult :=
  {| r_url := ""; r_businessInfo := salon;
     r_scores := scores_of t t t t t t;
     r_issues := []; r_opportunities := [];
     r_estimatedMonthlyLoss := JS.int 0;
     r_recommendedPlan := recommendPlan (JS.int t);
     r_priority := p;
     r_screenshots := {| shot_desktop := ""; shot_mobile := "" |};
     r_analyzedAt := 0 |}.

(* ================================================================== *)
(** * The order on numbers                                            *)
(* ================================================================== *)

(** The rank of a number that is not NaN: comparing two numbers is
    comparing their ranks lexicographically. *)
Definition rank (x : JS.number) : Z * Z * Z :=
  match x with
  | S754_nan => (0, 0, 0)
  | S754_zero _ => (0, 0, 0)
  | S754_infinity true => (-2, 0, 0)
  | S754_infinity false => (2, 0, 0)
  | S754_finite false m e => (1, e, Z.pos m)
  | S754_finite true m e => (-1, - e, Z.neg m)
  end.

(** Lexicographic comparison of ranks. *)
Definition lex (p q : Z * Z * Z) : comparison :=
  let '(a1, b1, c1) := p in
  let '(a2, b2, c2) := q in
  match a1 ?= a2 with
  | Eq => match b1 ?= b2 with Eq => c1 ?= c2 | r => r end
  | r => r
  end.

(** The strict lexicographic order on ranks. *)
Definition lexlt (p q : Z * Z * Z) : Prop :=
  let '(a1, b1, c1) := p in
  let '(a2, b2, c2) := q in
  a1 < a2 \/ (a1 = a2 /\ (b1 < b2 \/ (b1 = b2 /\ c1 < c2))).

(** [x] is not NaN. *)
Definition is_number (x : JS.number) : Prop := JS.is_nan x = false.

(* ================================================================== *)
(** * Vocabulary for the facts about binary64 arithmetic              *)
(* ================================================================== *)

(** The exponent a number of magnitude below [2^z] is rounded to. *)
Definition fx (z : Z) : Z := fexp JS.prec JS.emax z.

(** The amount by which [shr_fexp] shifts. *)
Definition shift (m e : Z) : Z := Z.max 0 (fx (Zdigits2 m + e) - e).

(** [x] is a zero, a finite number or an infinity of sign [s]. *)
Definition signed_as (s : bool) (x : spec_float) : Prop :=
  match x with
  | S754_zero s' | S754_infinity s' | S754_finite s' _ _ => s' = s
  | S754_nan => False
  end.

(** [x] is neither a zero nor NaN. *)
Definition nonzero (x : spec_float) : Prop :=
  match x with
  | S754_zero _ | S754_nan => False
  | _ => True
  end.

(** [x] is a binary64 value: a finite number has its canonical mantissa
    and exponent.  This holds of every number the engine manipulates. *)
Definition valid (x : spec_float) : Prop := valid_binary JS.prec JS.emax x = true.

(** The aligned integer mantissas that [SFadd] and [SFsub] combine. *)
Definition aligned (s : bool) (m : positive) (e ez : Z) : Z :=
  cond_Zopp s (Z.pos (fst (shl_align m e ez))).

(** A zero or a finite number. *)
Definition is_finite (x : JS.number) : Prop :=
  match x with
  | S754_zero _ | S754_finite _ _ _ => True
  | _ => False
  end.

(** A finite number above zero. *)
Definition positive_finite (x : JS.number) : Prop :=
  match x with
  | S754_finite false _ _ => True
  | _ => False
  end.

(** A number that is not below zero: a zero, a positive finite number or
    +Infinity. *)
Definition nonneg (x : JS.number) : Prop :=
  match x with
  | S754_zero _ | S754_finite false _ _ | S754_infinity false => True
  | _ => False
  end.

(** A number within [0,100]. *)
Definition in_range (x : JS.number) : Prop :=
  (JS.int 0 <= x)%js = true /\ (x <= JS.int 100)%js = true.

(** A zero, or a finite number of magnitude below [2^k]. *)
Definition below_pow2 (k : Z) (x : JS.number) : Prop :=
  match x with
  | S754_zero _ => True
  | S754_finite _ m e => Z.pos (digits2_pos m) + e <= k
  | _ => False
  end.

(** A binary64 number that is finite and of magnitude below [2^1000],
    about 1.07e301. *)
Definition moderate (x : JS.number) : Prop := valid x /\ below_pow2 1000 x.

(** One of the six profiles of the registry. *)
Definition registry_profile (profile : IndustryConfig) : Prop :=
  In profile (map snd INDUSTRY_CONFIGS_own).

(** The priority and the revenue lift of an opportunity are binary64
    numbers other than NaN. *)
Definition well_formed (o : Opportunity) : Prop :=
  valid (priority o) /\ is_number (priority o)
  /\ valid (estimatedRevenueLift o) /\ is_number (estimatedRevenueLift o).

(** [a] may stand before [b] in the ranking: its priority is higher, or
    the priorities are equal and its revenue lift is not lower. *)
Definition ranked_before (a b : Opportunity) : Prop :=
  (priority a > priority b)%js = true
  \/ ((priority a === priority b)%js = true
      /\ (estimatedRevenueLift a >= estimatedRevenueLift b)%js = true).

(* ================================================================== *)
(** * Vocabulary for the deduplication property                       *)
(* ================================================================== *)

Section Winner.

Variable toLowerCase : string -> string.

(** The key under which an opportunity is deduplicated. *)
Definition keyOf (o : Opportunity) : string := toLowerCase (title o).

(** [s] occurs in [l] at a position where every earlier opportunity with
    its key has a strictly lower priority and no later one with its key
    has a higher priority: among the opportunities of its key, [s] is the
    first of those with the highest priority. *)
Definition first_best (l : list Opportunity) (s : Opportunity) : Prop :=
  exists l1 l2,
    l = l1 ++ s :: l2
    /\ (forall o, In o l1 -> keyOf o = keyOf s ->
                  (priority o < priority s)%js = true)
    /\ (forall o, In o l2 -> keyOf o = keyOf s ->
                  (priority o > priority s)%js = false).

(** What the [forEach] loop maintains, [l] being the opportunities already
    visited. *)
Definition dedup_inv (l : list Opportunity) (seen : JSMap Opportunity) : Prop :=
  NoDup (map fst seen)
  /\ (forall k s, In (k, s) seen -> k = keyOf s /\ first_best l s)
  /\ (forall o, In o l -> In (keyOf o) (map fst seen)).

End Winner.

(* ================================================================== *)
(** * Vocabulary for the further properties                           *)
(* ================================================================== *)

(** How pressing a priority tier is. *)
Definition urgency (p : PriorityTier) : nat :=
  match p with
  | High => 2
  | Medium => 1
  | Low => 0
  end.

(** Structural equality of numbers, as a test. *)
Definition number_eqb (x y : JS.number) : bool :=
  match x, y with
  | S754_zero a, S754_zero b => Bool.eqb a b
  | S754_infinity a, S754_infinity b => Bool.eqb a b
  | S754_nan, S754_nan => true
  | S754_finite s m e, S754_finite s' m' e' =>
      Bool.eqb s s' && Pos.eqb m m' && Z.eqb e e'
  | _, _ => false
  end.

(** The integers [0, 1, ..., n - 1]. *)
Definition upto (n : nat) : list Z := map Z.of_nat (seq 0 n).

(** The contribution that [generateScoreBreakdown] computes for a score
    and its weight. *)
Definition contributionOf (score weight : JS.number) : JS.number :=
  JS.Math_round
    ((score * weight)
     / fold_left (fun sum w => (sum + w)%js)
                 (Object_values DEFAULT_SCORING_WEIGHTS) (JS.int 0))%js.

(** The total score of a result is a binary64 number other than NaN. *)
Definition scored (r : AnalysisResult) : Prop :=
  valid (total (r_scores r)) /\ is_number (total (r_scores r)).

(** [a] may stand before [b] in the report: it is more pressing, or as
    pressing with a total score that is not higher. *)
Definition listed_before (a b : AnalysisResult) : Prop :=
  (urgency (r_priority b) < urgency (r_priority a))%nat
  \/ (r_priority a = r_priority b
      /\ (total (r_scores a) <= total (r_scores b))%js = true).

(** [r] is a result that [analyzeUrl] returns for some business and some
    analyzer outputs. *)
Definition produced (toLowerCase : string -> string) (r : AnalysisResult) : Prop :=
  exists businessInfo performanceResult seoResult mobileResult conversionResult
         contentResult screenshots analyzedAt,
    analyzeUrl toLowerCase businessInfo performanceResult seoResult mobileResult
      conversionResult contentResult screenshots analyzedAt = Some r.

(** A score that is an integer between [lo] and [hi]. *)
Definition integer_between (lo hi : Z) (x : JS.number) : Prop :=
  exists k, lo <= k <= hi /\ x = JS.int k.

(** A score as [calculateScores] returns it: one of the integers from 0
    to 100, or NaN. *)
Definition percentage (x : JS.number) : Prop :=
  x = JS.NaN \/ exists k, 0 <= k <= 100 /\ x = JS.int k.

(* ================================================================== *)
(** * Checks of the number model                                      *)
(* ================================================================== *)

Example literal_one_tenth :
  JS.dec 1 10 = S754_finite false 7205759403792794 (-56).
Proof. vm_compute. reflexivity. Qed.

Example sum_is_inexact :
  (JS.dec 1 10 + JS.dec 2 10)%js = S754_finite false 5404319552844596 (-54)
  /\ (JS.dec 1 10 + JS.dec 2 10 === JS.dec 3 10)%js = false.
Proof. split; vm_compute; reflexivity. Qed.

Example weights_add_up :
  (sw_performance DEFAULT_SCORING_WEIGHTS + sw_mobile DEFAULT_SCORING_WEIGHTS
   + sw_seo DEFAULT_SCORING_WEIGHTS + sw_conversion DEFAULT_SCORING_WEIGHTS
   + sw_content DEFAULT_SCORING_WEIGHTS)%js = JS.int 1.
Proof. vm_compute. reflexivity. Qed.

Example round_examples :
  JS.Math_round (JS.dec 25 10) = JS.int 3
  /\ JS.Math_round (JS.dec (-25) 10) = JS.int (-2)
  /\ JS.Math_round (JS.dec 4 10) = S754_zero false
  /\ JS.Math_round (JS.dec (-4) 10) = S754_zero true
  /\ JS.Math_round (JS.int 45 * JS.dec 11 10)%js = JS.int 50
  /\ JS.Math_round JS.NaN = JS.NaN
  /\ JS.Math_round JS.Infinity = JS.Infinity.
Proof. repeat split; vm_compute; reflexivity. Qed.

Example ceil_examples :
  JS.Math_ceil (JS.dec 129 1000) = JS.int 1
  /\ JS.Math_ceil (JS.dec (-4) 10) = S754_zero true
  /\ JS.Math_ceil (JS.int 7) = JS.int 7
  /\ JS.Math_ceil (JS.dec 71 10) = JS.int 8.
Proof. repeat split; vm_compute; reflexivity. Qed.

Example max_min_examples :
  JS.Math_max (JS.int 0) (JS.int (-5)) = JS.int 0
  /\ JS.Math_max (JS.int 0) JS.NaN = JS.NaN
  /\ JS.Math_min (JS.int 100) JS.NaN = JS.NaN
  /\ JS.Math_min (JS.int 100) JS.Infinity = JS.int 100
  /\ JS.Math_max (JS.int 0) (S754_zero true) = S754_zero false.
Proof. repeat split; vm_compute; reflexivity. Qed.

Example overflow_examples :
  (MAX_VALUE * JS.dec 11 10)%js = JS.Infinity
  /\ (JS.Infinity - JS.Infinity)%js = JS.NaN
  /\ (JS.NaN < JS.int 30)%js = false
  /\ (JS.NaN !== JS.NaN)%js = true.
Proof. repeat split; vm_compute; reflexivity. Qed.

Example registry_lookups :
  INDUSTRY_CONFIGS "clinic" = Some (Profile clinic)
  /\ INDUSTRY_CONFIGS "bakery" = None
  /\ INDUSTRY_CONFIGS "toString" = Some (Inherited "toString")
  /\ industryConfigFor (Some "bakery") = Profile default
  /\ industryConfigFor (Some "") = Profile default
  /\ industryConfigFor None = Profile default.
Proof. repeat split; reflexivity. Qed.

(* ================================================================== *)
(** * Facts about binary64 rounding                                   *)
(* ================================================================== *)

Lemma digits2_size p : digits2_pos p = Pos.size p.
Proof. induction p; cbn; congruence. Qed.

Lemma digits_log2 p : Z.pos (digits2_pos p) = Z.log2 (Z.pos p) + 1.
Proof.
  destruct p; cbn [digits2_pos Z.log2]; rewrite ?digits2_size; lia.
Qed.

Lemma Zdigits2_log2 m : 0 < m -> Zdigits2 m = Z.log2 m + 1.
Proof. destruct m; try lia. intros _. apply digits_log2. Qed.

Lemma iter_pos_iter {A} (f : A -> A) n : forall x, iter_pos f n x = Pos.iter f x n.
Proof.
  induction n as [n IH | n IH |]; intros x; cbn [iter_pos Pos.iter].
  - rewrite !IH. now rewrite <- !Pos.iter_swap.
  - now rewrite !IH.
  - reflexivity.
Qed.

Lemma shr_1_m mrs : 0 <= shr_m mrs -> shr_m (shr_1 mrs) = Z.div2 (shr_m mrs).
Proof.
  destruct mrs as [m r s]. cbn [shr_m shr_1].
  destruct m as [| [p | p |] | p]; cbn; intros; try reflexivity; lia.
Qed.

Lemma shr_iter_m n : forall mrs,
  0 <= shr_m mrs ->
  shr_m (Pos.iter shr_1 mrs n) = Z.shiftr (shr_m mrs) (Z.pos n).
Proof.
  intros mrs H. change (Z.shiftr (shr_m mrs) (Z.pos n)) with (Pos.iter Z.div2 (shr_m mrs) n).
  rewrite !Pos2Nat.inj_iter.
  induction (Pos.to_nat n) as [| k IH]; cbn [nat_rect]; [reflexivity|].
  rewrite shr_1_m, IH; [reflexivity|].
  rewrite IH. clear IH. induction k; cbn [nat_rect]; [assumption|].
  now apply Z.div2_nonneg.
Qed.

Lemma fx_eq z : fx z = Z.max (z - 53) (-1074).
Proof. reflexivity. Qed.

Lemma shr_fexp_spec m e l :
  0 <= m ->
  shr_m (fst (shr_fexp JS.prec JS.emax m e l)) = Z.shiftr m (shift m e)
  /\ snd (shr_fexp JS.prec JS.emax m e l) = e + shift m e.
Proof.
  intros Hm. unfold shr_fexp, shift, shr. fold (fx (Zdigits2 m + e)).
  assert (Hrec : shr_m (shr_record_of_loc m l) = m) by (destruct l as [| []]; reflexivity).
  destruct (fx (Zdigits2 m + e) - e) as [| p | p] eqn:E; cbn [fst snd].
  - rewrite Hrec. cbn. split; [reflexivity | lia].
  - rewrite iter_pos_iter, shr_iter_m, Hrec by (rewrite Hrec; assumption).
    rewrite Z.max_r by lia. split; reflexivity.
  - rewrite Hrec. rewrite Z.max_l by lia. rewrite Z.shiftr_0_r. split; [reflexivity | lia].
Qed.

Lemma round_nearest_even_bounds m l :
  m <= round_nearest_even m l <= m + 1.
Proof.
  destruct l as [| []]; cbn [round_nearest_even]; try lia.
  destruct (Z.even m); lia.
Qed.

(** What [binary_round_aux] computes, over the integers. *)
Lemma binary_round_aux_spec s mx ex lx :
  0 <= mx ->
  exists m1,
    let m' := Z.shiftr mx (shift mx ex) in
    let e' := ex + shift mx ex in
    m' <= m1 <= m' + 1
    /\ binary_round_aux JS.prec JS.emax s mx ex lx =
       match Z.shiftr m1 (shift m1 e') with
       | Z0 => S754_zero s
       | Z.pos m => if e' + shift m1 e' <=? JS.emax - JS.prec
                    then S754_finite s m (e' + shift m1 e')
                    else S754_infinity s
       | Z.neg _ => S754_nan
       end.
Proof.
  intros Hm. unfold binary_round_aux.
  destruct (shr_fexp_spec mx ex lx Hm) as [H1 H2].
  destruct (shr_fexp JS.prec JS.emax mx ex lx) as [mrs' e'] eqn:E1. cbn [fst snd] in H1, H2.
  set (m1 := round_nearest_even (shr_m mrs') (loc_of_shr_record mrs')).
  assert (Hb : shr_m mrs' <= m1 <= shr_m mrs' + 1) by apply round_nearest_even_bounds.
  assert (Hm1 : 0 <= m1).
  { rewrite H1 in Hb. pose proof (proj2 (Z.shiftr_nonneg mx (shift mx ex)) Hm). lia. }
  destruct (shr_fexp_spec m1 e' loc_Exact Hm1) as [H3 H4].
  destruct (shr_fexp JS.prec JS.emax m1 e' loc_Exact) as [mrs'' e''] eqn:E2. cbn [fst snd] in H3, H4.
  exists m1. cbv zeta. rewrite <- H1, <- H2. split; [exact Hb|].
  rewrite H3, H4. reflexivity.
Qed.

Lemma shiftr_pos_log2 a n :
  0 < a -> 0 <= n -> 0 < Z.shiftr a n ->
  n <= Z.log2 a /\ Z.log2 (Z.shiftr a n) = Z.log2 a - n.
Proof.
  intros Ha Hn Hs.
  assert (n <= Z.log2 a).
  { destruct (Z.le_gt_cases n (Z.log2 a)) as [|Hlt]; [assumption|].
    assert (Z.shiftr a n = 0) by (apply Z.shiftr_eq_0_iff; right; split; assumption).
    lia. }
  split; [assumption|]. rewrite Z.log2_shiftr by assumption. lia.
Qed.

Lemma shiftr_zero_log2 a n : 0 < a -> Z.shiftr a n = 0 -> Z.log2 a < n.
Proof. intros Ha H. apply Z.shiftr_eq_0_iff in H. lia. Qed.

Lemma shiftr_pos_of_le a n : 0 < a -> 0 <= n -> n <= Z.log2 a -> 0 < Z.shiftr a n.
Proof.
  intros Ha Hn Hle.
  pose proof (proj2 (Z.shiftr_nonneg a n) (Z.lt_le_incl _ _ Ha)).
  destruct (Z.eq_dec (Z.shiftr a n) 0) as [E|]; [| lia].
  apply shiftr_zero_log2 in E; lia.
Qed.

Lemma binary_round_aux_signed s mx ex lx :
  0 <= mx -> signed_as s (binary_round_aux JS.prec JS.emax s mx ex lx).
Proof.
  intros Hm. destruct (binary_round_aux_spec s mx ex lx Hm) as (m1 & Hb & ->).
  cbv zeta in Hb.
  assert (0 <= m1).
  { pose proof (proj2 (Z.shiftr_nonneg mx (shift mx ex)) Hm). lia. }
  pose proof (proj2 (Z.shiftr_nonneg m1 (shift m1 (ex + shift mx ex))) H) as Hs.
  destruct (Z.shiftr m1 (shift m1 (ex + shift mx ex))); cbn; try reflexivity; [| lia].
  destruct (_ <=? _); reflexivity.
Qed.

Lemma binary_round_aux_valid s mx ex lx :
  0 < mx -> ex <= fx (Zdigits2 mx + ex) ->
  valid (binary_round_aux JS.prec JS.emax s mx ex lx).
Proof.
  intros Hm Hpre.
  destruct (binary_round_aux_spec s mx ex lx (Z.lt_le_incl _ _ Hm)) as (m1 & Hb & ->).
  cbv zeta in Hb. unfold valid.
  set (sh1 := shift mx ex) in *. set (e' := ex + sh1) in *.
  destruct (Z.shiftr m1 (shift m1 e')) as [| m | m] eqn:E; try reflexivity.
  destruct (e' + shift m1 e' <=? JS.emax - JS.prec) eqn:Hle; [| reflexivity].
  cbn [valid_binary]. unfold bounded. rewrite Hle, andb_true_r.
  unfold canonical_mantissa. apply Z.eqb_eq. fold (fx (Z.pos (digits2_pos m) + (e' + shift m1 e'))).
  rewrite digits_log2, <- E.
  assert (Hsh1 : 0 <= sh1) by (unfold sh1, shift; lia).
  assert (Hm1 : 0 < m1).
  { destruct (Z.eq_dec m1 0) as [-> |]; [rewrite Z.shiftr_0_l in E; discriminate|].
    pose proof (proj2 (Z.shiftr_nonneg mx sh1) (Z.lt_le_incl _ _ Hm)). lia. }
  assert (Hsh2 : 0 <= shift m1 e') by (unfold shift; lia).
  assert (Hpos : 0 < Z.shiftr m1 (shift m1 e')) by (rewrite E; lia).
  destruct (shiftr_pos_log2 _ _ Hm1 Hsh2 Hpos) as [Hle2 ->].
  pose proof (Z.log2_nonneg mx) as HL.
  clear Hpos E Hle. revert Hle2.
  unfold e', sh1, shift in *. clear e' sh1.
  rewrite (Zdigits2_log2 m1 Hm1), (Zdigits2_log2 mx Hm), !fx_eq in *.
  set (sh := Z.max 0 (Z.max (Z.log2 mx + 1 + ex - 53) (-1074) - ex)) in *.
  destruct (Z.eq_dec (Z.shiftr mx sh) 0) as [E0 | E0].
  - pose proof (shiftr_zero_log2 _ _ Hm E0) as Hlt.
    rewrite E0 in Hb. assert (m1 = 1) by lia. subst m1. cbn [Z.log2]. lia.
  - assert (Hp : 0 < Z.shiftr mx sh).
    { pose proof (proj2 (Z.shiftr_nonneg mx sh) (Z.lt_le_incl _ _ Hm)). lia. }
    destruct (shiftr_pos_log2 _ _ Hm Hsh1 Hp) as [Hle1 Hlog].
    assert (Hmono : Z.log2 (Z.shiftr mx sh) <= Z.log2 m1)
      by (apply Z.log2_le_mono; lia).
    rewrite Hlog in Hmono. lia.
Qed.

Lemma binary_round_aux_nonzero s mx ex lx :
  0 < mx -> ex <= fx (Zdigits2 mx + ex) -> -1074 <= ex ->
  nonzero (binary_round_aux JS.prec JS.emax s mx ex lx).
Proof.
  intros Hm Hpre Hmin.
  destruct (binary_round_aux_spec s mx ex lx (Z.lt_le_incl _ _ Hm)) as (m1 & Hb & ->).
  cbv zeta in Hb.
  pose proof (Z.log2_nonneg mx) as HL.
  assert (Hsh1 : 0 <= shift mx ex) by (unfold shift; lia).
  assert (Hle1 : shift mx ex <= Z.log2 mx).
  { unfold shift. rewrite (Zdigits2_log2 mx Hm), fx_eq. lia. }
  pose proof (shiftr_pos_of_le _ _ Hm Hsh1 Hle1) as Hp.
  destruct (shiftr_pos_log2 _ _ Hm Hsh1 Hp) as [_ Hlog].
  assert (Hm1 : 0 < m1) by lia.
  assert (Hmono : Z.log2 (Z.shiftr mx (shift mx ex)) <= Z.log2 m1)
    by (apply Z.log2_le_mono; lia).
  assert (Hsh2 : 0 <= shift m1 (ex + shift mx ex)) by (unfold shift; lia).
  assert (Hle2 : shift m1 (ex + shift mx ex) <= Z.log2 m1).
  { pose proof (Z.log2_nonneg m1). unfold shift in *.
    rewrite (Zdigits2_log2 m1 Hm1), (Zdigits2_log2 mx Hm), !fx_eq in *. lia. }
  pose proof (shiftr_pos_of_le _ _ Hm1 Hsh2 Hle2) as Hp2.
  destruct (Z.shiftr m1 (shift m1 (ex + shift mx ex))); try lia.
  destruct (_ <=? _); exact I.
Qed.

Lemma iter_xO m d : Z.pos (Pos.iter xO m d) = Z.pos m * 2 ^ Z.pos d.
Proof.
  rewrite <- Z.shiftl_mul_pow2 by lia.
  change (Z.shiftl (Z.pos m) (Z.pos d)) with (Pos.iter (Z.mul 2) (Z.pos m) d).
  rewrite !Pos2Nat.inj_iter.
  induction (Pos.to_nat d) as [| k IH]; cbn [nat_rect]; [reflexivity|].
  rewrite <- IH. reflexivity.
Qed.

(** The mantissa and exponent [shl_align] returns. *)
Lemma shl_align_spec m e e' :
  Z.pos (fst (shl_align m e e')) = Z.pos m * 2 ^ (e - Z.min e e')
  /\ snd (shl_align m e e') = Z.min e e'.
Proof.
  unfold shl_align. destruct (e' - e) as [| d | d] eqn:E; cbn [fst snd].
  - replace (Z.min e e') with e by lia. rewrite Z.sub_diag. cbn. lia.
  - replace (Z.min e e') with e by lia. rewrite Z.sub_diag. cbn. lia.
  - replace (Z.min e e') with e' by lia. rewrite iter_xO.
    replace (e - e') with (Z.pos d) by lia. split; reflexivity.
Qed.

Lemma log2_mul_pow2 a n : 0 < a -> 0 <= n -> Z.log2 (a * 2 ^ n) = Z.log2 a + n.
Proof. intros. rewrite Z.log2_mul_pow2; lia. Qed.

Lemma binary_round_pre m e :
  let mz := fst (shl_align m e (fx (Z.pos (digits2_pos m) + e))) in
  let ez := snd (shl_align m e (fx (Z.pos (digits2_pos m) + e))) in
  ez <= fx (Zdigits2 (Z.pos mz) + ez) /\ (-1074 <= e -> -1074 <= ez).
Proof.
  cbv zeta.
  assert (HF : fx (Z.pos (digits2_pos m) + e) = Z.max (Z.log2 (Z.pos m) + 1 + e - 53) (-1074))
    by (now rewrite digits_log2, fx_eq).
  set (F := fx (Z.pos (digits2_pos m) + e)) in *.
  destruct (shl_align_spec m e F) as [H1 H2].
  rewrite H2. cbn [Zdigits2]. rewrite digits_log2, H1.
  rewrite log2_mul_pow2 by lia. rewrite !fx_eq.
  pose proof (Z.log2_nonneg (Z.pos m)). lia.
Qed.

Lemma binary_round_eq s m e :
  binary_round JS.prec JS.emax s m e =
  binary_round_aux JS.prec JS.emax s
    (Z.pos (fst (shl_align m e (fx (Z.pos (digits2_pos m) + e)))))
    (snd (shl_align m e (fx (Z.pos (digits2_pos m) + e)))) loc_Exact.
Proof.
  unfold binary_round. fold (fx (Z.pos (digits2_pos m) + e)).
  now destruct (shl_align m e (fx (Z.pos (digits2_pos m) + e))).
Qed.

Lemma binary_round_valid s m e : valid (binary_round JS.prec JS.emax s m e).
Proof.
  rewrite binary_round_eq. apply binary_round_aux_valid; [lia|].
  apply binary_round_pre.
Qed.

Lemma binary_round_signed s m e : signed_as s (binary_round JS.prec JS.emax s m e).
Proof. rewrite binary_round_eq. apply binary_round_aux_signed. lia. Qed.

Lemma binary_round_nonzero s m e :
  -1074 <= e -> nonzero (binary_round JS.prec JS.emax s m e).
Proof.
  intros He. rewrite binary_round_eq.
  apply binary_round_aux_nonzero; [lia | apply binary_round_pre | now apply binary_round_pre].
Qed.

Lemma binary_normalize_valid z e sz : valid (binary_normalize JS.prec JS.emax z e sz).
Proof. destruct z; [reflexivity | |]; apply binary_round_valid. Qed.

Lemma valid_finite s m e :
  valid (S754_finite s m e) <->
  Z.max (Z.log2 (Z.pos m) + 1 + e - 53) (-1074) = e /\ e <= 971.
Proof.
  unfold valid. cbn [valid_binary]. unfold bounded, canonical_mantissa.
  fold (fx (Z.pos (digits2_pos m) + e)). rewrite digits_log2, fx_eq.
  rewrite andb_true_iff, Z.eqb_eq, Z.leb_le. reflexivity.
Qed.

Lemma SFadd_valid x y : valid x -> valid y -> valid (SFadd JS.prec JS.emax x y).
Proof.
  destruct x as [sx | sx | | sx mx ex], y as [sy | sy | | sy my ey];
    intros Hx Hy; cbn [SFadd]; try assumption; try reflexivity;
    try (destruct sx, sy; (assumption || reflexivity)).
  apply binary_normalize_valid.
Qed.

Lemma SFsub_valid x y : valid x -> valid y -> valid (SFsub JS.prec JS.emax x y).
Proof.
  destruct x as [sx | sx | | sx mx ex], y as [sy | sy | | sy my ey];
    intros Hx Hy; cbn [SFsub]; try assumption; try reflexivity;
    try (destruct sx, sy; (assumption || reflexivity)).
  apply binary_normalize_valid.
Qed.

Lemma SFmul_valid x y : valid x -> valid y -> valid (SFmul JS.prec JS.emax x y).
Proof.
  destruct x as [sx | sx | | sx mx ex], y as [sy | sy | | sy my ey];
    intros Hx Hy; cbn [SFmul]; try reflexivity.
  apply valid_finite in Hx, Hy.
  apply binary_round_aux_valid; [lia|].
  cbn [Zdigits2]. rewrite digits_log2, fx_eq.
  pose proof (Z.log2_mul_below (Z.pos mx) (Z.pos my) ltac:(lia) ltac:(lia)) as Hlog.
  pose proof (Z.log2_nonneg (Z.pos mx)). pose proof (Z.log2_nonneg (Z.pos my)).
  change (Z.pos (mx * my)) with (Z.pos mx * Z.pos my). lia.
Qed.

Lemma aligned_eq s m e e' :
  aligned s m e (Z.min e e') = cond_Zopp s (Z.pos m * 2 ^ (e - Z.min e e')).
Proof.
  unfold aligned. destruct (shl_align_spec m e (Z.min e e')) as [-> _].
  now replace (Z.min e (Z.min e e')) with (Z.min e e') by lia.
Qed.

(** Between canonical finite numbers, a smaller exponent means a smaller
    magnitude. *)
Lemma magnitude_lt sx mx ex sy my ey :
  valid (S754_finite sx mx ex) -> valid (S754_finite sy my ey) ->
  ex < ey ->
  Z.pos mx * 2 ^ (ex - Z.min ex ey) < Z.pos my * 2 ^ (ey - Z.min ex ey).
Proof.
  intros Hx Hy Hlt. apply valid_finite in Hx, Hy.
  replace (Z.min ex ey) with ex by lia. rewrite Z.sub_diag, Z.mul_1_r.
  pose proof (Z.log2_spec (Z.pos mx) ltac:(lia)) as [_ Hmx].
  pose proof (Z.log2_spec (Z.pos my) ltac:(lia)) as [Hmy _].
  pose proof (Z.log2_nonneg (Z.pos mx)).
  assert (Hlx : Z.succ (Z.log2 (Z.pos mx)) <= 53) by lia.
  assert (Hly : Z.log2 (Z.pos my) = 52) by lia.
  rewrite Hly in Hmy.
  pose proof (Z.pow_le_mono_r 2 _ _ ltac:(lia) Hlx) as H53.
  pose proof (Z.pow_le_mono_r 2 1 (ey - ex) ltac:(lia) ltac:(lia)) as H2.
  change (2 ^ 1) with 2 in H2.
  assert (2 ^ 53 = 2 ^ 52 * 2) by reflexivity.
  nia.
Qed.

(** Comparing two canonical finite numbers is comparing their aligned
    mantissas. *)
Lemma compare_aligned sx mx ex sy my ey :
  valid (S754_finite sx mx ex) -> valid (S754_finite sy my ey) ->
  SFcompare (S754_finite sx mx ex) (S754_finite sy my ey) =
  Some (aligned sx mx ex (Z.min ex ey) ?= aligned sy my ey (Z.min ex ey)).
Proof.
  intros Hx Hy. rewrite aligned_eq.
  rewrite (Z.min_comm ex ey) at 2. rewrite aligned_eq. rewrite (Z.min_comm ey ex).
  pose proof (magnitude_lt sx mx ex sy my ey Hx Hy) as Hlt.
  pose proof (magnitude_lt sy my ey sx mx ex Hy Hx) as Hgt.
  rewrite (Z.min_comm ey ex) in Hgt.
  assert (Hpx : 0 < Z.pos mx * 2 ^ (ex - Z.min ex ey)) by (apply Z.mul_pos_pos; [lia | apply Z.pow_pos_nonneg; lia]).
  assert (Hpy : 0 < Z.pos my * 2 ^ (ey - Z.min ex ey)) by (apply Z.mul_pos_pos; [lia | apply Z.pow_pos_nonneg; lia]).
  cbn [SFcompare]. f_equal.
  destruct (Z.compare_spec ex ey) as [E | E | E].
  - subst ey. rewrite Z.min_id, Z.sub_diag, !Z.mul_1_r in *.
    destruct sx, sy; reflexivity.
  - specialize (Hlt E).
    destruct sx, sy; cbn [cond_Zopp]; symmetry;
      first [apply Z.compare_lt_iff | apply Z.compare_gt_iff]; lia.
  - specialize (Hgt E).
    destruct sx, sy; cbn [cond_Zopp]; symmetry;
      first [apply Z.compare_lt_iff | apply Z.compare_gt_iff]; lia.
Qed.

(* ================================================================== *)
(** * Facts about the order on numbers                                *)
(* ================================================================== *)

Lemma SFcompare_lex x y :
  is_number x -> is_number y -> SFcompare x y = Some (lex (rank x) (rank y)).
Proof.
  unfold is_number.
  destruct x as [sx | sx | | sx mx ex], y as [sy | sy | | sy my ey];
    cbn [JS.is_nan]; try discriminate; intros _ _;
    try (destruct sx); try (destruct sy); try reflexivity.
  cbn [SFcompare rank lex]. rewrite Z.compare_opp, (Z.compare_antisym ex ey).
  change (-1 ?= -1) with Eq. cbv iota.
  destruct (ex ?= ey); reflexivity.
Qed.

Lemma lex_Lt p q : lex p q = Lt <-> lexlt p q.
Proof.
  destruct p as [[a1 b1] c1], q as [[a2 b2] c2]. unfold lex, lexlt.
  destruct (Z.compare_spec a1 a2), (Z.compare_spec b1 b2), (Z.compare_spec c1 c2);
    split; intros; try discriminate; try reflexivity; lia.
Qed.

Lemma lex_Gt p q : lex p q = Gt <-> lexlt q p.
Proof.
  destruct p as [[a1 b1] c1], q as [[a2 b2] c2]. unfold lex, lexlt.
  destruct (Z.compare_spec a1 a2), (Z.compare_spec b1 b2), (Z.compare_spec c1 c2);
    split; intros; try discriminate; try reflexivity; lia.
Qed.

Lemma lex_Eq p q : lex p q = Eq <-> p = q.
Proof.
  destruct p as [[a1 b1] c1], q as [[a2 b2] c2]. unfold lex.
  destruct (Z.compare_spec a1 a2), (Z.compare_spec b1 b2), (Z.compare_spec c1 c2);
    split; intros E; try discriminate; try reflexivity;
    try (inversion E; lia); subst; reflexivity.
Qed.

Lemma lex_cases p q : lexlt p q \/ p = q \/ lexlt q p.
Proof.
  destruct (lex p q) eqn:E.
  - right; left. now apply lex_Eq.
  - left. now apply lex_Lt.
  - right; right. now apply lex_Gt.
Qed.

Lemma lexlt_irrefl p : ~ lexlt p p.
Proof. destruct p as [[a b] c]. unfold lexlt. lia. Qed.

Lemma lexlt_trans p q r : lexlt p q -> lexlt q r -> lexlt p r.
Proof.
  destruct p as [[a1 b1] c1], q as [[a2 b2] c2], r as [[a3 b3] c3].
  unfold lexlt. lia.
Qed.

Lemma lexlt_asym p q : lexlt p q -> ~ lexlt q p.
Proof. intros H H'. exact (lexlt_irrefl _ (lexlt_trans _ _ _ H H')). Qed.

Lemma nan_compare_l y : SFcompare S754_nan y = None.
Proof. reflexivity. Qed.

Lemma nan_compare_r x : SFcompare x S754_nan = None.
Proof. destruct x; reflexivity. Qed.

Lemma compare_number x y c : SFcompare x y = Some c -> is_number x /\ is_number y.
Proof.
  unfold is_number. destruct x, y; cbn; intros; try discriminate; auto.
Qed.

Lemma lt_spec x y :
  JS.lt x y = true <-> is_number x /\ is_number y /\ lexlt (rank x) (rank y).
Proof.
  unfold JS.lt, SFltb. split.
  - destruct (SFcompare x y) as [c|] eqn:E; try discriminate.
    destruct (compare_number _ _ _ E) as [Hx Hy].
    rewrite (SFcompare_lex _ _ Hx Hy) in E. injection E as <-.
    destruct (lex (rank x) (rank y)) eqn:L; try discriminate.
    intros _. repeat split; auto. now apply lex_Lt.
  - intros (Hx & Hy & L). rewrite (SFcompare_lex _ _ Hx Hy).
    apply lex_Lt in L. now rewrite L.
Qed.

Lemma le_spec x y :
  JS.le x y = true <->
  is_number x /\ is_number y /\ (lexlt (rank x) (rank y) \/ rank x = rank y).
Proof.
  unfold JS.le, SFleb. split.
  - destruct (SFcompare x y) as [c|] eqn:E; try discriminate.
    destruct (compare_number _ _ _ E) as [Hx Hy].
    rewrite (SFcompare_lex _ _ Hx Hy) in E. injection E as <-.
    destruct (lex (rank x) (rank y)) eqn:L; try discriminate; intros _;
      repeat split; auto.
    + right. now apply lex_Eq.
    + left. now apply lex_Lt.
  - intros (Hx & Hy & [L | L]); rewrite (SFcompare_lex _ _ Hx Hy).
    + apply lex_Lt in L. now rewrite L.
    + apply lex_Eq in L. now rewrite L.
Qed.

Lemma eq_spec x y :
  JS.eq x y = true <-> is_number x /\ is_number y /\ rank x = rank y.
Proof.
  unfold JS.eq, SFeqb. split.
  - destruct (SFcompare x y) as [c|] eqn:E; try discriminate.
    destruct (compare_number _ _ _ E) as [Hx Hy].
    rewrite (SFcompare_lex _ _ Hx Hy) in E. injection E as <-.
    destruct (lex (rank x) (rank y)) eqn:L; try discriminate; intros _;
      repeat split; auto. now apply lex_Eq.
  - intros (Hx & Hy & L); rewrite (SFcompare_lex _ _ Hx Hy).
    apply lex_Eq in L. now rewrite L.
Qed.

Lemma gt_spec x y :
  JS.gt x y = true <-> is_number x /\ is_number y /\ lexlt (rank y) (rank x).
Proof. unfold JS.gt. change (SFltb y x) with (JS.lt y x). rewrite lt_spec. tauto. Qed.

Lemma ge_spec x y :
  JS.ge x y = true <->
  is_number x /\ is_number y /\ (lexlt (rank y) (rank x) \/ rank x = rank y).
Proof.
  unfold JS.ge. change (SFleb y x) with (JS.le y x). rewrite le_spec.
  intuition congruence.
Qed.

Lemma lt_le x y : JS.lt x y = true -> JS.le x y = true.
Proof. rewrite lt_spec, le_spec. tauto. Qed.

Lemma le_not_lt x y : JS.le x y = true -> JS.lt y x = false.
Proof.
  rewrite le_spec. intros (Hx & Hy & H).
  destruct (JS.lt y x) eqn:E; [|reflexivity].
  apply lt_spec in E. destruct E as (_ & _ & L). destruct H as [H | H].
  - destruct (lexlt_asym _ _ H L).
  - rewrite H in L. destruct (lexlt_irrefl _ L).
Qed.

Lemma lt_trans x y z : JS.lt x y = true -> JS.lt y z = true -> JS.lt x z = true.
Proof.
  rewrite !lt_spec. intros (Hx & Hy & H1) (_ & Hz & H2).
  repeat split; auto. eapply lexlt_trans; eauto.
Qed.

Lemma lt_le_trans x y z : JS.lt x y = true -> JS.le y z = true -> JS.lt x z = true.
Proof.
  rewrite !lt_spec, le_spec. intros (Hx & Hy & H1) (_ & Hz & [H2 | H2]).
  - repeat split; auto. eapply lexlt_trans; eauto.
  - repeat split; auto. now rewrite <- H2.
Qed.

Lemma not_lt_le x y :
  is_number x -> is_number y -> JS.lt x y = false -> JS.le y x = true.
Proof.
  intros Hx Hy H. apply le_spec. repeat split; auto.
  destruct (lex_cases (rank x) (rank y)) as [L | [L | L]]; auto.
  assert (JS.lt x y = true) by (apply lt_spec; auto). congruence.
Qed.

(* ================================================================== *)
(** * Facts about the arithmetic operators                            *)
(* ================================================================== *)

Lemma signed_as_number s x : signed_as s x -> is_number x.
Proof. destruct x; cbn; intros; (reflexivity || contradiction). Qed.

Lemma valid_exponent s m e : valid (S754_finite s m e) -> -1074 <= e.
Proof. intros H. apply valid_finite in H. lia. Qed.

Lemma int_valid z : valid (JS.int z).
Proof. apply binary_normalize_valid. Qed.

Lemma int_zero : JS.int 0 = S754_zero false.
Proof. reflexivity. Qed.

Lemma int_positive z : 0 < z -> signed_as false (JS.int z) /\ nonzero (JS.int z).
Proof.
  destruct z as [| p | p]; try lia. intros _. unfold JS.int. cbn [binary_normalize].
  split; [apply binary_round_signed | apply binary_round_nonzero; lia].
Qed.

Lemma int_negative z : z < 0 -> signed_as true (JS.int z) /\ nonzero (JS.int z).
Proof.
  destruct z as [| p | p]; try lia. intros _. unfold JS.int. cbn [binary_normalize].
  split; [apply binary_round_signed | apply binary_round_nonzero; lia].
Qed.

Lemma int_number z : is_number (JS.int z).
Proof.
  destruct (Z.lt_trichotomy z 0) as [H | [-> | H]].
  - exact (signed_as_number _ _ (proj1 (int_negative z H))).
  - reflexivity.
  - exact (signed_as_number _ _ (proj1 (int_positive z H))).
Qed.

Lemma binary_normalize_number z e sz : is_number (binary_normalize JS.prec JS.emax z e sz).
Proof.
  destruct z; cbn [binary_normalize]; [reflexivity | |];
    exact (signed_as_number _ _ (binary_round_signed _ _ _)).
Qed.

Lemma add_finite_number x y : is_number x -> is_finite y -> is_number (x + y)%js.
Proof.
  unfold JS.add.
  destruct x as [sx | sx | | sx mx ex], y as [sy | sy | | sy my ey];
    cbn [SFadd is_finite]; intros Hx Hy; try contradiction; try discriminate;
    try reflexivity; try (destruct sx, sy; reflexivity).
  apply binary_normalize_number.
Qed.

Lemma sub_finite_number x y : is_number x -> is_finite y -> is_number (x - y)%js.
Proof.
  unfold JS.sub.
  destruct x as [sx | sx | | sx mx ex], y as [sy | sy | | sy my ey];
    cbn [SFsub is_finite]; intros Hx Hy; try contradiction; try discriminate;
    try reflexivity; try (destruct sx, sy; reflexivity).
  apply binary_normalize_number.
Qed.

Lemma mul_positive_number x y : is_number x -> positive_finite y -> is_number (x * y)%js.
Proof.
  unfold JS.mul.
  destruct x as [sx | sx | | sx mx ex], y as [sy | [] | | [] my ey];
    cbn [SFmul positive_finite]; intros Hx Hy; try contradiction; try discriminate;
    try reflexivity.
  eapply signed_as_number, binary_round_aux_signed. lia.
Qed.

Lemma signed_as_nonneg x : signed_as false x -> nonneg x.
Proof.
  destruct x as [? | ? | | ? ? ?]; cbn; intros H; try contradiction; subst; exact I.
Qed.

Lemma mul_positive_nonneg x y : nonneg x -> positive_finite y -> nonneg (x * y)%js.
Proof.
  unfold JS.mul.
  destruct x as [sx | [] | | [] mx ex], y as [sy | [] | | [] my ey];
    cbn [SFmul positive_finite nonneg]; intros Hx Hy; try contradiction; try exact I.
  apply signed_as_nonneg. cbn [xorb]. apply binary_round_aux_signed. lia.
Qed.

Lemma add_nonneg x y : nonneg x -> nonneg y -> nonneg (x + y)%js.
Proof.
  unfold JS.add.
  destruct x as [sx | [] | | [] mx ex], y as [sy | [] | | [] my ey];
    cbn [SFadd nonneg]; intros Hx Hy; try contradiction; try exact I.
  - destruct sx, sy; exact I.
  - cbn [cond_Zopp].
    destruct (Z.pos (fst (shl_align mx ex (Z.min ex ey)))
              + Z.pos (fst (shl_align my ey (Z.min ex ey)))) as [| p | p] eqn:E;
      try lia; cbn [binary_normalize].
    apply signed_as_nonneg, binary_round_signed.
Qed.

Lemma nonneg_number x : nonneg x -> is_number x.
Proof. destruct x as [? | [] | | [] ? ?]; cbn; intros; (reflexivity || contradiction). Qed.

Lemma nonneg_le x : nonneg x <-> (JS.int 0 <= x)%js = true.
Proof.
  rewrite int_zero.
  destruct x as [? | [] | | [] ? ?]; cbn; split; intros; try exact I;
    try reflexivity; try contradiction; discriminate.
Qed.

Lemma div_core_nonneg m1 e1 m2 e2 :
  0 <= fst (fst (SFdiv_core_binary JS.prec JS.emax (Z.pos m1) e1 (Z.pos m2) e2)).
Proof.
  unfold SFdiv_core_binary.
  set (e' := Z.min _ _). set (sh := e1 - e2 - e').
  set (m' := match sh with Z.pos _ => Z.shiftl (Z.pos m1) sh | Z0 => Z.pos m1 | Z.neg _ => 0 end).
  assert (Hm' : 0 <= m').
  { unfold m'. destruct sh; try lia. apply Z.shiftl_nonneg. lia. }
  pose proof (Z_div_mod m' (Z.pos m2) ltac:(lia)) as H.
  destruct (Z.div_eucl m' (Z.pos m2)) as [q r]. cbn [fst].
  destruct H as [H1 H2]. nia.
Qed.

Lemma div_positive_nonneg x y : nonneg x -> positive_finite y -> nonneg (x / y)%js.
Proof.
  unfold JS.div.
  destruct x as [sx | [] | | [] mx ex], y as [sy | [] | | [] my ey];
    cbn [SFdiv positive_finite nonneg]; intros Hx Hy; try contradiction; try exact I.
  pose proof (div_core_nonneg mx ex my ey) as Hq.
  destruct (SFdiv_core_binary _ _ _ _ _ _) as [[q e] l]. cbn [fst] in Hq.
  apply signed_as_nonneg. cbn [xorb]. now apply binary_round_aux_signed.
Qed.

(* ================================================================== *)
(** * Facts about [Math.round], [Math.max] and [Math.min]             *)
(* ================================================================== *)

Lemma integral_valid s z : valid (JS.integral s z).
Proof. unfold JS.integral. destruct (z =? 0); [reflexivity | apply int_valid]. Qed.

Lemma integral_number s z : is_number (JS.integral s z).
Proof. unfold JS.integral. destruct (z =? 0); [reflexivity | apply int_number]. Qed.

Lemma integral_nonneg z : 0 <= z -> nonneg (JS.integral false z).
Proof.
  intros Hz. unfold JS.integral. destruct (Z.eqb_spec z 0) as [| Hne]; [exact I|].
  apply signed_as_nonneg, int_positive. lia.
Qed.

Lemma Math_round_valid x : valid x -> valid (JS.Math_round x).
Proof.
  destruct x as [s | s | | s m e]; cbn [JS.Math_round]; auto.
  intros H. destruct (0 <=? e); [assumption | apply integral_valid].
Qed.

Lemma Math_round_number x : is_number x -> is_number (JS.Math_round x).
Proof.
  destruct x as [s | s | | s m e]; cbn [JS.Math_round]; auto.
  intros _. destruct (0 <=? e); [reflexivity | apply integral_number].
Qed.

Lemma Math_round_nonneg x : nonneg x -> nonneg (JS.Math_round x).
Proof.
  destruct x as [s | s | | [] m e]; cbn [JS.Math_round nonneg]; auto;
    try contradiction.
  intros _. destruct (0 <=? e) eqn:E; [exact I|].
  apply integral_nonneg. cbn [JS.signed].
  apply Z.div_pos; [| apply Z.pow_pos_nonneg; lia].
  pose proof (Z.pow_nonneg 2 (- e) ltac:(lia)). lia.
Qed.

Lemma Math_max_cases x y :
  is_number x -> is_number y ->
  (JS.Math_max x y = y /\ JS.lt x y = true)
  \/ (JS.Math_max x y = x /\ JS.lt y x = true)
  \/ (JS.lt x y = false /\ JS.lt y x = false
      /\ ((exists sx sy, x = S754_zero sx /\ y = S754_zero sy
                         /\ JS.Math_max x y = S754_zero (sx && sy))
          \/ JS.Math_max x y = x)).
Proof.
  unfold is_number, JS.Math_max. intros -> ->. cbn [orb].
  destruct (JS.lt x y); [now left|].
  destruct (JS.lt y x); [right; now left|].
  right; right. repeat split.
  destruct x as [sx | | |]; try (now right).
  destruct y as [sy | | |]; try (now right).
  left. now exists sx, sy.
Qed.

Lemma Math_min_cases x y :
  is_number x -> is_number y ->
  (JS.Math_min x y = x /\ JS.lt x y = true)
  \/ (JS.Math_min x y = y /\ JS.lt y x = true)
  \/ (JS.lt x y = false /\ JS.lt y x = false
      /\ ((exists sx sy, x = S754_zero sx /\ y = S754_zero sy
                         /\ JS.Math_min x y = S754_zero (sx || sy))
          \/ JS.Math_min x y = x)).
Proof.
  unfold is_number, JS.Math_min. intros -> ->. cbn [orb].
  destruct (JS.lt x y); [now left|].
  destruct (JS.lt y x); [right; now left|].
  right; right. repeat split.
  destruct x as [sx | | |]; try (now right).
  destruct y as [sy | | |]; try (now right).
  left. now exists sx, sy.
Qed.

Lemma Math_max_nan_l y : JS.Math_max JS.NaN y = JS.NaN.
Proof. reflexivity. Qed.

Lemma Math_max_nan_r x : JS.Math_max x JS.NaN = JS.NaN.
Proof. unfold JS.Math_max. cbn [JS.is_nan JS.NaN]. now rewrite orb_true_r. Qed.

Lemma Math_min_nan_r x : JS.Math_min x JS.NaN = JS.NaN.
Proof. unfold JS.Math_min. cbn [JS.is_nan JS.NaN]. now rewrite orb_true_r. Qed.

Lemma Math_max_number x y : is_number x -> is_number y -> is_number (JS.Math_max x y).
Proof.
  intros Hx Hy.
  destruct (Math_max_cases x y Hx Hy)
    as [[-> _] | [[-> _] | (_ & _ & [(sx & sy & _ & _ & ->) | ->])]]; auto;
    reflexivity.
Qed.

Lemma Math_min_number x y : is_number x -> is_number y -> is_number (JS.Math_min x y).
Proof.
  intros Hx Hy.
  destruct (Math_min_cases x y Hx Hy)
    as [[-> _] | [[-> _] | (_ & _ & [(sx & sy & _ & _ & ->) | ->])]]; auto;
    reflexivity.
Qed.

Lemma Math_max_valid x y : valid x -> valid y -> valid (JS.Math_max x y).
Proof.
  intros Hx Hy. destruct (JS.is_nan x) eqn:Ex.
  { destruct x; try discriminate. reflexivity. }
  destruct (JS.is_nan y) eqn:Ey.
  { destruct y; try discriminate. now rewrite Math_max_nan_r. }
  destruct (Math_max_cases x y Ex Ey)
    as [[-> _] | [[-> _] | (_ & _ & [(sx & sy & _ & _ & ->) | ->])]]; auto;
    reflexivity.
Qed.

Lemma Math_min_valid x y : valid x -> valid y -> valid (JS.Math_min x y).
Proof.
  intros Hx Hy. destruct (JS.is_nan x) eqn:Ex.
  { destruct x; try discriminate. reflexivity. }
  destruct (JS.is_nan y) eqn:Ey.
  { destruct y; try discriminate. now rewrite Math_min_nan_r. }
  destruct (Math_min_cases x y Ex Ey)
    as [[-> _] | [[-> _] | (_ & _ & [(sx & sy & _ & _ & ->) | ->])]]; auto;
    reflexivity.
Qed.

(** [Math.max(0, x)] is not below zero when [x] is a number. *)
Lemma Math_max_zero_nonneg x : is_number x -> nonneg (JS.Math_max (JS.int 0) x).
Proof.
  intros Hx. rewrite int_zero.
  destruct (Math_max_cases (S754_zero false) x eq_refl Hx)
    as [[-> H] | [[-> _] | (_ & _ & [(sx & sy & _ & _ & ->) | ->])]]; try exact I.
  destruct x as [? | [] | | [] ? ?]; try discriminate; exact I.
Qed.

Lemma int_100 : JS.int 100 = S754_finite false 7036874417766400 (-46).
Proof. reflexivity. Qed.

(** Clamping maps every number into [0,100], and NaN to NaN. *)
Lemma clamp_in_range x : is_number x -> in_range (Reference.clamp x).
Proof.
  intros Hx. unfold Reference.clamp.
  pose proof (Math_max_zero_nonneg x Hx) as Hy.
  set (y := JS.Math_max (JS.int 0) x) in *.
  pose proof (nonneg_number y Hy) as Hny.
  assert (H100 : in_range (JS.int 100)) by (split; reflexivity).
  destruct (Math_min_cases (JS.int 100) y (int_number 100) Hny)
    as [[-> _] | [[-> Hlt] | (_ & _ & [(sx & sy & E & _) | ->])]]; auto.
  - split; [now apply nonneg_le | now apply lt_le].
  - rewrite int_100 in E. discriminate.
Qed.

Lemma clamp_nan : Reference.clamp JS.NaN = JS.NaN.
Proof. reflexivity. Qed.

Lemma clamp_in_range_or_nan x :
  in_range (Reference.clamp x) \/ Reference.clamp x = JS.NaN.
Proof.
  destruct (JS.is_nan x) eqn:E.
  - right. destruct x; try discriminate. reflexivity.
  - left. now apply clamp_in_range.
Qed.

(* ================================================================== *)
(** * The sign of a difference                                        *)
(* ================================================================== *)

Lemma signed_nonzero_positive x :
  signed_as false x -> nonzero x ->
  SFltb (S754_zero false) x = true /\ SFltb x (S754_zero false) = false.
Proof.
  destruct x as [? | ? | | ? ? ?]; cbn; intros H1 H2; try contradiction; subst;
    split; reflexivity.
Qed.

Lemma signed_nonzero_negative x :
  signed_as true x -> nonzero x ->
  SFltb (S754_zero false) x = false /\ SFltb x (S754_zero false) = true.
Proof.
  destruct x as [? | ? | | ? ? ?]; cbn; intros H1 H2; try contradiction; subst;
    split; reflexivity.
Qed.

(** For binary64 numbers other than NaN, [x - y] is above zero exactly
    when [x > y], and below zero exactly when [x < y]. *)
Lemma sub_sign x y :
  valid x -> valid y -> is_number x -> is_number y ->
  ((x - y) > JS.int 0)%js = (x > y)%js /\ ((x - y) < JS.int 0)%js = (x < y)%js.
Proof.
  unfold JS.gt, JS.lt, JS.sub. rewrite int_zero.
  destruct x as [sx | sx | | sx mx ex], y as [sy | sy | | sy my ey];
    intros Vx Vy Nx Ny; try discriminate;
    try (destruct sx, sy; split; reflexivity);
    try (destruct sx; split; reflexivity);
    try (destruct sy; split; reflexivity).
  cbn [SFsub]. unfold SFltb.
  rewrite (compare_aligned _ _ _ _ _ _ Vx Vy), (compare_aligned _ _ _ _ _ _ Vy Vx).
  rewrite (Z.min_comm ey ex).
  fold (aligned sx mx ex (Z.min ex ey)). fold (aligned sy my ey (Z.min ex ey)).
  set (X := aligned sx mx ex (Z.min ex ey)). set (Y := aligned sy my ey (Z.min ex ey)).
  assert (Hmin : -1074 <= Z.min ex ey).
  { pose proof (valid_exponent _ _ _ Vx). pose proof (valid_exponent _ _ _ Vy). lia. }
  destruct (X - Y) as [| d | d] eqn:E; cbn [binary_normalize].
  - assert (HXY : X = Y) by lia. rewrite HXY, Z.compare_refl. split; reflexivity.
  - destruct (signed_nonzero_positive _ (binary_round_signed false d (Z.min ex ey))
                (binary_round_nonzero false d _ Hmin)) as [H1 H2].
    unfold SFltb in H1, H2. rewrite H1, H2.
    assert (Hlt : Y < X) by lia.
    rewrite (proj2 (Z.compare_lt_iff Y X) Hlt), (proj2 (Z.compare_gt_iff X Y) Hlt).
    split; reflexivity.
  - destruct (signed_nonzero_negative _ (binary_round_signed true d (Z.min ex ey))
                (binary_round_nonzero true d _ Hmin)) as [H1 H2].
    unfold SFltb in H1, H2. rewrite H1, H2.
    assert (Hlt : X < Y) by lia.
    rewrite (proj2 (Z.compare_lt_iff X Y) Hlt), (proj2 (Z.compare_gt_iff Y X) Hlt).
    split; reflexivity.
Qed.

(* ================================================================== *)
(** * Magnitudes                                                      *)
(* ================================================================== *)

Lemma below_pow2_mono k k' x : k <= k' -> below_pow2 k x -> below_pow2 k' x.
Proof. destruct x; cbn; auto. intros. lia. Qed.

Lemma below_pow2_finite k x : below_pow2 k x -> is_finite x.
Proof. destruct x; cbn; auto. Qed.

(** Rounding raises the magnitude by at most one binary order, and does
    not overflow below [2^1023]. *)
Lemma binary_round_aux_below s mx ex lx k :
  0 < mx -> ex <= fx (Zdigits2 mx + ex) ->
  Zdigits2 mx + ex <= k -> -1074 <= k -> k <= 1023 ->
  below_pow2 (k + 1) (binary_round_aux JS.prec JS.emax s mx ex lx).
Proof.
  intros Hm Hpre Hk Hlo Hhi.
  destruct (binary_round_aux_spec s mx ex lx (Z.lt_le_incl _ _ Hm)) as (m1 & Hb & ->).
  cbv zeta in Hb.
  set (sh1 := shift mx ex) in *. set (e' := ex + sh1) in *.
  assert (Hsh1 : 0 <= sh1) by (unfold sh1, shift; lia).
  assert (Hm' : 0 <= Z.shiftr mx sh1)
    by (apply Z.shiftr_nonneg; lia).
  destruct (Z.shiftr m1 (shift m1 e')) as [| m | m] eqn:E; [exact I | |].
  2:{ pose proof (proj2 (Z.shiftr_nonneg m1 (shift m1 e')) ltac:(lia)). lia. }
  assert (Hm1 : 0 < m1).
  { destruct (Z.eq_dec m1 0) as [-> |]; [rewrite Z.shiftr_0_l in E; discriminate | lia]. }
  assert (Hsh2 : 0 <= shift m1 e') by (unfold shift; lia).
  assert (Hpos : 0 < Z.shiftr m1 (shift m1 e')) by (rewrite E; lia).
  destruct (shiftr_pos_log2 _ _ Hm1 Hsh2 Hpos) as [Hle2 Hlog2].
  pose proof (Z.log2_nonneg mx) as HL.
  assert (Hdig : Z.pos (digits2_pos m) = Z.log2 m1 - shift m1 e' + 1).
  { rewrite digits_log2, <- E, Hlog2. reflexivity. }
  assert (Hm1log : Z.log2 m1 + 1 + e' <= k + 1 /\ e' <= Z.max (k - 53) (-1074)).
  { unfold e', sh1, shift in *. rewrite (Zdigits2_log2 mx Hm), !fx_eq in *.
    set (sh := Z.max 0 (Z.max (Z.log2 mx + 1 + ex - 53) (-1074) - ex)) in *.
    destruct (Z.eq_dec (Z.shiftr mx sh) 0) as [E0 | E0].
    - pose proof (shiftr_zero_log2 _ _ Hm E0) as Hlt.
      rewrite E0 in Hb. assert (m1 = 1) by lia. subst m1. cbn [Z.log2]. lia.
    - assert (Hp : 0 < Z.shiftr mx sh) by lia.
      destruct (shiftr_pos_log2 _ _ Hm Hsh1 Hp) as [Hle1 Hlog].
      assert (Hup : Z.log2 m1 <= Z.log2 (Z.succ (Z.shiftr mx sh)))
        by (apply Z.log2_le_mono; lia).
      pose proof (Z.log2_succ_le (Z.shiftr mx sh)) as Hsucc.
      rewrite Hlog in Hsucc. lia. }
  assert (Hfin : e' + shift m1 e' <= 971).
  { unfold shift. rewrite (Zdigits2_log2 m1 Hm1), fx_eq. lia. }
  change (JS.emax - JS.prec) with 971.
  rewrite (proj2 (Z.leb_le _ _) Hfin). cbn [below_pow2]. lia.
Qed.

Lemma binary_round_below s m e k :
  Z.pos (digits2_pos m) + e <= k -> -1074 <= k -> k <= 1023 ->
  below_pow2 (k + 1) (binary_round JS.prec JS.emax s m e).
Proof.
  intros Hk Hlo Hhi. rewrite binary_round_eq.
  pose proof (binary_round_pre m e) as [Hpre _]. cbv zeta in Hpre.
  apply binary_round_aux_below; try assumption; [lia|].
  cbn [Zdigits2].
  assert (HF : fx (Z.pos (digits2_pos m) + e) = Z.max (Z.log2 (Z.pos m) + 1 + e - 53) (-1074))
    by (now rewrite digits_log2, fx_eq).
  set (F := fx (Z.pos (digits2_pos m) + e)) in *.
  destruct (shl_align_spec m e F) as [H1 H2].
  rewrite H2, digits_log2, H1, log2_mul_pow2 by lia.
  rewrite digits_log2 in Hk. lia.
Qed.

Lemma mul_pre mx ex my ey :
  valid (S754_finite false mx ex) -> valid (S754_finite false my ey) ->
  ex + ey <= fx (Zdigits2 (Z.pos (mx * my)) + (ex + ey)).
Proof.
  intros Hx Hy. apply valid_finite in Hx, Hy.
  cbn [Zdigits2]. rewrite digits_log2, fx_eq.
  pose proof (Z.log2_mul_below (Z.pos mx) (Z.pos my) ltac:(lia) ltac:(lia)) as Hlog.
  pose proof (Z.log2_nonneg (Z.pos mx)). pose proof (Z.log2_nonneg (Z.pos my)).
  change (Z.pos (mx * my)) with (Z.pos mx * Z.pos my). lia.
Qed.

Lemma mul_below a b x y :
  valid x -> valid y -> below_pow2 a x -> below_pow2 b y ->
  -1074 <= a + b -> a + b <= 1023 ->
  below_pow2 (a + b + 1) (x * y)%js.
Proof.
  unfold JS.mul.
  destruct x as [sx | sx | | sx mx ex], y as [sy | sy | | sy my ey];
    cbn [SFmul below_pow2]; intros Vx Vy Hx Hy Hlo Hhi; try contradiction; try exact I.
  apply binary_round_aux_below; try assumption; [lia | | ].
  - apply mul_pre; [exact Vx | exact Vy].
  - cbn [Zdigits2]. rewrite digits_log2 in *.
    pose proof (Z.log2_mul_above (Z.pos mx) (Z.pos my) ltac:(lia) ltac:(lia)) as Hlog.
    change (Z.pos (mx * my)) with (Z.pos mx * Z.pos my). lia.
Qed.

Lemma aligned_eq_r s m e e' :
  aligned s m e (Z.min e' e) = cond_Zopp s (Z.pos m * 2 ^ (e - Z.min e' e)).
Proof. rewrite (Z.min_comm e' e). apply aligned_eq. Qed.

(** The magnitude of an aligned mantissa. *)
Lemma aligned_log2 m e e' k :
  Z.pos (digits2_pos m) + e <= k ->
  Z.log2 (Z.pos m * 2 ^ (e - Z.min e e')) + 1 + Z.min e e' <= k.
Proof.
  intros H. rewrite digits_log2 in H. rewrite log2_mul_pow2 by lia. lia.
Qed.

Lemma log2_sum_le x y k :
  0 < x -> 0 < y -> Z.log2 x <= k -> Z.log2 y <= k ->
  forall d, 0 < d -> d <= x + y -> Z.log2 d <= k + 1.
Proof.
  intros Hx Hy Hlx Hly d Hd Hle.
  assert (Hmax : d <= 2 * Z.max x y) by lia.
  pose proof (Z.log2_le_mono _ _ Hmax) as Hmono.
  rewrite Z.log2_double in Hmono by lia.
  destruct (Z.max_spec x y) as [[_ E] | [_ E]]; rewrite E in Hmono; lia.
Qed.

Lemma normalize_difference_below sx mx ex sy my ey a b (plus : bool) :
  Z.pos (digits2_pos mx) + ex <= a ->
  Z.pos (digits2_pos my) + ey <= b ->
  -1074 <= Z.max a b + 1 -> Z.max a b + 1 <= 1023 ->
  below_pow2 (Z.max a b + 2)
    (binary_normalize JS.prec JS.emax
       (if plus
        then aligned sx mx ex (Z.min ex ey) + aligned sy my ey (Z.min ex ey)
        else aligned sx mx ex (Z.min ex ey) - aligned sy my ey (Z.min ex ey))
       (Z.min ex ey) false).
Proof.
  intros Ha Hb Hlo Hhi.
  pose proof (aligned_log2 mx ex ey a Ha) as Hx.
  pose proof (aligned_log2 my ey ex b Hb) as Hy.
  rewrite (Z.min_comm ey ex) in Hy.
  rewrite !aligned_eq, !aligned_eq_r.
  set (X := Z.pos mx * 2 ^ (ex - Z.min ex ey)) in *.
  set (Y := Z.pos my * 2 ^ (ey - Z.min ex ey)) in *.
  assert (HX : 0 < X) by (apply Z.mul_pos_pos; [lia | apply Z.pow_pos_nonneg; lia]).
  assert (HY : 0 < Y) by (apply Z.mul_pos_pos; [lia | apply Z.pow_pos_nonneg; lia]).
  set (D := if plus then cond_Zopp sx X + cond_Zopp sy Y
            else cond_Zopp sx X - cond_Zopp sy Y).
  assert (HD : Z.abs D <= X + Y) by (unfold D; destruct plus, sx, sy; cbn [cond_Zopp]; lia).
  assert (Hlog : 0 < Z.abs D ->
                 Z.log2 (Z.abs D) + 1 + Z.min ex ey <= (Z.max a b + 1)).
  { intros Hpos.
    pose proof (log2_sum_le X Y (Z.max a b - 1 - Z.min ex ey) HX HY
                  ltac:(lia) ltac:(lia) (Z.abs D) Hpos HD). lia. }
  replace (Z.max a b + 2) with ((Z.max a b + 1) + 1) by lia.
  destruct D as [| d | d]; cbn [binary_normalize]; [exact I | |];
    apply binary_round_below; try assumption; rewrite digits_log2;
    apply Hlog; cbn; lia.
Qed.

Lemma sub_below a b x y :
  below_pow2 a x -> below_pow2 b y ->
  -1074 <= Z.max a b + 1 -> Z.max a b + 1 <= 1023 ->
  below_pow2 (Z.max a b + 2) (x - y)%js.
Proof.
  unfold JS.sub.
  destruct x as [sx | sx | | sx mx ex], y as [sy | sy | | sy my ey];
    cbn [SFsub below_pow2]; intros Hx Hy Hlo Hhi; try contradiction.
  - destruct sx, sy; exact I.
  - lia.
  - lia.
  - exact (normalize_difference_below sx mx ex sy my ey a b false Hx Hy Hlo Hhi).
Qed.

Lemma add_below a b x y :
  below_pow2 a x -> below_pow2 b y ->
  -1074 <= Z.max a b + 1 -> Z.max a b + 1 <= 1023 ->
  below_pow2 (Z.max a b + 2) (x + y)%js.
Proof.
  unfold JS.add.
  destruct x as [sx | sx | | sx mx ex], y as [sy | sy | | sy my ey];
    cbn [SFadd below_pow2]; intros Hx Hy Hlo Hhi; try contradiction.
  - destruct sx, sy; exact I.
  - lia.
  - lia.
  - exact (normalize_difference_below sx mx ex sy my ey a b true Hx Hy Hlo Hhi).
Qed.

Lemma int_below z k :
  Z.abs z <= 2 ^ k -> 0 <= k -> k + 1 <= 1023 -> below_pow2 (k + 2) (JS.int z).
Proof.
  intros Hz Hk Hhi. unfold JS.int.
  assert (Hlog : forall p, Z.pos p = Z.abs z -> Z.pos (digits2_pos p) + 0 <= k + 1).
  { intros p Hp. rewrite digits_log2.
    assert (Hmono : Z.log2 (Z.pos p) <= Z.log2 (2 ^ k)) by (apply Z.log2_le_mono; lia).
    rewrite Z.log2_pow2 in Hmono by assumption. lia. }
  replace (k + 2) with ((k + 1) + 1) by lia.
  destruct z as [| p | p]; cbn [binary_normalize]; [exact I | |];
    apply binary_round_below; try lia; apply Hlog; reflexivity.
Qed.

(** The integer nearest to a number below [2^k] in magnitude is at most
    [2^k] in magnitude. *)
Lemma nearest_bound s m e k :
  e < 0 -> 0 <= k -> Z.pos (digits2_pos m) + e <= k ->
  Z.abs ((2 * JS.signed s m + 2 ^ (- e)) / 2 ^ (- e + 1)) <= 2 ^ k.
Proof.
  intros He Hk Hd. rewrite digits_log2 in Hd.
  pose proof (Z.log2_spec (Z.pos m) ltac:(lia)) as [_ Hm].
  assert (Hpow : 2 ^ Z.succ (Z.log2 (Z.pos m)) <= 2 ^ (k + - e))
    by (apply Z.pow_le_mono_r; lia).
  assert (Hsplit : 2 ^ (k + - e) = 2 ^ k * 2 ^ (- e)) by (apply Z.pow_add_r; lia).
  assert (Hstep : 2 ^ (- e + 1) = 2 ^ (- e) * 2) by (rewrite Z.pow_add_r; lia).
  assert (Hp1 : 0 < 2 ^ (- e)) by (apply Z.pow_pos_nonneg; lia).
  assert (Hp2 : 0 < 2 ^ k) by (apply Z.pow_pos_nonneg; lia).
  apply Z.abs_le. split.
  - apply Z.div_le_lower_bound; [lia|]. destruct s; cbn [JS.signed]; nia.
  - assert ((2 * JS.signed s m + 2 ^ (- e)) / 2 ^ (- e + 1) < 2 ^ k + 1); [| lia].
    apply Z.div_lt_upper_bound; [lia|]. destruct s; cbn [JS.signed]; nia.
Qed.

Lemma Math_round_below k x :
  below_pow2 k x -> 0 <= k -> k + 1 <= 1023 -> below_pow2 (k + 2) (JS.Math_round x).
Proof.
  destruct x as [s | s | | s m e]; cbn [JS.Math_round below_pow2]; auto.
  intros Hd Hk Hhi. destruct (Z.leb_spec 0 e) as [He | He].
  - cbn [below_pow2]. lia.
  - unfold JS.integral. destruct (_ =? 0); [exact I|].
    apply int_below; try assumption. now apply nearest_bound.
Qed.

Lemma Math_max_below k x y :
  is_number x -> is_number y -> below_pow2 k x -> below_pow2 k y ->
  below_pow2 k (JS.Math_max x y).
Proof.
  intros Nx Ny Hx Hy.
  destruct (Math_max_cases x y Nx Ny)
    as [[-> _] | [[-> _] | (_ & _ & [(sx & sy & _ & _ & ->) | ->])]]; auto.
  exact I.
Qed.

Lemma div_positive_number x y : is_number x -> positive_finite y -> is_number (x / y)%js.
Proof.
  unfold JS.div.
  destruct x as [sx | sx | | sx mx ex], y as [sy | [] | | [] my ey];
    cbn [SFdiv positive_finite]; intros Hx Hy; try contradiction; try discriminate;
    try reflexivity.
  pose proof (div_core_nonneg mx ex my ey) as Hq.
  destruct (SFdiv_core_binary _ _ _ _ _ _) as [[q e] l]. cbn [fst] in Hq.
  eapply signed_as_number, binary_round_aux_signed. exact Hq.
Qed.

Lemma below_pow2_number k x : below_pow2 k x -> is_number x.
Proof. destruct x; cbn; intros; (reflexivity || contradiction). Qed.

(* ================================================================== *)
(** * Score aggregation                                               *)
(* ================================================================== *)

(** [calculateScores] runs the reference algorithm on the value the
    industry resolves to, and throws when that value is no profile. *)
Lemma calculateScores_resolved results industry :
  calculateScores results industry =
  match industryConfigFor industry with
  | Profile profile => Return (Reference.computeScores profile results)
  | Inherited _ => Throw_TypeError
  end.
Proof.
  unfold calculateScores.
  destruct (industryConfigFor industry) as [profile | inherited]; cbn [weightMultipliers_of].
  - destruct results as [[p] [s] [m] [c] [ct] https].
    cbv [Reference.computeScores Reference.weightedTotal Reference.adjusted
         Reference.penalized Reference.clamp Reference.sum Reference.categories
         Reference.weight Reference.multiplier Reference.categoryScore
         Reference.penalty map fold_left].
    cbn [score res_performance res_seo res_mobile res_conversion res_content
         isHttps negb cs_performance cs_mobile cs_seo cs_conversion cs_content].
    destruct https; reflexivity.
  - reflexivity.
Qed.

(** C1. For every input, [calculateScores] computes what the reference
    algorithm of section 4.1 computes on the profile the industry resolves
    to: the transport penalty (performance -10, seo -15, floored at 0), the
    rounded industry weighting, the rounded weight-normalized total, the
    clamping.  For the default industry over secure transport and scores
    20/80/80/80/80 the total is 65 and each category equals its input. *)
Theorem C1_calculateScores_reference :
  (forall results industry,
      calculateScores results industry =
      match industryConfigFor industry with
      | Profile profile => Return (Reference.computeScores profile results)
      | Inherited _ => Throw_TypeError
      end)
  /\ calculateScores
       (results_of (JS.int 20) (JS.int 80) (JS.int 80) (JS.int 80) (JS.int 80) true)
       (Some "default")
     = Return {| total := JS.int 65; performance := JS.int 20; mobile := JS.int 80;
                 seo := JS.int 80; conversion := JS.int 80; content := JS.int 80 |}.
Proof.
  split.
  - exact calculateScores_resolved.
  - vm_compute. reflexivity.
Qed.

(* ================================================================== *)
(** * The range of the composite score                                *)
(* ================================================================== *)

Lemma assoc_In {A} k (l : list (string * A)) v : assoc k l = Some v -> In v (map snd l).
Proof.
  induction l as [| [k' v'] l IH]; cbn [assoc map snd In]; [discriminate|].
  destruct (String.eqb k k'); [intros [= ->]; now left | right; auto].
Qed.

Lemma default_registry : registry_profile default.
Proof. unfold registry_profile. cbn. tauto. Qed.

Lemma industryConfigFor_registry industry profile :
  industryConfigFor industry = Profile profile -> registry_profile profile.
Proof.
  unfold industryConfigFor. destruct industry as [key |].
  - destruct (is_empty key); [intros [= <-]; apply default_registry|].
    unfold INDUSTRY_CONFIGS. destruct (assoc key INDUSTRY_CONFIGS_own) as [c |] eqn:E.
    + intros [= <-]. exact (assoc_In _ _ _ E).
    + destruct (existsb _ _); [discriminate | intros [= <-]; apply default_registry].
  - intros [= <-]. apply default_registry.
Qed.

Lemma registry_multiplier_positive profile c :
  registry_profile profile -> positive_finite (Reference.multiplier profile c).
Proof.
  unfold registry_profile. cbn [INDUSTRY_CONFIGS_own map snd In].
  intros H. repeat (destruct H as [<- | H]; [destruct c; exact I |]). destruct H.
Qed.

Lemma weight_positive c : positive_finite (Reference.weight c).
Proof. destruct c; exact I. Qed.

Lemma weights_sum_positive :
  positive_finite (Reference.sum (map Reference.weight Reference.categories)).
Proof. exact I. Qed.

Lemma penalized_number results c :
  is_number (Reference.categoryScore results c) ->
  is_number (Reference.penalized results c).
Proof.
  intros H. unfold Reference.penalized. destruct (isHttps results); [assumption|].
  destruct (Reference.penalty c) as [p |] eqn:E; [| assumption].
  apply Math_max_number; [apply int_number|].
  apply sub_finite_number; [assumption|].
  destruct c; try discriminate; injection E as <-; exact I.
Qed.

Lemma penalized_nonneg results c :
  nonneg (Reference.categoryScore results c) ->
  nonneg (Reference.penalized results c).
Proof.
  intros H. unfold Reference.penalized. destruct (isHttps results); [assumption|].
  destruct (Reference.penalty c) as [p |] eqn:E; [| assumption].
  apply Math_max_zero_nonneg.
  apply sub_finite_number; [now apply nonneg_number|].
  destruct c; try discriminate; injection E as <-; exact I.
Qed.

Lemma adjusted_number profile results c :
  registry_profile profile ->
  is_number (Reference.categoryScore results c) ->
  is_number (Reference.adjusted profile results c).
Proof.
  intros Hp H. unfold Reference.adjusted.
  apply Math_round_number, mul_positive_number.
  - now apply penalized_number.
  - now apply registry_multiplier_positive.
Qed.

Lemma adjusted_nonneg profile results c :
  registry_profile profile ->
  nonneg (Reference.categoryScore results c) ->
  nonneg (Reference.adjusted profile results c).
Proof.
  intros Hp H. unfold Reference.adjusted.
  apply Math_round_nonneg, mul_positive_nonneg.
  - now apply penalized_nonneg.
  - now apply registry_multiplier_positive.
Qed.

Lemma fold_add_nonneg terms : forall acc,
  nonneg acc -> Forall nonneg terms -> nonneg (fold_left JS.add terms acc).
Proof.
  induction terms as [| t terms IH]; intros acc Hacc Hall; cbn [fold_left]; [assumption|].
  inversion Hall; subst. apply IH; [now apply add_nonneg | assumption].
Qed.

Lemma sum_nonneg terms : Forall nonneg terms -> nonneg (Reference.sum terms).
Proof.
  destruct terms as [| t terms]; intros H; cbn [Reference.sum]; [exact I|].
  inversion H; subst. now apply fold_add_nonneg.
Qed.

Lemma weightedTotal_nonneg profile results :
  registry_profile profile ->
  (forall c, nonneg (Reference.categoryScore results c)) ->
  nonneg (Reference.weightedTotal profile results).
Proof.
  intros Hp H. unfold Reference.weightedTotal.
  apply Math_round_nonneg, div_positive_nonneg; [| apply weights_sum_positive].
  apply sum_nonneg. apply Forall_forall. intros t Hin.
  apply in_map_iff in Hin. destruct Hin as (c & <- & _).
  apply mul_positive_nonneg; [now apply adjusted_nonneg | apply weight_positive].
Qed.

Lemma registry_multiplier_moderate profile c :
  registry_profile profile ->
  valid (Reference.multiplier profile c) /\ below_pow2 1 (Reference.multiplier profile c).
Proof.
  unfold registry_profile. cbn [INDUSTRY_CONFIGS_own map snd In].
  intros H.
  repeat (destruct H as [<- | H];
          [destruct c; split; vm_compute; (reflexivity || discriminate) |]).
  destruct H.
Qed.

Lemma weight_moderate c :
  valid (Reference.weight c) /\ below_pow2 0 (Reference.weight c).
Proof. destruct c; split; vm_compute; (reflexivity || discriminate). Qed.

Lemma penalized_moderate results c :
  moderate (Reference.categoryScore results c) ->
  valid (Reference.penalized results c)
  /\ below_pow2 1002 (Reference.penalized results c).
Proof.
  intros [Hv Hb]. unfold Reference.penalized.
  assert (Hkeep : valid (Reference.categoryScore results c)
                  /\ below_pow2 1002 (Reference.categoryScore results c))
    by (split; [assumption | eapply below_pow2_mono; [| eassumption]; lia]).
  destruct (isHttps results); [exact Hkeep |].
  destruct (Reference.penalty c) as [p |] eqn:E; [| exact Hkeep].
  assert (Hp : valid (JS.int p) /\ below_pow2 4 (JS.int p)).
  { destruct c; try discriminate; injection E as <-;
      split; vm_compute; (reflexivity || discriminate). }
  destruct Hp as [Vp Bp].
  pose proof (sub_below 1000 4 _ _ Hb Bp ltac:(lia) ltac:(lia)) as Hsub.
  change (Z.max 1000 4 + 2) with 1002 in Hsub.
  split.
  - apply Math_max_valid; [apply int_valid | now apply SFsub_valid].
  - apply Math_max_below; try assumption;
      [apply int_number | exact (below_pow2_number _ _ Hsub) | exact I].
Qed.

(** A weighted term of the total is finite when the category score is of
    moderate magnitude. *)
Lemma term_finite profile results c :
  registry_profile profile ->
  moderate (Reference.categoryScore results c) ->
  is_finite (Reference.adjusted profile results c * Reference.weight c)%js.
Proof.
  intros Hp Hs.
  destruct (penalized_moderate results c Hs) as [Vpen Bpen].
  destruct (registry_multiplier_moderate profile c Hp) as [Vm Bm].
  destruct (weight_moderate c) as [Vw Bw].
  pose proof (mul_below 1002 1 _ _ Vpen Vm Bpen Bm ltac:(lia) ltac:(lia)) as Hmul.
  pose proof (SFmul_valid _ _ Vpen Vm) as Vmul.
  pose proof (Math_round_below _ _ Hmul ltac:(lia) ltac:(lia)) as Hadj.
  pose proof (Math_round_valid _ Vmul) as Vadj.
  fold (JS.mul (Reference.penalized results c) (Reference.multiplier profile c)) in Vadj.
  fold (Reference.adjusted profile results c) in Hadj, Vadj.
  eapply below_pow2_finite.
  exact (mul_below _ 0 _ _ Vadj Vw Hadj Bw ltac:(lia) ltac:(lia)).
Qed.

Lemma fold_add_number terms : forall acc,
  is_number acc -> Forall is_finite terms -> is_number (fold_left JS.add terms acc).
Proof.
  induction terms as [| t terms IH]; intros acc Hacc Hall; cbn [fold_left]; [assumption|].
  inversion Hall; subst. apply IH; [now apply add_finite_number | assumption].
Qed.

Lemma is_finite_number x : is_finite x -> is_number x.
Proof. destruct x; cbn; intros; (reflexivity || contradiction). Qed.

Lemma sum_number terms : Forall is_finite terms -> is_number (Reference.sum terms).
Proof.
  destruct terms as [| t terms]; intros H; cbn [Reference.sum]; [apply int_number|].
  inversion H; subst. apply fold_add_number; [now apply is_finite_number | assumption].
Qed.

Lemma weightedTotal_number profile results :
  registry_profile profile ->
  (forall c, moderate (Reference.categoryScore results c)) ->
  is_number (Reference.weightedTotal profile results).
Proof.
  intros Hp H. unfold Reference.weightedTotal.
  apply Math_round_number, div_positive_number; [| apply weights_sum_positive].
  apply sum_number. apply Forall_forall. intros t Hin.
  apply in_map_iff in Hin. destruct Hin as (c & <- & _).
  now apply term_finite.
Qed.


(** C2 does not hold as stated.  For the clinic profile, a performance
    score of [Number.MAX_VALUE] and a mobile score of [-Number.MAX_VALUE],
    both finite, overflow to opposite infinities under the multiplier 1.1;
    their weighted sum is NaN, which the clamp returns unchanged: the
    total is NaN, not a number of [0,100]. *)
Lemma C2_total_not_a_number :
  exists s,
    calculateScores
      (results_of MAX_VALUE (SFopp MAX_VALUE) (JS.int 0) (JS.int 0) (JS.int 0) true)
      (Some "clinic") = Return s
    /\ total s = JS.NaN
    /\ ~ in_range (total s).
Proof.
  eexists. split; [vm_compute; reflexivity |]. cbn [total].
  split; [reflexivity |]. intros [H _]. discriminate H.
Qed.

(** A score that is NaN yields NaN in its own field and in the total. *)
Lemma NaN_score_propagates :
  calculateScores
    (results_of JS.NaN (JS.int 80) (JS.int 80) (JS.int 80) (JS.int 80) true)
    (Some "default")
  = Return {| total := JS.NaN; performance := JS.NaN; mobile := JS.int 80;
              seo := JS.int 80; conversion := JS.int 80; content := JS.int 80 |}.
Proof. vm_compute. reflexivity. Qed.

(** C2, amended.  Whenever [calculateScores] returns, every field of the
    result is within [0,100] or is NaN; a category field is within [0,100]
    as soon as its category score is not NaN, whatever its magnitude; and
    the total is within [0,100] when the five category scores are finite
    and below [2^1000] in magnitude, whatever their signs, and also when
    none of them is NaN or below zero, infinite ones included. *)
Theorem C2_fields_in_range :
  forall results industry s,
    calculateScores results industry = Return s ->
    Forall (fun field => in_range field \/ field = JS.NaN)
           [total s; performance s; mobile s; seo s; conversion s; content s]
    /\ (is_number (score (res_performance results)) -> in_range (performance s))
    /\ (is_number (score (res_mobile results)) -> in_range (mobile s))
    /\ (is_number (score (res_seo results)) -> in_range (seo s))
    /\ (is_number (score (res_conversion results)) -> in_range (conversion s))
    /\ (is_number (score (res_content results)) -> in_range (content s))
    /\ (moderate (score (res_performance results)) ->
        moderate (score (res_mobile results)) ->
        moderate (score (res_seo results)) ->
        moderate (score (res_conversion results)) ->
        moderate (score (res_content results)) ->
        in_range (total s))
    /\ ((JS.int 0 <= score (res_performance results))%js = true ->
        (JS.int 0 <= score (res_mobile results))%js = true ->
        (JS.int 0 <= score (res_seo results))%js = true ->
        (JS.int 0 <= score (res_conversion results))%js = true ->
        (JS.int 0 <= score (res_content results))%js = true ->
        in_range (total s)).
Proof.
  intros results industry s H. rewrite calculateScores_resolved in H.
  destruct (industryConfigFor industry) as [profile | inherited] eqn:E; [| discriminate].
  apply industryConfigFor_registry in E. injection H as <-.
  cbn [Reference.computeScores total performance mobile seo conversion content].
  split; [| split; [| split; [| split; [| split; [| split; [| split]]]]]].
  - repeat (apply Forall_cons; [apply clamp_in_range_or_nan |]). apply Forall_nil.
  - intros Hs. now apply clamp_in_range, (adjusted_number _ _ Reference.Performance).
  - intros Hs. now apply clamp_in_range, (adjusted_number _ _ Reference.Mobile).
  - intros Hs. now apply clamp_in_range, (adjusted_number _ _ Reference.SEO).
  - intros Hs. now apply clamp_in_range, (adjusted_number _ _ Reference.Conversion).
  - intros Hs. now apply clamp_in_range, (adjusted_number _ _ Reference.Content).
  - intros Hp Hm Hs Hc Hct. apply clamp_in_range.
    apply weightedTotal_number; [assumption|]. intros []; assumption.
  - intros Hp Hm Hs Hc Hct. apply clamp_in_range, nonneg_number.
    apply weightedTotal_nonneg; [assumption|].
    intros []; apply nonneg_le; assumption.
Qed.

(** The amended statement at scores 500, -80, 80, 80 and 80 over plain
    HTTP for the restaurant profile: the weighted scores 490, -96 and 104
    are clamped to 100, 0 and 100, and so is their average to 100. *)
Lemma C2_fields_in_range_witness :
  let results := results_of (JS.int 500) (JS.int (-80)) (JS.int 80) (JS.int 80)
                            (JS.int 80) false in
  calculateScores results (Some "restaurant")
  = Return {| total := JS.int 100; performance := JS.int 100; mobile := JS.int 0;
              seo := JS.int 59; conversion := JS.int 100; content := JS.int 64 |}
  /\ in_range (JS.int 100).
Proof.
  cbv zeta.
  assert (E : calculateScores
                (results_of (JS.int 500) (JS.int (-80)) (JS.int 80) (JS.int 80)
                            (JS.int 80) false) (Some "restaurant")
              = Return {| total := JS.int 100; performance := JS.int 100;
                          mobile := JS.int 0; seo := JS.int 59;
                          conversion := JS.int 100; content := JS.int 64 |})
    by (vm_compute; reflexivity).
  split; [exact E |].
  destruct (C2_fields_in_range _ _ _ E) as (_ & _ & _ & _ & _ & _ & Htotal & _).
  apply Htotal; split; vm_compute; (reflexivity || discriminate).
Defined.

(* ================================================================== *)
(** * Priority classifier and plan recommender                        *)
(* ================================================================== *)

(** C6. [determinePriority] returns High exactly when the score is at most
    40 or the loss at least 100000; failing that, Medium exactly when the
    score is at most 60 or the loss at least 50000; failing both, Low.  So
    [determinePriority(100, 100000)] is High and [determinePriority(41, 0)]
    is Medium. *)
Theorem C6_determinePriority_first_match :
  (forall totalScore estimatedMonthlyLoss,
      let high := (totalScore <= JS.int 40)%js = true
                  \/ (estimatedMonthlyLoss >= JS.int 100000)%js = true in
      let medium := (totalScore <= JS.int 60)%js = true
                    \/ (estimatedMonthlyLoss >= JS.int 50000)%js = true in
      (determinePriority totalScore estimatedMonthlyLoss = High <-> high)
      /\ (determinePriority totalScore estimatedMonthlyLoss = Medium
          <-> ~ high /\ medium)
      /\ (determinePriority totalScore estimatedMonthlyLoss = Low
          <-> ~ high /\ ~ medium))
  /\ determinePriority (JS.int 100) (JS.int 100000) = High
  /\ determinePriority (JS.int 41) (JS.int 0) = Medium.
Proof.
  split; [| split; vm_compute; reflexivity].
  intros ts loss. cbv zeta. unfold determinePriority.
  change (scoreMax (PRIORITY_THRESHOLDS High)) with (JS.int 40).
  change (monthlyLossMin (PRIORITY_THRESHOLDS High)) with (JS.int 100000).
  change (scoreMax (PRIORITY_THRESHOLDS Medium)) with (JS.int 60).
  change (monthlyLossMin (PRIORITY_THRESHOLDS Medium)) with (JS.int 50000).
  destruct (ts <= JS.int 40)%js, (loss >= JS.int 100000)%js,
           (ts <= JS.int 60)%js, (loss >= JS.int 50000)%js; cbn [orb];
    repeat split; intros; try discriminate; try reflexivity; intuition congruence.
Qed.

(** C7. [recommendPlan] returns Premium below 40, Standard from 40 up to
    but excluding 70, Simple from 70 on; 39, 40, 69 and 70 fall as stated. *)
Theorem C7_recommendPlan_tiers :
  (forall totalScore,
      ((totalScore < JS.int 40)%js = true -> recommendPlan totalScore = Premium)
      /\ ((JS.int 40 <= totalScore)%js = true /\ (totalScore < JS.int 70)%js = true
          -> recommendPlan totalScore = Standard)
      /\ ((totalScore >= JS.int 70)%js = true -> recommendPlan totalScore = Simple))
  /\ recommendPlan (JS.int 39) = Premium
  /\ recommendPlan (JS.int 40) = Standard
  /\ recommendPlan (JS.int 69) = Standard
  /\ recommendPlan (JS.int 70) = Simple.
Proof.
  split; [| repeat split; vm_compute; reflexivity].
  intros ts. unfold recommendPlan. repeat split.
  - intros ->. reflexivity.
  - intros [H1 H2]. rewrite (le_not_lt _ _ H1), H2. reflexivity.
  - intros H. unfold JS.ge in H. change (SFleb (JS.int 70) ts) with (JS.le (JS.int 70) ts) in H.
    assert (H40 : JS.lt (JS.int 40) (JS.int 70) = true) by (vm_compute; reflexivity).
    rewrite (le_not_lt _ _ (lt_le _ _ (lt_le_trans _ _ _ H40 H))).
    rewrite (le_not_lt _ _ H). reflexivity.
Qed.

(** C8 does not hold as stated: a monthly revenue supplied as 0 is not
    used as the revenue base.  With score 40, the Standard plan and the
    default industry the monthly return is 2500000 * (35 * 0.005), not
    the 0 that a revenue base of 0 gives. *)
Lemma C8_supplied_zero_is_not_the_base :
  estimatedMonthlyReturn
    (estimateROI (JS.int 40) Standard (Some "default") (Some (JS.int 0)))
  <> Reference.monthlyReturn
       (Reference.revenueBase_stated (Some (JS.int 0)) (averageMonthlyRevenue default))
       (JS.int 40) Standard
  /\ Reference.monthlyReturn
       (Reference.revenueBase_stated (Some (JS.int 0)) (averageMonthlyRevenue default))
       (JS.int 40) Standard = JS.int 0.
Proof. split; vm_compute; [discriminate | reflexivity]. Qed.

(** C8, amended.  The revenue base is the supplied monthly revenue unless
    that is absent, zero or NaN, and then the resolved industry's average.
    The monthly return is base * (max(0, target - score) * 0.005) with
    targets 60, 75 and 90; the payback period and the three-year return
    follow the stated formulas, guarded by a positive price. *)
Theorem C8_estimateROI_formulas :
  forall currentScore plan industry currentMonthlyRevenue,
    let average := ToNumber (averageMonthlyRevenue_of (industryConfigFor industry)) in
    let base := Reference.revenueBase_truthy currentMonthlyRevenue average in
    let invest := monthlyPrice (PAGEYOU_PLANS plan) in
    let ret := Reference.monthlyReturn base currentScore plan in
    estimateROI currentScore plan industry currentMonthlyRevenue =
    {| monthlyInvestment := invest;
       estimatedMonthlyReturn := ret;
       paybackPeriodMonths := Reference.payback invest ret;
       threeYearROI := Reference.roi3y invest ret |}.
Proof.
  intros cs plan industry rev. cbv zeta.
  unfold estimateROI, Reference.monthlyReturn, Reference.payback, Reference.roi3y,
    calculateImprovementPotential.
  replace (ToNumber (or_else rev (averageMonthlyRevenue_of (industryConfigFor industry))))
    with (Reference.revenueBase_truthy rev
            (ToNumber (averageMonthlyRevenue_of (industryConfigFor industry)))).
  - destruct plan; reflexivity.
  - unfold Reference.revenueBase_truthy, or_else.
    destruct rev as [r|]; [destruct (JS.truthy r)|]; reflexivity.
Qed.

(** C10. A monthly revenue supplied as 0 behaves exactly as an absent one:
    the industry average is the revenue base, so the monthly return is
    computed from that baseline and is not 0. *)
Theorem C10_zero_revenue_is_absent :
  (forall currentScore plan industry,
      estimateROI currentScore plan industry (Some (JS.int 0))
      = estimateROI currentScore plan industry None)
  /\ estimatedMonthlyReturn
       (estimateROI (JS.int 40) Standard (Some "default") (Some (JS.int 0)))
     = (averageMonthlyRevenue default * (JS.int 35 * JS.dec 5 1000))%js
  /\ estimatedMonthlyReturn
       (estimateROI (JS.int 40) Standard (Some "default") (Some (JS.int 0)))
     <> JS.int 0.
Proof.
  split; [| split].
  - intros. reflexivity.
  - vm_compute. reflexivity.
  - vm_compute. discriminate.
Qed.

(* ================================================================== *)
(** * Industry resolution                                             *)
(* ================================================================== *)

Lemma industryConfigFor_absent : industryConfigFor None = Profile default.
Proof. reflexivity. Qed.

Lemma industryConfigFor_default : industryConfigFor (Some "default") = Profile default.
Proof. reflexivity. Qed.

(** A key that names no property at all resolves to the default profile. *)
Lemma industryConfigFor_undefined key :
  INDUSTRY_CONFIGS key = None -> industryConfigFor (Some key) = Profile default.
Proof.
  intros H. unfold industryConfigFor. rewrite H. now destruct (is_empty key).
Qed.

(** A key that is not an own property of the registry but names a member
    of [Object.prototype] resolves to that member. *)
Lemma industryConfigFor_inherited key :
  In key Object_prototype_names -> industryConfigFor (Some key) = Inherited key.
Proof.
  cbn [Object_prototype_names In]. intros H.
  repeat (destruct H as [<- | H]; [reflexivity|]). destruct H.
Qed.

(** C9 holds for an absent industry id and for every id under which the
    registry object has no property at all; it fails for the id
    "constructor", which is not a key of the registry either:
    [calculateScores] throws instead of scoring with the default profile,
    and [calculate] rescales every revenue lift to NaN where the default
    profile leaves 40000. *)
Theorem C9_inherited_key_diverges :
  (forall results key,
      INDUSTRY_CONFIGS key = None ->
      calculateScores results (Some key) = calculateScores results (Some "default"))
  /\ (forall results,
         calculateScores results None = calculateScores results (Some "default"))
  /\ (forall toLowerCase data key,
         INDUSTRY_CONFIGS key = None ->
         calculate toLowerCase data (Some key)
         = calculate toLowerCase data (Some "default"))
  /\ (forall toLowerCase data,
         calculate toLowerCase data None = calculate toLowerCase data (Some "default"))
  /\ assoc "constructor" INDUSTRY_CONFIGS_own = None
  /\ (forall results, calculateScores results (Some "constructor") = Throw_TypeError)
  /\ (forall results, calculateScores results (Some "default")
                      = Return (Reference.computeScores default results))
  /\ map estimatedRevenueLift
       (calculate ascii_toLowerCase
          {| scores := scores_of 65 20 80 80 80 80;
             performanceResult := [opportunity "CDN" 8 40000];
             seoResult := []; mobileResult := [];
             conversionResult := []; contentResult := [] |}
          (Some "constructor")) = [JS.NaN]
  /\ map estimatedRevenueLift
       (calculate ascii_toLowerCase
          {| scores := scores_of 65 20 80 80 80 80;
             performanceResult := [opportunity "CDN" 8 40000];
             seoResult := []; mobileResult := [];
             conversionResult := []; contentResult := [] |}
          (Some "default")) = [JS.int 40000].
Proof.
  split; [| split; [| split; [| split]]].
  - intros results key H. unfold calculateScores.
    now rewrite (industryConfigFor_undefined key H), industryConfigFor_default.
  - reflexivity.
  - intros toLowerCase data key H. unfold calculate.
    now rewrite (industryConfigFor_undefined key H), industryConfigFor_default.
  - reflexivity.
  - split; [reflexivity|]. split; [reflexivity|]. split.
    + intros results. exact (calculateScores_resolved results (Some "default")).
    + split; vm_compute; reflexivity.
Qed.

(* ================================================================== *)
(** * Synthetic opportunities                                         *)
(* ================================================================== *)

(** The four rules of [generateSyntheticOpportunities] are independent:
    the result lists, in order, the opportunity of every rule that holds. *)
Lemma generateSyntheticOpportunities_rules data industryConfig :
  generateSyntheticOpportunities data industryConfig =
  (if (total (scores data) < JS.int 30)%js
   then [fullRenewal industryConfig] else [])
  ++ (if (performance (scores data) < JS.int 50)%js
         && (mobile (scores data) < JS.int 50)%js
      then [mobileFirst industryConfig] else [])
  ++ (if (seo (scores data) < JS.int 50)%js
         && (content (scores data) < JS.int 50)%js
      then [contentMarketing industryConfig] else [])
  ++ (if (conversion (scores data) < JS.int 40)%js
      then [conversionProgram industryConfig] else []).
Proof.
  unfold generateSyntheticOpportunities, push_if.
  destruct (total (scores data) < JS.int 30)%js,
           ((performance (scores data) < JS.int 50)%js
            && (mobile (scores data) < JS.int 50)%js),
           ((seo (scores data) < JS.int 50)%js
            && (content (scores data) < JS.int 50)%js),
           (conversion (scores data) < JS.int 40)%js; reflexivity.
Qed.

(** C5. Whenever the composite total is below 30 the full-site-renewal
    opportunity is generated: improvement 60, effort High, base priority 10
    and a revenue lift of one tenth of the industry's average monthly
    revenue, exactly, for every profile of the registry (250000 for the
    default one).  The four rules are evaluated independently, and all four
    fire together on a composite whose scores are all 20. *)
Theorem C5_full_renewal_generated :
  (forall data industryConfig,
      (total (scores data) < JS.int 30)%js = true ->
      In (fullRenewal industryConfig)
         (generateSyntheticOpportunities data industryConfig))
  /\ (forall industryConfig,
         estimatedImprovement (fullRenewal industryConfig) = JS.int 60
         /\ effort (fullRenewal industryConfig) = Effort.High
         /\ priority (fullRenewal industryConfig) = JS.int 10
         /\ estimatedRevenueLift (fullRenewal industryConfig)
            = (ToNumber (averageMonthlyRevenue_of industryConfig) * JS.dec 1 10)%js)
  /\ map (fun kv => estimatedRevenueLift (fullRenewal (Profile (snd kv))))
         INDUSTRY_CONFIGS_own
     = map JS.int [300000; 200000; 500000; 400000; 350000; 250000]
  /\ map (fun kv => averageMonthlyRevenue (snd kv)) INDUSTRY_CONFIGS_own
     = map JS.int [3000000; 2000000; 5000000; 4000000; 3500000; 2500000]
  /\ (forall data industryConfig,
         generateSyntheticOpportunities data industryConfig =
         (if (total (scores data) < JS.int 30)%js
          then [fullRenewal industryConfig] else [])
         ++ (if (performance (scores data) < JS.int 50)%js
                && (mobile (scores data) < JS.int 50)%js
             then [mobileFirst industryConfig] else [])
         ++ (if (seo (scores data) < JS.int 50)%js
                && (content (scores data) < JS.int 50)%js
             then [contentMarketing industryConfig] else [])
         ++ (if (conversion (scores data) < JS.int 40)%js
             then [conversionProgram industryConfig] else []))
  /\ generateSyntheticOpportunities
       {| scores := scores_of 20 20 20 20 20 20;
          performanceResult := []; seoResult := []; mobileResult := [];
          conversionResult := []; contentResult := [] |}
       (Profile default)
     = [fullRenewal (Profile default); mobileFirst (Profile default);
        contentMarketing (Profile default); conversionProgram (Profile default)].
Proof.
  split; [| split; [| split; [| split; [| split]]]].
  - intros data cfg H. rewrite generateSyntheticOpportunities_rules, H.
    left. reflexivity.
  - intros cfg. repeat split.
  - vm_compute. reflexivity.
  - vm_compute. reflexivity.
  - exact generateSyntheticOpportunities_rules.
  - vm_compute. reflexivity.
Qed.

(** The same statement at a composite total of 25 for the default industry. *)
Lemma C5_full_renewal_generated_witness :
  (total (scores {| scores := scores_of 25 60 60 60 60 60;
                    performanceResult := []; seoResult := []; mobileResult := [];
                    conversionResult := []; contentResult := [] |})
   < JS.int 30)%js = true
  /\ In (fullRenewal (Profile default))
        (generateSyntheticOpportunities
           {| scores := scores_of 25 60 60 60 60 60;
              performanceResult := []; seoResult := []; mobileResult := [];
              conversionResult := []; contentResult := [] |}
           (Profile default)).
Proof.
  split; [vm_compute; reflexivity |].
  apply (proj1 C5_full_renewal_generated). vm_compute. reflexivity.
Defined.

(* ================================================================== *)
(** * Deduplication                                                   *)
(* ================================================================== *)

Section MapFacts.

Context {V : Type}.
Implicit Types (m : JSMap V) (k : string) (v : V).

Lemma Map_get_None m k : Map_get m k = None <-> ~ In k (map fst m).
Proof.
  induction m as [| [k0 v0] m IH]; cbn [Map_get map fst In].
  - tauto.
  - destruct (String.eqb_spec k0 k) as [-> | Hne].
    + split; [discriminate | intros H; exfalso; apply H; now left].
    + rewrite IH. tauto.
Qed.

Lemma Map_get_In m k v : Map_get m k = Some v -> In (k, v) m.
Proof.
  induction m as [| [k0 v0] m IH]; cbn [Map_get In]; [discriminate|].
  destruct (String.eqb_spec k0 k) as [-> | Hne].
  - intros [= ->]. now left.
  - intros H. right. auto.
Qed.

Lemma Map_set_keys m k v :
  map fst (Map_set m k v) =
  match Map_get m k with
  | Some _ => map fst m
  | None => map fst m ++ [k]
  end.
Proof.
  induction m as [| [k0 v0] m IH]; cbn [Map_set Map_get map fst app]; [reflexivity|].
  destruct (String.eqb_spec k0 k) as [-> | Hne]; cbn [map fst].
  - reflexivity.
  - rewrite IH. now destruct (Map_get m k).
Qed.

Lemma Map_set_NoDup m k v : NoDup (map fst m) -> NoDup (map fst (Map_set m k v)).
Proof.
  intros H. rewrite Map_set_keys. destruct (Map_get m k) eqn:E; [assumption|].
  apply Map_get_None in E.
  apply NoDup_rev in H. rewrite <- (rev_involutive (map fst m ++ [k])).
  apply NoDup_rev. rewrite rev_app_distr. cbn [rev app].
  constructor; [| assumption]. now rewrite <- in_rev.
Qed.

Lemma Map_set_In_same m k v : In (k, v) (Map_set m k v).
Proof.
  induction m as [| [k0 v0] m IH]; cbn [Map_set In]; [now left|].
  destruct (String.eqb_spec k0 k) as [-> | Hne]; [now left | now right].
Qed.

Lemma Map_set_In_inv m k v k' v' :
  NoDup (map fst m) ->
  In (k', v') (Map_set m k v) ->
  (k' = k /\ v' = v) \/ (k' <> k /\ In (k', v') m).
Proof.
  induction m as [| [k0 v0] m IH]; cbn [Map_set In map fst]; intros ND H.
  - destruct H as [[= <- <-] | []]. now left.
  - inversion ND as [| ? ? Hnotin ND']; subst.
    destruct (String.eqb_spec k0 k) as [-> | Hne].
    + destruct H as [[= <- <-] | H]; [now left|].
      right. split; [| now right].
      intros ->. apply Hnotin. apply (in_map fst) in H. exact H.
    + destruct H as [[= <- <-] | H].
      * right. split; [assumption | now left].
      * destruct (IH ND' H) as [? | [? ?]]; [now left | right; split; auto].
Qed.

End MapFacts.

Lemma NoDup_keys_unique {V} (m : JSMap V) k v1 v2 :
  NoDup (map fst m) -> In (k, v1) m -> In (k, v2) m -> v1 = v2.
Proof.
  induction m as [| [k0 v0] m IH]; cbn [map fst In]; [contradiction|].
  intros ND H1 H2. inversion ND as [| ? ? Hnotin ND']; subst.
  destruct H1 as [E1 | H1], H2 as [E2 | H2].
  - congruence.
  - exfalso. apply Hnotin. injection E1 as -> _. exact (in_map fst _ _ H2).
  - exfalso. apply Hnotin. injection E2 as -> _. exact (in_map fst _ _ H1).
  - auto.
Qed.

Section Dedup.

Variable toLowerCase : string -> string.

Lemma first_best_later l s o :
  first_best toLowerCase l s ->
  (keyOf toLowerCase o = keyOf toLowerCase s ->
   (priority o > priority s)%js = false) ->
  first_best toLowerCase (l ++ [o]) s.
Proof.
  intros (l1 & l2 & -> & Hbefore & Hafter) Ho.
  exists l1, (l2 ++ [o]). split; [| split].
  - now rewrite <- app_assoc.
  - exact Hbefore.
  - intros o' Hin Hk. apply in_app_or in Hin. destruct Hin as [Hin | [<- | []]]; auto.
Qed.

Lemma first_best_new l o :
  (forall o', In o' l -> keyOf toLowerCase o' = keyOf toLowerCase o ->
              (priority o' < priority o)%js = true) ->
  first_best toLowerCase (l ++ [o]) o.
Proof.
  intros H. exists l, []. split; [reflexivity | split; [exact H |]].
  intros o' [].
Qed.

(** Every visited opportunity of the key of the current holder [s] has a
    priority below that of a newcomer that beats [s]. *)
Lemma first_best_beaten l s o :
  (forall o', In o' l -> is_number (priority o')) ->
  first_best toLowerCase l s ->
  (priority o > priority s)%js = true ->
  forall o', In o' l -> keyOf toLowerCase o' = keyOf toLowerCase s ->
             (priority o' < priority o)%js = true.
Proof.
  intros Hnum (l1 & l2 & -> & Hbefore & Hafter) Hgt o' Hin Hk.
  unfold JS.gt in Hgt. change (SFltb (priority s) (priority o))
    with (JS.lt (priority s) (priority o)) in Hgt.
  apply in_app_or in Hin. destruct Hin as [Hin | [<- | Hin]].
  - eapply lt_trans; [apply Hbefore; assumption | exact Hgt].
  - exact Hgt.
  - specialize (Hafter _ Hin Hk). unfold JS.gt in Hafter.
    change (SFltb (priority s) (priority o')) with (JS.lt (priority s) (priority o')) in Hafter.
    assert (Hs : is_number (priority s)) by (apply Hnum, in_or_app; right; now left).
    assert (Ho' : is_number (priority o')) by (apply Hnum, in_or_app; right; now right).
    pose proof (not_lt_le _ _ Hs Ho' Hafter) as Hle.
    apply le_spec in Hle. apply lt_spec in Hgt. apply lt_spec.
    destruct Hle as (_ & _ & Hle), Hgt as (_ & Hno & Hgt).
    repeat split; auto.
    destruct Hle as [Hle | Heq]; [eapply lexlt_trans; eauto | now rewrite Heq].
Qed.

Lemma dedup_inv_nil : dedup_inv toLowerCase [] [].
Proof.
  split; [constructor | split]; intros; contradiction.
Qed.

Lemma dedup_inv_step l seen o :
  (forall o', In o' l -> is_number (priority o')) ->
  dedup_inv toLowerCase l seen ->
  dedup_inv toLowerCase (l ++ [o]) (dedup_step toLowerCase seen o).
Proof.
  intros Hnum (ND & Hentries & Hkeys).
  (* entries of other keys are untouched and stay first-best *)
  assert (Hother : forall k s, k <> keyOf toLowerCase o -> In (k, s) seen ->
                               k = keyOf toLowerCase s
                               /\ first_best toLowerCase (l ++ [o]) s).
  { intros k s Hne Hin. destruct (Hentries _ _ Hin) as [-> Hfb].
    split; [reflexivity|]. apply first_best_later; [assumption|].
    intros E. congruence. }
  (* what holds once [o] is stored under its key *)
  assert (Hstore :
            (forall o', In o' l -> keyOf toLowerCase o' = keyOf toLowerCase o ->
                        (priority o' < priority o)%js = true) ->
            dedup_inv toLowerCase (l ++ [o])
                      (Map_set seen (keyOf toLowerCase o) o)).
  { intros Hbeats. split; [| split].
    - now apply Map_set_NoDup.
    - intros k s Hin. apply Map_set_In_inv in Hin; [| assumption].
      destruct Hin as [[-> ->] | [Hne Hin]]; [| now apply Hother].
      split; [reflexivity | now apply first_best_new].
    - intros o' Hin. rewrite Map_set_keys.
      apply in_app_or in Hin. destruct Hin as [Hin | [<- | []]].
      + specialize (Hkeys _ Hin).
        destruct (Map_get seen (keyOf toLowerCase o)); [| apply in_or_app]; auto.
      + destruct (Map_get seen (keyOf toLowerCase o)) eqn:E.
        * apply Map_get_In in E. exact (in_map fst _ _ E).
        * apply in_or_app. right. now left. }
  unfold dedup_step. fold (keyOf toLowerCase o).
  destruct (Map_get seen (keyOf toLowerCase o)) as [existing |] eqn:E.
  - pose proof (Map_get_In _ _ _ E) as Hin.
    destruct (Hentries _ _ Hin) as [Hk Hfb].
    destruct (priority o > priority existing)%js eqn:Hgt.
    + apply Hstore. intros o' Ho' Hko'. rewrite Hk in Hko'.
      eapply first_best_beaten; eauto.
    + split; [assumption | split].
      * intros k s Hks.
        destruct (string_dec k (keyOf toLowerCase o)) as [-> | Hne]; [| now apply Hother].
        rewrite (NoDup_keys_unique _ _ _ _ ND Hks Hin).
        split; [assumption|]. apply first_best_later; auto.
      * intros o' Ho'. apply in_app_or in Ho'. destruct Ho' as [Ho' | [<- | []]]; auto.
        exact (in_map fst _ _ Hin).
  - apply Hstore. intros o' Ho' Hko'. exfalso.
    apply Map_get_None in E. apply E. rewrite <- Hko'. auto.
Qed.

Lemma dedup_inv_fold rest : forall visited seen,
  (forall o, In o (visited ++ rest) -> is_number (priority o)) ->
  dedup_inv toLowerCase visited seen ->
  dedup_inv toLowerCase (visited ++ rest)
            (fold_left (dedup_step toLowerCase) rest seen).
Proof.
  induction rest as [| o rest IH]; intros visited seen Hnum Hinv; cbn [fold_left].
  - now rewrite app_nil_r.
  - replace (visited ++ o :: rest) with ((visited ++ [o]) ++ rest) in *
      by (now rewrite <- app_assoc).
    apply IH; [assumption |].
    apply dedup_inv_step; [| assumption].
    intros o' Hin. apply Hnum. apply in_or_app. left. apply in_or_app. now left.
Qed.

(** Of two opportunities under one key the second survives when its
    priority is strictly higher, and the first otherwise. *)
Lemma deduplicate_pair a b :
  keyOf toLowerCase a = keyOf toLowerCase b ->
  deduplicateOpportunities toLowerCase [a; b]
  = [if (priority b > priority a)%js then b else a].
Proof.
  unfold keyOf. intros Hk.
  unfold deduplicateOpportunities, Map_values. cbn [fold_left].
  unfold dedup_step at 2. cbn [Map_get Map_set].
  unfold dedup_step. rewrite <- Hk. cbn [Map_get]. rewrite String.eqb_refl.
  destruct (priority b > priority a)%js; cbn [Map_set map snd];
    rewrite ?String.eqb_refl; reflexivity.
Qed.

(** C3. Deduplication is by the lower-cased title.  For opportunities whose
    priorities are numbers, the result holds exactly one entry for every key
    that occurs in the merged list, and that entry is, among the
    opportunities of its key, the first in merge order of those with the
    highest priority: a later one replaces it only with a strictly higher
    priority.  Of two opportunities under one key with priorities 6 and 9,
    in either order, exactly the one of priority 9 remains. *)
Theorem C3_deduplicate_first_best :
  (forall opportunities,
      (forall o, In o opportunities -> is_number (priority o)) ->
      let unique := deduplicateOpportunities toLowerCase opportunities in
      NoDup (map (keyOf toLowerCase) unique)
      /\ (forall o, In o opportunities ->
                    exists s, In s unique /\ keyOf toLowerCase s = keyOf toLowerCase o)
      /\ (forall s, In s unique -> first_best toLowerCase opportunities s))
  /\ (forall a b,
         keyOf toLowerCase a = keyOf toLowerCase b ->
         deduplicateOpportunities toLowerCase [a; b]
         = [if (priority b > priority a)%js then b else a])
  /\ (forall a b,
         keyOf toLowerCase a = keyOf toLowerCase b ->
         priority a = JS.int 6 -> priority b = JS.int 9 ->
         deduplicateOpportunities toLowerCase [a; b] = [b]
         /\ deduplicateOpportunities toLowerCase [b; a] = [b]).
Proof.
  split; [| split].
  - intros l Hnum. cbv zeta. unfold deduplicateOpportunities, Map_values.
    pose proof (dedup_inv_fold l [] [] Hnum dedup_inv_nil) as Hinv.
    cbn [app] in Hinv.
    set (seen := fold_left (dedup_step toLowerCase) l []) in *.
    destruct Hinv as (ND & Hentries & Hkeys).
    assert (Hmap : map (keyOf toLowerCase) (map snd seen) = map fst seen).
    { rewrite map_map. apply map_ext_in. intros [k s] Hin.
      cbn [fst snd]. symmetry. apply (Hentries _ _ Hin). }
    split; [| split].
    + now rewrite Hmap.
    + intros o Hin. specialize (Hkeys _ Hin). apply in_map_iff in Hkeys.
      destruct Hkeys as ([k s] & Hk & Hks). cbn [fst] in Hk. subst k.
      exists s. split; [exact (in_map snd _ _ Hks) |].
      symmetry. apply (Hentries _ _ Hks).
    + intros s Hin. apply in_map_iff in Hin. destruct Hin as ([k s'] & <- & Hks).
      apply (Hentries _ _ Hks).
  - exact deduplicate_pair.
  - intros a b Hk Ha Hb.
    rewrite (deduplicate_pair a b Hk), (deduplicate_pair b a (eq_sym Hk)), Ha, Hb.
    split; reflexivity.
Qed.

End Dedup.

(** Two opportunities whose titles differ only in case, with priorities 6
    and 9: whichever comes first, one entry survives, the one of priority
    9; with equal priorities, the first one survives. *)
Lemma C3_deduplicate_first_best_witness :
  let a := opportunity "Improve SEO" 6 100 in
  let b := opportunity "improve seo" 9 200 in
  let c := opportunity "IMPROVE SEO" 9 300 in
  (forall o, In o [a; b; c] -> is_number (priority o))
  /\ (NoDup (map (keyOf ascii_toLowerCase)
               (deduplicateOpportunities ascii_toLowerCase [a; b; c]))
      /\ (forall o, In o [a; b; c] ->
            exists s, In s (deduplicateOpportunities ascii_toLowerCase [a; b; c])
                      /\ keyOf ascii_toLowerCase s = keyOf ascii_toLowerCase o)
      /\ (forall s, In s (deduplicateOpportunities ascii_toLowerCase [a; b; c]) ->
            first_best ascii_toLowerCase [a; b; c] s))
  /\ deduplicateOpportunities ascii_toLowerCase [a; b] = [b]
  /\ deduplicateOpportunities ascii_toLowerCase [b; a] = [b]
  /\ deduplicateOpportunities ascii_toLowerCase [b; c] = [b]
  /\ deduplicateOpportunities ascii_toLowerCase [a; b; c] = [b].
Proof.
  cbv zeta.
  assert (H : forall o, In o [opportunity "Improve SEO" 6 100;
                              opportunity "improve seo" 9 200;
                              opportunity "IMPROVE SEO" 9 300] ->
                        is_number (priority o)).
  { intros o [<- | [<- | [<- | []]]]; reflexivity. }
  split; [exact H |]. split.
  - exact (proj1 (C3_deduplicate_first_best ascii_toLowerCase) _ H).
  - repeat split; vm_compute; reflexivity.
Defined.

(* ================================================================== *)
(** * The comparator and the sort                                     *)
(* ================================================================== *)

Lemma strict_eq_comm x y : (x === y)%js = (y === x)%js.
Proof.
  destruct (x === y)%js eqn:E1, (y === x)%js eqn:E2; try reflexivity.
  - apply eq_spec in E1. destruct E1 as (Hx & Hy & E).
    assert ((y === x)%js = true) by (apply eq_spec; auto). congruence.
  - apply eq_spec in E2. destruct E2 as (Hy & Hx & E).
    assert ((x === y)%js = true) by (apply eq_spec; auto). congruence.
Qed.

Lemma eq_not_lt x y : (x === y)%js = true -> (x < y)%js = false.
Proof.
  intros E. apply eq_spec in E. destruct E as (_ & _ & E).
  destruct (x < y)%js eqn:L; [| reflexivity].
  apply lt_spec in L. destruct L as (_ & _ & L). rewrite E in L.
  destruct (lexlt_irrefl _ L).
Qed.

(** [a] is moved behind [b] exactly when [b] has the higher priority, or
    the same priority and the higher revenue lift. *)
Lemma comparator_gt a b :
  well_formed a -> well_formed b ->
  (byPriorityThenLift a b > JS.int 0)%js
  = (priority a < priority b)%js
    || ((priority a === priority b)%js
        && (estimatedRevenueLift a < estimatedRevenueLift b)%js).
Proof.
  intros (Vpa & Npa & Vra & Nra) (Vpb & Npb & Vrb & Nrb).
  unfold byPriorityThenLift, JS.neq. fold (JS.eq (priority b) (priority a)).
  rewrite (strict_eq_comm (priority b) (priority a)).
  destruct (priority a === priority b)%js eqn:E; cbn [negb andb].
  - rewrite (eq_not_lt _ _ E). cbn [orb].
    apply (sub_sign _ _ Vrb Vra Nrb Nra).
  - rewrite orb_false_r. apply (sub_sign _ _ Vpb Vpa Npb Npa).
Qed.

Lemma comparator_gt_ranked a b :
  well_formed a -> well_formed b ->
  (byPriorityThenLift a b > JS.int 0)%js = true -> ranked_before b a.
Proof.
  intros Ha Hb H. rewrite (comparator_gt a b Ha Hb) in H.
  apply orb_true_iff in H. destruct H as [H | H].
  - left. exact H.
  - apply andb_true_iff in H. destruct H as [E L]. right. split.
    + now rewrite strict_eq_comm.
    + apply lt_le in L. exact L.
Qed.

Lemma comparator_not_gt_ranked a b :
  well_formed a -> well_formed b ->
  (byPriorityThenLift a b > JS.int 0)%js = false -> ranked_before a b.
Proof.
  intros Ha Hb H. rewrite (comparator_gt a b Ha Hb) in H.
  apply orb_false_iff in H. destruct H as [Hlt H].
  destruct Ha as (_ & Npa & _ & Nra), Hb as (_ & Npb & _ & Nrb).
  destruct (lex_cases (rank (priority a)) (rank (priority b))) as [L | [L | L]].
  - assert ((priority a < priority b)%js = true) by (apply lt_spec; auto). congruence.
  - assert (E : (priority a === priority b)%js = true) by (apply eq_spec; auto).
    rewrite E in H. cbn [andb] in H. right. split; [exact E|].
    exact (not_lt_le _ _ Nra Nrb H).
  - left. apply gt_spec. auto.
Qed.

Lemma ranked_before_trans a b c :
  ranked_before a b -> ranked_before b c -> ranked_before a c.
Proof.
  unfold ranked_before. rewrite !gt_spec, !eq_spec, !ge_spec.
  intros [(Na & Nb & L1) | ((Na & Nb & E1) & (Ra & Rb & G1))]
         [(_ & Nc & L2) | ((_ & Nc & E2) & (_ & Rc & G2))].
  - left. repeat split; auto. eapply lexlt_trans; eauto.
  - left. repeat split; auto. now rewrite <- E2.
  - left. repeat split; auto. now rewrite E1.
  - right. repeat split; auto; [congruence|].
    destruct G1 as [G1 | G1], G2 as [G2 | G2].
    + left. eapply lexlt_trans; eauto.
    + left. now rewrite <- G2.
    + left. now rewrite G1.
    + right. congruence.
Qed.

Lemma sort_insert_Forall {A} (P : A -> Prop) cmp a l :
  P a -> Forall P l -> Forall P (sort_insert cmp a l).
Proof.
  intros Ha. induction l as [| b l IH]; intros Hl; cbn [sort_insert].
  - now constructor.
  - inversion Hl; subst. destruct (cmp a b > JS.int 0)%js; constructor; auto.
Qed.

Lemma Array_sort_Forall {A} (P : A -> Prop) cmp l :
  Forall P l -> Forall P (Array_sort cmp l).
Proof.
  induction l as [| a l IH]; intros H; cbn [Array_sort fold_right]; [constructor|].
  inversion H; subst. apply sort_insert_Forall; auto.
Qed.

Lemma sort_insert_HdRel b a l :
  HdRel ranked_before b l -> ranked_before b a ->
  HdRel ranked_before b (sort_insert byPriorityThenLift a l).
Proof.
  intros Hl Hba. destruct l as [| c l]; cbn [sort_insert]; [now constructor|].
  destruct (byPriorityThenLift a c > JS.int 0)%js; constructor; auto.
  now inversion Hl.
Qed.

Lemma sort_insert_Sorted a l :
  well_formed a -> Forall well_formed l -> Sorted ranked_before l ->
  Sorted ranked_before (sort_insert byPriorityThenLift a l).
Proof.
  intros Ha. induction l as [| b l IH]; intros Hwf Hs; cbn [sort_insert].
  - repeat constructor.
  - inversion Hwf as [| ? ? Hb Hl]; subst. inversion Hs as [| ? ? Hs' Hhd]; subst.
    destruct (byPriorityThenLift a b > JS.int 0)%js eqn:E.
    + constructor; [now apply IH|].
      apply sort_insert_HdRel; [assumption|]. now apply comparator_gt_ranked.
    + constructor; [assumption|]. constructor. now apply comparator_not_gt_ranked.
Qed.

Lemma Array_sort_Sorted l :
  Forall well_formed l -> Sorted ranked_before (Array_sort byPriorityThenLift l).
Proof.
  induction l as [| a l IH]; intros H; cbn [Array_sort fold_right]; [constructor|].
  inversion H; subst. apply sort_insert_Sorted; auto.
  now apply Array_sort_Forall.
Qed.

Lemma firstn_Sorted {A} (R : A -> A -> Prop) n : forall l,
  Sorted R l -> Sorted R (firstn n l).
Proof.
  induction n as [| n IH]; intros l H; [constructor|].
  destruct l as [| a l]; cbn [firstn]; [constructor|].
  inversion H as [| ? ? Hs Hhd]; subst. constructor; [now apply IH|].
  destruct n; [constructor|]. destruct l; cbn [firstn]; [constructor|].
  inversion Hhd; subst. now constructor.
Qed.

(* ================================================================== *)
(** * Ranking                                                         *)
(* ================================================================== *)

Lemma Map_set_Forall {V} (P : string * V -> Prop) (m : JSMap V) k v :
  (forall k', P (k', v)) -> Forall P m -> Forall P (Map_set m k v).
Proof.
  intros Hv. induction m as [| [k0 v0] m IH]; intros H; cbn [Map_set].
  - constructor; auto.
  - inversion H; subst. destruct (String.eqb k0 k); constructor; auto.
Qed.

(** Deduplication only keeps opportunities it was given. *)
Lemma deduplicate_Forall toLowerCase (P : Opportunity -> Prop) l :
  Forall P l -> Forall P (deduplicateOpportunities toLowerCase l).
Proof.
  intros H. unfold deduplicateOpportunities, Map_values.
  assert (Hseen : Forall (fun kv => P (snd kv))
                         (fold_left (dedup_step toLowerCase) l [])).
  { assert (Hnil : Forall (fun kv : string * Opportunity => P (snd kv)) [])
      by constructor.
    revert Hnil. generalize (@nil (string * Opportunity)).
    induction H as [| o l Ho Hl IH]; intros seen Hseen; cbn [fold_left]; [assumption|].
    apply IH. unfold dedup_step.
    destruct (Map_get seen (toLowerCase (title o))) as [existing |];
      [destruct (priority o > priority existing)%js |];
      try assumption; apply Map_set_Forall; auto. }
  apply Forall_map. exact Hseen.
Qed.

(** The factor by which revenue lifts are rescaled, for a registry
    profile, is a positive binary64 number. *)
Lemma adjustmentFactor_positive profile :
  registry_profile profile ->
  positive_finite (averageMonthlyRevenue profile / JS.int 2500000)%js
  /\ valid (averageMonthlyRevenue profile / JS.int 2500000)%js.
Proof.
  unfold registry_profile. cbn [INDUSTRY_CONFIGS_own map snd In].
  intros H.
  repeat (destruct H as [<- | H]; [split; [exact I | reflexivity] |]). destruct H.
Qed.

Lemma adjusted_well_formed profile o :
  registry_profile profile -> well_formed o ->
  well_formed
    (with_revenueLift o
       (adjustRevenueByIndustry (estimatedRevenueLift o)
          (averageMonthlyRevenue_of (Profile profile)))).
Proof.
  intros Hp (Vp & Np & Vr & Nr).
  destruct (adjustmentFactor_positive profile Hp) as [Hpos Hval].
  unfold well_formed, with_revenueLift, adjustRevenueByIndustry.
  cbn [priority estimatedRevenueLift averageMonthlyRevenue_of ToNumber].
  repeat split; try assumption.
  - apply Math_round_valid, SFmul_valid; assumption.
  - apply Math_round_number, mul_positive_number; assumption.
Qed.

Lemma synthetic_well_formed data profile :
  registry_profile profile ->
  Forall well_formed (generateSyntheticOpportunities data (Profile profile)).
Proof.
  intros Hp. rewrite generateSyntheticOpportunities_rules.
  assert (H4 : well_formed (fullRenewal (Profile profile))
               /\ well_formed (mobileFirst (Profile profile))
               /\ well_formed (contentMarketing (Profile profile))
               /\ well_formed (conversionProgram (Profile profile))).
  { unfold registry_profile in Hp. cbn [INDUSTRY_CONFIGS_own map snd In] in Hp.
    repeat (destruct Hp as [<- | Hp]; [repeat split; reflexivity |]). destruct Hp. }
  destruct H4 as (H1 & H2 & H3 & H4).
  repeat (apply Forall_app; split);
    match goal with |- Forall _ (if ?c then _ else _) => destruct c end;
    try (apply Forall_cons; [assumption |]); apply Forall_nil.
Qed.

(** The boost is one of the sums of 2, 2, 2, 2, 3 and 2: a finite binary64
    number. *)
Lemma priorityBoostOf_finite opp scores :
  valid (priorityBoostOf opp scores) /\ is_finite (priorityBoostOf opp scores).
Proof.
  unfold priorityBoostOf, boost_if.
  destruct (includes (title opp) "パフォーマンス" && (performance scores < JS.int 50)%js),
           (includes (title opp) "モバイル" && (mobile scores < JS.int 50)%js),
           (includes (title opp) "SEO" && (seo scores < JS.int 50)%js),
           (includes (title opp) "コンバージョン" && (conversion scores < JS.int 50)%js),
           (Effort.eqb (effort opp) Effort.Low && (estimatedImprovement opp > JS.int 20)%js),
           (estimatedRevenueLift opp > JS.int 50000)%js;
    split; vm_compute; (reflexivity || exact I).
Qed.

Lemma reprioritize_well_formed scores o :
  well_formed o -> well_formed (reprioritize scores o).
Proof.
  intros (Vp & Np & Vr & Nr).
  destruct (priorityBoostOf_finite o scores) as [Vb Fb].
  unfold well_formed, reprioritize, with_priority. cbn [priority estimatedRevenueLift].
  repeat split; try assumption.
  - apply Math_min_valid; [apply int_valid | now apply SFadd_valid].
  - apply Math_min_number; [apply int_number | now apply add_finite_number].
Qed.

(** What [calculate] sorts is well formed when the raw opportunities are
    and the industry resolves to a profile. *)
Lemma prioritized_well_formed toLowerCase data profile :
  registry_profile profile ->
  Forall well_formed
         (performanceResult data ++ seoResult data ++ mobileResult data
          ++ conversionResult data ++ contentResult data) ->
  Forall well_formed
    (map (reprioritize (scores data))
       (deduplicateOpportunities toLowerCase
          (map (fun opp =>
                  with_revenueLift opp
                    (adjustRevenueByIndustry (estimatedRevenueLift opp)
                       (averageMonthlyRevenue_of (Profile profile))))
               (performanceResult data ++ seoResult data ++ mobileResult data
                ++ conversionResult data ++ contentResult data)
           ++ generateSyntheticOpportunities data (Profile profile)))).
Proof.
  intros Hp Hraw. apply Forall_map.
  apply (deduplicate_Forall toLowerCase (fun o => well_formed (reprioritize (scores data) o))).
  apply Forall_app. split.
  - apply Forall_map. eapply Forall_impl; [| exact Hraw].
    intros o Ho. now apply reprioritize_well_formed, adjusted_well_formed.
  - eapply Forall_impl; [| exact (synthetic_well_formed data profile Hp)].
    intros o Ho. now apply reprioritize_well_formed.
Qed.

(** C4. For any number of raw opportunities per category and any composite
    score, when the industry resolves to a profile and the priorities and
    revenue lifts of the raw opportunities are numbers, the list returned
    by [calculate] has at most 10 entries and is sorted: every entry has a
    higher final priority than those after it, or the same priority and a
    revenue lift that is not lower. *)
Theorem C4_ranked_sorted_top10 :
  forall toLowerCase data industry profile,
    industryConfigFor industry = Profile profile ->
    Forall well_formed
           (performanceResult data ++ seoResult data ++ mobileResult data
            ++ conversionResult data ++ contentResult data) ->
    let ranked := calculate toLowerCase data industry in
    (List.length ranked <= 10)%nat
    /\ Sorted ranked_before ranked
    /\ StronglySorted ranked_before ranked.
Proof.
  intros toLowerCase data industry profile Hres Hraw. cbv zeta.
  assert (Hsorted : Sorted ranked_before (calculate toLowerCase data industry)).
  { unfold calculate, slice0, recalculatePriorities. rewrite Hres.
    apply firstn_Sorted, Array_sort_Sorted.
    apply prioritized_well_formed; [| assumption].
    exact (industryConfigFor_registry _ _ Hres). }
  split; [| split].
  - unfold calculate, slice0. apply firstn_le_length.
  - exact Hsorted.
  - apply Sorted_StronglySorted; [| exact Hsorted].
    intros a b c. apply ranked_before_trans.
Qed.

(** The ranking of the sample for the beauty profile: ten entries, by
    priority and then by revenue lift. *)
Lemma C4_ranked_sorted_top10_witness :
  industryConfigFor (Some "beauty") = Profile beauty
  /\ Forall well_formed
            (performanceResult sample ++ seoResult sample ++ mobileResult sample
             ++ conversionResult sample ++ contentResult sample)
  /\ map (fun o => (priority o, estimatedRevenueLift o))
         (calculate ascii_toLowerCase sample (Some "beauty"))
     = [(JS.int 10, JS.int 240000); (JS.int 10, JS.int 200000);
        (JS.int 10, JS.int 160000); (JS.int 10, JS.int 32000);
        (JS.int 9, JS.int 48000); (JS.int 9, JS.int 24000);
        (JS.int 9, JS.int 20000); (JS.int 8, JS.int 32000);
        (JS.int 8, JS.int 24000); (JS.int 8, JS.int 16000)]
  /\ ((List.length (calculate ascii_toLowerCase sample (Some "beauty")) <= 10)%nat
      /\ Sorted ranked_before (calculate ascii_toLowerCase sample (Some "beauty"))
      /\ StronglySorted ranked_before
           (calculate ascii_toLowerCase sample (Some "beauty"))).
Proof.
  assert (Hres : industryConfigFor (Some "beauty") = Profile beauty) by reflexivity.
  assert (Hraw : Forall well_formed
                        (performanceResult sample ++ seoResult sample
                         ++ mobileResult sample ++ conversionResult sample
                         ++ contentResult sample)).
  { cbn [sample performanceResult seoResult mobileResult conversionResult
         contentResult app].
    repeat (apply Forall_cons; [repeat split; vm_compute; reflexivity |]).
    apply Forall_nil. }
  split; [exact Hres |]. split; [exact Hraw |]. split; [vm_compute; reflexivity |].
  exact (C4_ranked_sorted_top10 ascii_toLowerCase sample (Some "beauty") beauty Hres Hraw).
Defined.

(* ================================================================== *)
(** * The plan and the priority together                              *)
(* ================================================================== *)

Lemma le_trans x y z : JS.le x y = true -> JS.le y z = true -> JS.le x z = true.
Proof.
  rewrite !le_spec. intros (Hx & Hy & H1) (_ & Hz & H2).
  repeat split; auto. destruct H1 as [H1 | H1], H2 as [H2 | H2].
  - left. eapply lexlt_trans; eauto.
  - left. now rewrite <- H2.
  - left. now rewrite H1.
  - right. congruence.
Qed.

Lemma le_lt_trans x y z : JS.le x y = true -> JS.lt y z = true -> JS.lt x z = true.
Proof.
  rewrite !lt_spec, le_spec. intros (Hx & Hy & [H1 | H1]) (_ & Hz & H2).
  - repeat split; auto. eapply lexlt_trans; eauto.
  - repeat split; auto. now rewrite H1.
Qed.

(** The two tests at 40: the Premium plan is recommended below 40 only,
    and a total of at most 40 is given the priority High. *)
Lemma premium_below_40 totalScore :
  recommendPlan totalScore = Premium -> (totalScore < JS.int 40)%js = true.
Proof.
  unfold recommendPlan. destruct (totalScore < JS.int 40)%js; [reflexivity |].
  destruct (totalScore < JS.int 70)%js; discriminate.
Qed.

Lemma at_most_40_high totalScore estimatedMonthlyLoss :
  (totalScore <= JS.int 40)%js = true ->
  determinePriority totalScore estimatedMonthlyLoss = High.
Proof.
  intros H. unfold determinePriority.
  change (scoreMax (PRIORITY_THRESHOLDS High)) with (JS.int 40).
  now rewrite H.
Qed.

(** X1. A site for which [recommendPlan] returns Premium is given the
    priority High by [determinePriority], whatever the estimated monthly
    loss: a total below 40 is at most 40. *)
Theorem premium_plan_is_high_priority :
  forall totalScore estimatedMonthlyLoss,
    recommendPlan totalScore = Premium ->
    determinePriority totalScore estimatedMonthlyLoss = High.
Proof.
  intros totalScore estimatedMonthlyLoss H.
  apply at_most_40_high, lt_le, premium_below_40. exact H.
Qed.

(** A total of 35 gets the Premium plan, and the priority High even
    without any loss. *)
Lemma premium_plan_is_high_priority_witness :
  recommendPlan (JS.int 35) = Premium
  /\ determinePriority (JS.int 35) (JS.int 0) = High.
Proof.
  split; [vm_compute; reflexivity |].
  apply (premium_plan_is_high_priority (JS.int 35) (JS.int 0)). vm_compute. reflexivity.
Defined.

(** X2. [determinePriority] is monotone: a lower total score or a higher
    estimated monthly loss never makes the priority less pressing. *)
Theorem determinePriority_monotone :
  forall totalScore totalScore' loss loss',
    (totalScore' <= totalScore)%js = true ->
    (loss <= loss')%js = true ->
    (urgency (determinePriority totalScore loss)
     <= urgency (determinePriority totalScore' loss'))%nat.
Proof.
  intros ts ts' loss loss' Hs Hl. unfold determinePriority, JS.ge.
  change (scoreMax (PRIORITY_THRESHOLDS High)) with (JS.int 40).
  change (monthlyLossMin (PRIORITY_THRESHOLDS High)) with (JS.int 100000).
  change (scoreMax (PRIORITY_THRESHOLDS Medium)) with (JS.int 60).
  change (monthlyLossMin (PRIORITY_THRESHOLDS Medium)) with (JS.int 50000).
  change SFleb with JS.le.
  assert (S40 : (ts <= JS.int 40)%js = true -> (ts' <= JS.int 40)%js = true)
    by (intros H; exact (le_trans _ _ _ Hs H)).
  assert (S60 : (ts <= JS.int 60)%js = true -> (ts' <= JS.int 60)%js = true)
    by (intros H; exact (le_trans _ _ _ Hs H)).
  assert (L1 : (JS.int 100000 <= loss)%js = true -> (JS.int 100000 <= loss')%js = true)
    by (intros H; exact (le_trans _ _ _ H Hl)).
  assert (L5 : (JS.int 50000 <= loss)%js = true -> (JS.int 50000 <= loss')%js = true)
    by (intros H; exact (le_trans _ _ _ H Hl)).
  destruct (ts <= JS.int 40)%js;
    [rewrite S40 by reflexivity; cbn [orb urgency]; repeat constructor |].
  destruct (JS.int 100000 <= loss)%js;
    [rewrite L1 by reflexivity; rewrite !orb_true_r; cbn [orb urgency];
     repeat constructor |].
  cbn [orb].
  destruct (ts <= JS.int 60)%js.
  - rewrite S60 by reflexivity. cbn [orb].
    destruct ((ts' <= JS.int 40)%js || (JS.int 100000 <= loss')%js);
      cbn [orb urgency]; repeat constructor.
  - destruct (JS.int 50000 <= loss)%js.
    + rewrite L5 by reflexivity. rewrite !orb_true_r.
      destruct ((ts' <= JS.int 40)%js || (JS.int 100000 <= loss')%js);
        cbn [orb urgency]; repeat constructor.
    + cbn [orb urgency]. apply Nat.le_0_l.
Qed.

(** From a score of 65 with a loss of 20000 to a score of 55 with a loss
    of 120000 the priority goes from Low to High. *)
Lemma determinePriority_monotone_witness :
  urgency (determinePriority (JS.int 65) (JS.int 20000)) = 0%nat
  /\ urgency (determinePriority (JS.int 55) (JS.int 120000)) = 2%nat
  /\ (urgency (determinePriority (JS.int 65) (JS.int 20000))
      <= urgency (determinePriority (JS.int 55) (JS.int 120000)))%nat.
Proof.
  split; [vm_compute; reflexivity |]. split; [vm_compute; reflexivity |].
  apply determinePriority_monotone; vm_compute; reflexivity.
Defined.

(** X3. [recommendPlan] is monotone: a lower total score never gets a
    cheaper plan, nor a plan with a lower target score. *)
Theorem recommendPlan_monotone :
  forall totalScore totalScore',
    (totalScore' <= totalScore)%js = true ->
    (monthlyPrice (PAGEYOU_PLANS (recommendPlan totalScore))
     <= monthlyPrice (PAGEYOU_PLANS (recommendPlan totalScore')))%js = true
    /\ (targetScore (PAGEYOU_PLANS (recommendPlan totalScore))
        <= targetScore (PAGEYOU_PLANS (recommendPlan totalScore')))%js = true.
Proof.
  intros ts ts' Hs. unfold recommendPlan.
  assert (S40 : (ts < JS.int 40)%js = true -> (ts' < JS.int 40)%js = true)
    by (intros H; exact (le_lt_trans _ _ _ Hs H)).
  assert (S70 : (ts < JS.int 70)%js = true -> (ts' < JS.int 70)%js = true)
    by (intros H; exact (le_lt_trans _ _ _ Hs H)).
  destruct (ts < JS.int 40)%js.
  - rewrite S40 by reflexivity. split; vm_compute; reflexivity.
  - destruct (ts < JS.int 70)%js.
    + rewrite S70 by reflexivity.
      destruct (ts' < JS.int 40)%js; split; vm_compute; reflexivity.
    + destruct (ts' < JS.int 40)%js; [| destruct (ts' < JS.int 70)%js];
        split; vm_compute; reflexivity.
Qed.

(** A score of 72 gets the Simple plan and a score of 38 the Premium one,
    which costs more. *)
Lemma recommendPlan_monotone_witness :
  recommendPlan (JS.int 72) = Simple /\ recommendPlan (JS.int 38) = Premium
  /\ (monthlyPrice (PAGEYOU_PLANS (recommendPlan (JS.int 72)))
      <= monthlyPrice (PAGEYOU_PLANS (recommendPlan (JS.int 38))))%js = true.
Proof.
  split; [vm_compute; reflexivity |]. split; [vm_compute; reflexivity |].
  apply recommendPlan_monotone. vm_compute. reflexivity.
Defined.

(* ================================================================== *)
(** * The improvement potential and the projection at the target      *)
(* ================================================================== *)

Lemma finite_sub_number x y : is_finite x -> is_number y -> is_number (x - y)%js.
Proof.
  unfold JS.sub.
  destruct x as [sx | sx | | sx mx ex], y as [sy | sy | | sy my ey];
    intros Hx Hy; try contradiction; try discriminate; cbn [SFsub];
    try reflexivity; try (destruct sx, sy; reflexivity).
  apply binary_normalize_number.
Qed.

(** [Math.max(0, x - y)] is [+0] when [x <= y], and [x - y], above zero,
    when [x > y]. *)
Lemma Math_max_zero_sub x y :
  valid x -> valid y -> is_finite x -> is_number y ->
  ((x <= y)%js = true -> JS.Math_max (JS.int 0) (x - y)%js = JS.int 0)
  /\ ((y < x)%js = true ->
      JS.Math_max (JS.int 0) (x - y)%js = (x - y)%js
      /\ ((x - y) > JS.int 0)%js = true).
Proof.
  intros Vx Vy Fx Ny.
  assert (Nx : is_number x) by (destruct x; try contradiction; reflexivity).
  pose proof (finite_sub_number x y Fx Ny) as Nd.
  destruct (sub_sign x y Vx Vy Nx Ny) as [Hgt Hlt].
  unfold JS.gt in Hgt. change (SFltb (JS.int 0) (x - y)%js) with (JS.int 0 < x - y)%js in Hgt.
  change (SFltb y x) with (y < x)%js in Hgt.
  split.
  - intros Hle. rewrite (le_not_lt _ _ Hle) in Hgt.
    destruct (Math_max_cases (JS.int 0) (x - y)%js (int_number 0) Nd)
      as [[_ H] | [[-> _] | (_ & _ & [(sx & sy & E1 & E2 & ->) | ->])]];
      try reflexivity; [congruence |].
    rewrite int_zero in E1. injection E1 as <-. reflexivity.
  - intros Hyx. rewrite Hyx in Hgt. split; [| exact Hgt].
    destruct (Math_max_cases (JS.int 0) (x - y)%js (int_number 0) Nd)
      as [[-> _] | [[_ H] | (H & _)]]; try reflexivity.
    + pose proof (le_not_lt _ _ (lt_le _ _ Hgt)). congruence.
    + congruence.
Qed.

Lemma plan_target_finite plan :
  valid (targetScore (PAGEYOU_PLANS plan)) /\ is_finite (targetScore (PAGEYOU_PLANS plan)).
Proof. destruct plan; split; (reflexivity || exact I). Qed.

(** X4. For a current score that is a number, the improvement potential
    is [+0] when the score has reached the target of the plan, and is
    otherwise the difference [target - score], which is above zero. *)
Theorem calculateImprovementPotential_sign :
  forall currentScore targetPlan,
    valid currentScore -> is_number currentScore ->
    let target := targetScore (PAGEYOU_PLANS targetPlan) in
    ((currentScore >= target)%js = true ->
     calculateImprovementPotential currentScore targetPlan = JS.int 0)
    /\ ((currentScore < target)%js = true ->
        calculateImprovementPotential currentScore targetPlan
        = (target - currentScore)%js
        /\ (calculateImprovementPotential currentScore targetPlan > JS.int 0)%js = true).
Proof.
  intros cs plan Vc Nc. cbv zeta. unfold calculateImprovementPotential.
  destruct (plan_target_finite plan) as [Vt Ft].
  destruct (Math_max_zero_sub _ cs Vt Vc Ft Nc) as [H0 H1].
  split.
  - exact H0.
  - intros H. destruct (H1 H) as [E G]. rewrite E. split; [reflexivity | exact G].
Qed.

(** For the Standard plan, whose target is 75: nothing is left to gain at
    a score of 80, and 35 points at a score of 40. *)
Lemma calculateImprovementPotential_sign_witness :
  calculateImprovementPotential (JS.int 80) Standard = JS.int 0
  /\ calculateImprovementPotential (JS.int 40) Standard = JS.int 35.
Proof.
  assert (V80 : valid (JS.int 80)) by apply int_valid.
  assert (V40 : valid (JS.int 40)) by apply int_valid.
  split.
  - apply (calculateImprovementPotential_sign (JS.int 80) Standard V80 (int_number 80)).
    vm_compute. reflexivity.
  - destruct (calculateImprovementPotential_sign (JS.int 40) Standard V40 (int_number 40))
      as [_ H].
    destruct H as [E _]; [vm_compute; reflexivity |].
    rewrite E. vm_compute. reflexivity.
Defined.

(** X5. When the current score has reached the target of the plan,
    [estimateROI] projects no return at all: the monthly return is zero,
    the payback period is as many months as the monthly price is yen
    (30000, 50000 or 100000), and the three-year return is -100, for every
    industry that resolves to a profile and every finite monthly
    revenue. *)
Theorem estimateROI_target_reached :
  forall currentScore targetPlan industry profile currentMonthlyRevenue,
    valid currentScore ->
    (currentScore >= targetScore (PAGEYOU_PLANS targetPlan))%js = true ->
    industryConfigFor industry = Profile profile ->
    match currentMonthlyRevenue with
    | Some revenue => is_finite revenue
    | None => True
    end ->
    let roi := estimateROI currentScore targetPlan industry currentMonthlyRevenue in
    (estimatedMonthlyReturn roi === JS.int 0)%js = true
    /\ paybackPeriodMonths roi = monthlyPrice (PAGEYOU_PLANS targetPlan)
    /\ threeYearROI roi = JS.int (-100).
Proof.
  intros cs plan industry profile rev Vc Hge Hres Hrev. cbv zeta.
  assert (Nc : is_number cs).
  { apply ge_spec in Hge. tauto. }
  destruct (plan_target_finite plan) as [Vt Ft].
  destruct (Math_max_zero_sub _ cs Vt Vc Ft Nc) as [H0 _].
  specialize (H0 Hge).
  unfold estimateROI. unfold calculateImprovementPotential. rewrite H0, Hres.
  set (base := ToNumber (or_else rev (averageMonthlyRevenue_of (Profile profile)))).
  assert (Hbase : is_finite base).
  { subst base. unfold or_else. cbn [averageMonthlyRevenue_of].
    assert (Havg : is_finite (averageMonthlyRevenue profile)).
    { pose proof (industryConfigFor_registry _ _ Hres) as Hp.
      unfold registry_profile in Hp. cbn [INDUSTRY_CONFIGS_own map snd In] in Hp.
      repeat (destruct Hp as [<- | Hp]; [exact I |]). destruct Hp. }
    destruct rev as [r |]; [destruct (JS.truthy r) |]; cbn [ToNumber]; assumption. }
  assert (Hret : exists s, (base * (JS.int 0 * JS.dec 5 1000))%js = S754_zero s).
  { change (JS.int 0 * JS.dec 5 1000)%js with (S754_zero false).
    destruct base as [s | | | s m e]; try contradiction;
      unfold JS.mul; cbn [SFmul]; eexists; reflexivity. }
  destruct Hret as [s ->].
  destruct plan, s; repeat split; vm_compute; reflexivity.
Qed.

(** A clinic that scores 80 and is offered the Standard plan: a payback
    period of 50000 months and a three-year return of -100. *)
Lemma estimateROI_target_reached_witness :
  estimateROI (JS.int 80) Standard (Some "clinic") None
  = {| monthlyInvestment := JS.int 50000;
       estimatedMonthlyReturn := JS.int 0;
       paybackPeriodMonths := JS.int 50000;
       threeYearROI := JS.int (-100) |}
  /\ threeYearROI (estimateROI (JS.int 80) Standard (Some "clinic") None) = JS.int (-100).
Proof.
  split; [vm_compute; reflexivity |].
  apply (estimateROI_target_reached (JS.int 80) Standard (Some "clinic") clinic None).
  - apply int_valid.
  - vm_compute. reflexivity.
  - reflexivity.
  - exact I.
Defined.

(* ================================================================== *)
(** * The score breakdown                                             *)
(* ================================================================== *)

Lemma number_eqb_eq x y : number_eqb x y = true -> x = y.
Proof.
  destruct x as [a | a | | s m e], y as [b | b | | s' m' e']; cbn [number_eqb];
    try discriminate; try reflexivity.
  - intros H. apply eqb_prop in H. now subst.
  - intros H. apply eqb_prop in H. now subst.
  - rewrite !andb_true_iff, Pos.eqb_eq, Z.eqb_eq.
    intros [[H1 H2] H3]. apply eqb_prop in H1. now subst.
Qed.

Lemma upto_forall (P : Z -> bool) n :
  forallb P (upto n) = true -> forall z, 0 <= z < Z.of_nat n -> P z = true.
Proof.
  intros H z Hz. rewrite forallb_forall in H. apply H.
  unfold upto. apply in_map_iff. exists (Z.to_nat z). split; [lia |].
  apply in_seq. lia.
Qed.

Lemma contributionOf_exact percent weight :
  forallb (fun n => number_eqb (contributionOf (JS.int n) weight)
                               (JS.int ((percent * n + 50) / 100)))
          (upto 101) = true ->
  forall n, 0 <= n <= 100 ->
    contributionOf (JS.int n) weight = JS.int ((percent * n + 50) / 100).
Proof.
  intros H n Hn. apply number_eqb_eq.
  apply (upto_forall _ 101 H). lia.
Qed.

Lemma contribution_checked_25 :
  forallb (fun n => number_eqb
                      (contributionOf (JS.int n) (sw_performance DEFAULT_SCORING_WEIGHTS))
                      (JS.int ((25 * n + 50) / 100)))
          (upto 101) = true.
Proof. vm_compute. reflexivity. Qed.

Lemma contribution_checked_20 :
  forallb (fun n => number_eqb
                      (contributionOf (JS.int n) (sw_mobile DEFAULT_SCORING_WEIGHTS))
                      (JS.int ((20 * n + 50) / 100)))
          (upto 101) = true.
Proof. vm_compute. reflexivity. Qed.

Lemma contribution_checked_15 :
  forallb (fun n => number_eqb
                      (contributionOf (JS.int n) (sw_content DEFAULT_SCORING_WEIGHTS))
                      (JS.int ((15 * n + 50) / 100)))
          (upto 101) = true.
Proof. vm_compute. reflexivity. Qed.

Lemma generateScoreBreakdown_rows scores :
  generateScoreBreakdown scores
  = [ {| row_category := "パフォーマンス"; row_score := performance scores;
         row_weight := sw_performance DEFAULT_SCORING_WEIGHTS;
         row_contribution :=
           contributionOf (performance scores) (sw_performance DEFAULT_SCORING_WEIGHTS) |};
      {| row_category := "モバイル対応"; row_score := mobile scores;
         row_weight := sw_mobile DEFAULT_SCORING_WEIGHTS;
         row_contribution :=
           contributionOf (mobile scores) (sw_mobile DEFAULT_SCORING_WEIGHTS) |};
      {| row_category := "SEO"; row_score := seo scores;
         row_weight := sw_seo DEFAULT_SCORING_WEIGHTS;
         row_contribution :=
           contributionOf (seo scores) (sw_seo DEFAULT_SCORING_WEIGHTS) |};
      {| row_category := "コンバージョン"; row_score := conversion scores;
         row_weight := sw_conversion DEFAULT_SCORING_WEIGHTS;
         row_contribution :=
           contributionOf (conversion scores) (sw_conversion DEFAULT_SCORING_WEIGHTS) |};
      {| row_category := "コンテンツ"; row_score := content scores;
         row_weight := sw_content DEFAULT_SCORING_WEIGHTS;
         row_contribution :=
           contributionOf (content scores) (sw_content DEFAULT_SCORING_WEIGHTS) |} ].
Proof. reflexivity. Qed.

(** X6. For category scores that are integers from 0 to 100,
    [generateScoreBreakdown] lists the five categories in the order
    performance, mobile, SEO, conversion, content, each with its score and
    with the contribution [floor ((percent * score + 50) / 100)], percent
    being 25, 20, 20, 20 and 15: the weights add up to exactly 1, and no
    rounding of a binary64 product changes a contribution. *)
Theorem generateScoreBreakdown_exact :
  forall t p m s c ct,
    0 <= p <= 100 -> 0 <= m <= 100 -> 0 <= s <= 100 ->
    0 <= c <= 100 -> 0 <= ct <= 100 ->
    map (fun row => (row_category row, row_score row, row_contribution row))
        (generateScoreBreakdown (scores_of t p m s c ct))
    = [ ("パフォーマンス", JS.int p, JS.int ((25 * p + 50) / 100));
        ("モバイル対応", JS.int m, JS.int ((20 * m + 50) / 100));
        ("SEO", JS.int s, JS.int ((20 * s + 50) / 100));
        ("コンバージョン", JS.int c, JS.int ((20 * c + 50) / 100));
        ("コンテンツ", JS.int ct, JS.int ((15 * ct + 50) / 100)) ].
Proof.
  intros t p m s c ct Hp Hm Hs Hc Hct.
  rewrite generateScoreBreakdown_rows.
  cbn [map row_category row_score row_contribution scores_of
       performance mobile seo conversion content].
  rewrite (contributionOf_exact 25 _ contribution_checked_25 p Hp).
  rewrite (contributionOf_exact 20 _ contribution_checked_20 m Hm).
  change (sw_seo DEFAULT_SCORING_WEIGHTS) with (sw_mobile DEFAULT_SCORING_WEIGHTS).
  change (sw_conversion DEFAULT_SCORING_WEIGHTS) with (sw_mobile DEFAULT_SCORING_WEIGHTS).
  rewrite (contributionOf_exact 20 _ contribution_checked_20 s Hs).
  rewrite (contributionOf_exact 20 _ contribution_checked_20 c Hc).
  rewrite (contributionOf_exact 15 _ contribution_checked_15 ct Hct).
  reflexivity.
Qed.

(** With every score at 50 the contributions are 13, 10, 10, 10 and 8:
    they add up to 51, not to the total of 50. *)
Lemma generateScoreBreakdown_exact_witness :
  map row_contribution (generateScoreBreakdown (scores_of 50 50 50 50 50 50))
  = [JS.int 13; JS.int 10; JS.int 10; JS.int 10; JS.int 8].
Proof.
  pose proof (generateScoreBreakdown_exact 50 50 50 50 50 50
                ltac:(lia) ltac:(lia) ltac:(lia) ltac:(lia) ltac:(lia)) as H.
  apply (f_equal (map snd)) in H. rewrite map_map in H. exact H.
Defined.

(* ================================================================== *)
(** * Arithmetic on small integers                                    *)
(* ================================================================== *)

Lemma upto_forall2 (P : Z -> Z -> bool) n m :
  forallb (fun a => forallb (P a) (upto m)) (upto n) = true ->
  forall a b, 0 <= a < Z.of_nat n -> 0 <= b < Z.of_nat m -> P a b = true.
Proof.
  intros H a b Ha Hb.
  pose proof (upto_forall _ n H a Ha) as H1. cbv beta in H1.
  exact (upto_forall _ m H1 b Hb).
Qed.

(** Sums and differences of integers up to 120 are computed exactly, and
    such integers compare as over the integers. *)
Lemma small_ints_checked :
  forallb (fun a =>
             forallb (fun b =>
                        number_eqb (JS.int a - JS.int b)%js (JS.int (a - b))
                        && number_eqb (JS.int a + JS.int b)%js (JS.int (a + b))
                        && Bool.eqb (JS.int a < JS.int b)%js (a <? b)
                        && Bool.eqb (JS.int a <= JS.int b)%js (a <=? b)
                        && number_eqb (JS.Math_max (JS.int a) (JS.int b))
                                      (JS.int (Z.max a b))
                        && number_eqb (JS.Math_min (JS.int a) (JS.int b))
                                      (JS.int (Z.min a b)))
                     (upto 121))
          (upto 121) = true.
Proof. vm_compute. reflexivity. Qed.

Lemma small_ints a b :
  0 <= a <= 120 -> 0 <= b <= 120 ->
  (JS.int a - JS.int b)%js = JS.int (a - b)
  /\ (JS.int a + JS.int b)%js = JS.int (a + b)
  /\ (JS.int a < JS.int b)%js = (a <? b)
  /\ (JS.int a <= JS.int b)%js = (a <=? b)
  /\ JS.Math_max (JS.int a) (JS.int b) = JS.int (Z.max a b)
  /\ JS.Math_min (JS.int a) (JS.int b) = JS.int (Z.min a b).
Proof.
  intros Ha Hb.
  pose proof (upto_forall2 _ 121 121 small_ints_checked a b ltac:(lia) ltac:(lia)) as H.
  cbv beta in H. rewrite !andb_true_iff in H.
  destruct H as [[[[[H1 H2] H3] H4] H5] H6].
  apply number_eqb_eq in H1, H2, H5, H6. apply eqb_prop in H3, H4.
  repeat split; assumption.
Qed.

Lemma integer_between_weaken lo hi lo' hi' x :
  lo' <= lo -> hi <= hi' -> integer_between lo hi x -> integer_between lo' hi' x.
Proof. intros H1 H2 (k & Hk & E). exists k. split; [lia | exact E]. Qed.

Lemma integer_sub lo hi p x :
  0 <= lo -> hi <= 120 -> 0 <= p <= 120 ->
  integer_between lo hi x -> integer_between (lo - p) (hi - p) (x - JS.int p)%js.
Proof.
  intros Hlo Hhi Hp (k & Hk & ->). exists (k - p). split; [lia |].
  apply small_ints; lia.
Qed.

Lemma integer_add lo hi p x :
  0 <= lo -> hi <= 120 -> 0 <= p <= 120 ->
  integer_between lo hi x -> integer_between (lo + p) (hi + p) (x + JS.int p)%js.
Proof.
  intros Hlo Hhi Hp (k & Hk & ->). exists (k + p). split; [lia |].
  apply small_ints; lia.
Qed.

(* ================================================================== *)
(** * Scores are whole percentages                                    *)
(* ================================================================== *)

(** A mantissa that needs no shift is kept as it is. *)
Lemma binary_round_aux_exact s m e :
  fx (Zdigits2 (Z.pos m) + e) <= e -> e <= JS.emax - JS.prec ->
  binary_round_aux JS.prec JS.emax s (Z.pos m) e loc_Exact = S754_finite s m e.
Proof.
  intros H1 H2. unfold binary_round_aux, shr_fexp, shr.
  fold (fx (Zdigits2 (Z.pos m) + e)).
  assert (E : forall mrs, match fx (Zdigits2 (Z.pos m) + e) - e with
                          | Z.pos p => (iter_pos shr_1 p mrs, e + (fx (Zdigits2 (Z.pos m) + e) - e))
                          | _ => (mrs, e)
                          end = (mrs, e)).
  { intros mrs. destruct (fx (Zdigits2 (Z.pos m) + e) - e) eqn:E; try reflexivity. lia. }
  rewrite E. cbn [shr_record_of_loc shr_m loc_of_shr_record round_nearest_even].
  fold (fx (Zdigits2 (Z.pos m) + e)). rewrite E. cbn [shr_m].
  apply Z.leb_le in H2. now rewrite H2.
Qed.

(** An integer below [2^53] in magnitude is represented exactly. *)
Lemma binary_round_small s p :
  Z.pos p < 2 ^ 53 ->
  exists m k, 0 <= k <= 52 /\ binary_round JS.prec JS.emax s p 0 = S754_finite s m (- k)
              /\ Z.pos m = Z.pos p * 2 ^ k
              /\ k = 52 - Z.log2 (Z.pos p).
Proof.
  intros Hp. rewrite binary_round_eq.
  assert (Hlog : Z.log2 (Z.pos p) < 53) by (apply Z.log2_lt_pow2; lia).
  pose proof (Z.log2_nonneg (Z.pos p)) as Hlog0.
  assert (HF : fx (Z.pos (digits2_pos p) + 0) = Z.log2 (Z.pos p) - 52).
  { rewrite digits_log2, fx_eq. lia. }
  rewrite HF.
  destruct (shl_align_spec p 0 (Z.log2 (Z.pos p) - 52)) as [Hm He].
  set (mz := fst (shl_align p 0 (Z.log2 (Z.pos p) - 52))) in *.
  rewrite He. rewrite Z.min_r in * by lia.
  exists mz, (52 - Z.log2 (Z.pos p)).
  replace (- (52 - Z.log2 (Z.pos p))) with (Z.log2 (Z.pos p) - 52) by lia.
  replace (0 - (Z.log2 (Z.pos p) - 52)) with (52 - Z.log2 (Z.pos p)) in Hm by lia.
  split; [lia |]. split; [| split; [exact Hm | reflexivity]].
  apply binary_round_aux_exact.
  - cbn [Zdigits2]. rewrite digits_log2, Hm, log2_mul_pow2, fx_eq by lia. lia.
  - unfold JS.emax, JS.prec. lia.
Qed.

(** An integer of magnitude [2^53] or more is rounded to a number with a
    positive exponent, or to an infinity. *)
Lemma binary_round_large s p :
  2 ^ 53 <= Z.pos p ->
  match binary_round JS.prec JS.emax s p 0 with
  | S754_finite s' _ e => s' = s /\ 0 < e
  | S754_infinity s' => s' = s
  | _ => False
  end.
Proof.
  intros Hp. pose proof (binary_round_nonzero s p 0 ltac:(lia)) as Hnz.
  pose proof (binary_round_signed s p 0) as Hs.
  rewrite binary_round_eq in *.
  assert (Hlog : 53 <= Z.log2 (Z.pos p)) by (apply Z.log2_le_pow2; lia).
  assert (HF : fx (Z.pos (digits2_pos p) + 0) = Z.log2 (Z.pos p) - 52).
  { rewrite digits_log2, fx_eq. lia. }
  rewrite HF in *.
  destruct (shl_align_spec p 0 (Z.log2 (Z.pos p) - 52)) as [Hm He].
  rewrite Z.min_l in * by lia. rewrite Z.sub_diag, Z.mul_1_r in Hm.
  rewrite He, Hm in *.
  destruct (binary_round_aux_spec s (Z.pos p) 0 loc_Exact ltac:(lia)) as (m1 & Hb & E).
  cbv zeta in Hb, E. rewrite E in *.
  assert (Hshift : 0 < shift (Z.pos p) 0).
  { unfold shift. cbn [Zdigits2]. rewrite digits_log2, fx_eq. lia. }
  assert (H0 : 0 <= shift m1 (0 + shift (Z.pos p) 0)) by (unfold shift; lia).
  destruct (Z.shiftr m1 (shift m1 (0 + shift (Z.pos p) 0))); try contradiction.
  destruct (0 + shift (Z.pos p) 0 + shift m1 (0 + shift (Z.pos p) 0) <=? JS.emax - JS.prec);
    cbn [signed_as] in Hs; [split; [exact Hs | lia] | exact Hs].
Qed.

Lemma is_nan_number x : is_number x -> JS.is_nan x = false.
Proof. exact (fun H => H). Qed.

Lemma Math_max_zero_positive x :
  signed_as false x -> nonzero x -> JS.Math_max (JS.int 0) x = x.
Proof.
  intros Hs Hn. destruct (signed_nonzero_positive x Hs Hn) as [H _].
  unfold JS.Math_max, JS.lt. rewrite int_zero, H.
  rewrite (is_nan_number _ (signed_as_number _ _ Hs)). reflexivity.
Qed.

Lemma Math_max_zero_negative x :
  signed_as true x -> nonzero x -> JS.Math_max (JS.int 0) x = JS.int 0.
Proof.
  intros Hs Hn. destruct (signed_nonzero_negative x Hs Hn) as [H1 H2].
  unfold JS.Math_max, JS.lt. rewrite int_zero, H1, H2.
  rewrite (is_nan_number _ (signed_as_number _ _ Hs)). reflexivity.
Qed.

Lemma Math_min_100_above x :
  (JS.int 100 < x)%js = true -> JS.Math_min (JS.int 100) x = JS.int 100.
Proof.
  intros H. unfold JS.Math_min. rewrite H.
  apply lt_spec in H. destruct H as (_ & Hx & _).
  rewrite (is_nan_number _ Hx). reflexivity.
Qed.

(** Every integer above 100 denotes a number above 100. *)
Lemma int_above_100 z : 100 < z -> (JS.int 100 < JS.int z)%js = true.
Proof.
  intros Hz. destruct z as [| p | p]; try lia.
  apply lt_spec. split; [apply int_number |]. split; [apply int_number |].
  rewrite int_100. unfold JS.int. cbn [binary_normalize].
  destruct (Z_lt_le_dec (Z.pos p) (2 ^ 53)) as [Hsmall | Hlarge].
  - destruct (binary_round_small false p Hsmall) as (m & k & Hk & -> & Hm & Ek).
    cbn [rank lexlt]. right. split; [reflexivity |].
    assert (Hlog : 6 <= Z.log2 (Z.pos p)).
    { apply Z.log2_le_pow2; [lia |]. change (2 ^ 6) with 64. lia. }
    destruct (Z.eq_dec k 46) as [-> | Hne]; [right | left; lia].
    split; [reflexivity |]. rewrite Hm. change (2 ^ 46) with 70368744177664. lia.
  - pose proof (binary_round_large false p Hlarge) as H.
    destruct (binary_round JS.prec JS.emax false p 0) as [| s' | | s' m e];
      try contradiction.
    + subst s'. cbn [rank lexlt]. left. lia.
    + destruct H as [-> He]. cbn [rank lexlt]. right. split; [reflexivity |]. left. lia.
Qed.

(** Clamping the number denoted by an integer clamps the integer. *)
Lemma clamp_int z : Reference.clamp (JS.int z) = JS.int (Z.max 0 (Z.min 100 z)).
Proof.
  unfold Reference.clamp.
  destruct (Z_lt_le_dec z 0) as [Hneg | Hnonneg].
  - destruct (int_negative z Hneg) as [Hs Hn].
    rewrite (Math_max_zero_negative _ Hs Hn).
    rewrite Z.max_l by lia. vm_compute. reflexivity.
  - destruct (Z_le_gt_dec z 100) as [Hle | Hgt].
    + destruct (small_ints 0 z ltac:(lia) ltac:(lia)) as (_ & _ & _ & _ & -> & _).
      rewrite (Z.max_r 0 z) by lia.
      destruct (small_ints 100 z ltac:(lia) ltac:(lia)) as (_ & _ & _ & _ & _ & ->).
      f_equal. lia.
    + destruct (int_positive z ltac:(lia)) as [Hs Hn].
      rewrite (Math_max_zero_positive _ Hs Hn).
      rewrite (Math_min_100_above _ (int_above_100 z ltac:(lia))).
      f_equal. lia.
Qed.

(** A number with a non-negative exponent is clamped to 0 or to 100. *)
Lemma clamp_large s m e :
  0 <= e -> Reference.clamp (S754_finite s m e) = JS.int (if s then 0 else 100).
Proof.
  intros He. unfold Reference.clamp. destruct s.
  - rewrite (Math_max_zero_negative (S754_finite true m e) eq_refl I).
    vm_compute. reflexivity.
  - rewrite (Math_max_zero_positive (S754_finite false m e) eq_refl I).
    apply Math_min_100_above. apply lt_spec.
    split; [reflexivity |]. split; [reflexivity |].
    rewrite int_100. cbn [rank lexlt]. right. split; [reflexivity |]. left. lia.
Qed.

Lemma clamp_Math_round x : percentage (Reference.clamp (JS.Math_round x)).
Proof.
  assert (H0 : percentage (JS.int 0)) by (right; exists 0; split; [lia | reflexivity]).
  assert (H100 : percentage (JS.int 100))
    by (right; exists 100; split; [lia | reflexivity]).
  destruct x as [s | s | | s m e]; cbn [JS.Math_round].
  - destruct s; exact H0.
  - destruct s; [exact H0 | exact H100].
  - now left.
  - destruct (0 <=? e) eqn:E.
    + apply Z.leb_le in E. rewrite (clamp_large s m e E). destruct s; assumption.
    + unfold JS.integral.
      destruct (_ =? 0); [destruct s; exact H0 |].
      rewrite clamp_int. right. eexists. split; [| reflexivity]. lia.
Qed.

(** X7. Whenever [calculateScores] returns, each of the six fields of the
    result is NaN or one of the integers 0, 1, ..., 100, whatever the
    analyzer scores are: fractional, negative, infinite or huge. *)
Theorem calculateScores_percentages :
  forall results industry s,
    calculateScores results industry = Return s ->
    Forall percentage
           [total s; performance s; mobile s; seo s; conversion s; content s].
Proof.
  intros results industry s H. rewrite calculateScores_resolved in H.
  destruct (industryConfigFor industry) as [profile | name]; [| discriminate H].
  assert (E : s = Reference.computeScores profile results) by congruence.
  rewrite E.
  cbn [Reference.computeScores total performance mobile seo conversion content].
  unfold Reference.weightedTotal, Reference.adjusted.
  repeat (apply Forall_cons; [apply clamp_Math_round |]). apply Forall_nil.
Qed.

(** Scores of 500, -80, 80.5, NaN and 80 over plain HTTP for a
    restaurant: every field is NaN or an integer from 0 to 100. *)
Lemma calculateScores_percentages_witness :
  calculateScores
    (results_of (JS.int 500) (JS.int (-80)) (JS.dec 805 10) JS.NaN (JS.int 80) false)
    (Some "restaurant")
  = Return {| total := JS.NaN; performance := JS.int 100; mobile := JS.int 0;
              seo := JS.int 59; conversion := JS.NaN; content := JS.int 64 |}
  /\ Forall percentage
            [JS.NaN; JS.int 100; JS.int 0; JS.int 59; JS.NaN; JS.int 64].
Proof.
  assert (E : calculateScores
                (results_of (JS.int 500) (JS.int (-80)) (JS.dec 805 10) JS.NaN
                            (JS.int 80) false) (Some "restaurant")
              = Return {| total := JS.NaN; performance := JS.int 100;
                          mobile := JS.int 0; seo := JS.int 59;
                          conversion := JS.NaN; content := JS.int 64 |})
    by (vm_compute; reflexivity).
  split; [exact E |].
  exact (calculateScores_percentages _ _ _ E).
Defined.

(* ================================================================== *)
(** * The value of a list of opportunities                            *)
(* ================================================================== *)

Lemma filter_none {A} (f : A -> bool) l :
  (forall x, In x l -> f x = false) -> filter f l = [].
Proof.
  induction l as [| a l IH]; intros H; cbn [filter]; [reflexivity |].
  rewrite (H a (or_introl eq_refl)). apply IH. intros x Hx. apply H. now right.
Qed.

Lemma filter_all {A} (f : A -> bool) l :
  (forall x, In x l -> f x = true) -> filter f l = l.
Proof.
  induction l as [| a l IH]; intros H; cbn [filter]; [reflexivity |].
  rewrite (H a (or_introl eq_refl)). f_equal. apply IH. intros x Hx. apply H. now right.
Qed.

(** Every synthetic opportunity promises an improvement of 30 or more and
    takes Medium or High effort. *)
Lemma synthetic_In data industryConfig o :
  In o (generateSyntheticOpportunities data industryConfig) ->
  (estimatedImprovement o >= JS.int 25)%js = true
  /\ Effort.eqb (effort o) Effort.Low = false.
Proof.
  rewrite generateSyntheticOpportunities_rules. rewrite !in_app_iff.
  intros [H | [H | [H | H]]];
    match type of H with In _ (if ?c then _ else _) => destruct c end;
    cbn [In] in H; try contradiction;
    destruct H as [<- | []]; split; vm_compute; reflexivity.
Qed.

(** X8. [calculateTotalOpportunityValue] classifies every synthetic
    opportunity as high impact and none as a quick win, whatever the
    industry and the scores: each promises an improvement of 30 or more
    and takes Medium or High effort. *)
Theorem synthetic_are_high_impact :
  forall data industryConfig,
    let synthetic := generateSyntheticOpportunities data industryConfig in
    highImpact (calculateTotalOpportunityValue synthetic) = synthetic
    /\ quickWins (calculateTotalOpportunityValue synthetic) = [].
Proof.
  intros data industryConfig. cbv zeta.
  unfold calculateTotalOpportunityValue. cbn [highImpact quickWins]. split.
  - apply filter_all. intros o Ho.
    destruct (synthetic_In _ _ _ Ho) as [H _]. rewrite H. apply orb_true_r.
  - apply filter_none. intros o Ho.
    destruct (synthetic_In _ _ _ Ho) as [_ H]. now rewrite H.
Qed.

Lemma fold_add_field_nonneg (f : Opportunity -> JS.number) l : forall acc,
  nonneg acc -> Forall (fun o => nonneg (f o)) l ->
  nonneg (fold_left (fun sum opp => (sum + f opp)%js) l acc).
Proof.
  induction l as [| o l IH]; intros acc Hacc Hl; cbn [fold_left]; [assumption |].
  inversion Hl; subst. apply IH; [| assumption]. now apply add_nonneg.
Qed.

(** X9. When no opportunity has a revenue lift or an improvement that is
    negative or NaN, the two totals of [calculateTotalOpportunityValue],
    and the estimated monthly loss that [analyzeUrl] adds up in the same
    way, are neither negative nor NaN. *)
Theorem totals_not_negative :
  forall opportunities,
    Forall (fun o => (JS.int 0 <= estimatedRevenueLift o)%js = true
                     /\ (JS.int 0 <= estimatedImprovement o)%js = true)
           opportunities ->
    let value := calculateTotalOpportunityValue opportunities in
    (JS.int 0 <= totalMonthlyRevenueLift value)%js = true
    /\ (JS.int 0 <= totalImprovement value)%js = true
    /\ (JS.int 0 <= estimatedMonthlyLossOf opportunities)%js = true.
Proof.
  intros l H. cbv zeta.
  unfold calculateTotalOpportunityValue, estimatedMonthlyLossOf.
  cbn [totalMonthlyRevenueLift totalImprovement].
  assert (H0 : nonneg (JS.int 0)) by exact I.
  split; [| split]; apply nonneg_le; apply fold_add_field_nonneg; try exact H0;
    (eapply Forall_impl; [| exact H]); cbv beta; intros o [H1 H2];
    apply nonneg_le; assumption.
Qed.

(** Two opportunities with revenue lifts of 30000 and 12000. *)
Lemma totals_not_negative_witness :
  let l := [opportunity "A" 5 30000; opportunity "B" 7 12000] in
  totalMonthlyRevenueLift (calculateTotalOpportunityValue l) = JS.int 42000
  /\ (JS.int 0 <= totalMonthlyRevenueLift (calculateTotalOpportunityValue l))%js = true.
Proof.
  cbv zeta. split; [vm_compute; reflexivity |].
  refine (proj1 (totals_not_negative _ _)).
  repeat (apply Forall_cons; [split; vm_compute; reflexivity |]). apply Forall_nil.
Defined.

(* ================================================================== *)
(** * More on deduplication and on the final priorities               *)
(* ================================================================== *)

Section DedupMore.

Variable toLowerCase : string -> string.

Lemma Map_set_new {V} (m : JSMap V) k v :
  ~ In k (map fst m) -> Map_set m k v = m ++ [(k, v)].
Proof.
  induction m as [| [k0 v0] m IH]; cbn [Map_set map fst In app]; intros H;
    [reflexivity |].
  destruct (String.eqb_spec k0 k) as [-> | Hne]; [exfalso; apply H; now left |].
  f_equal. apply IH. tauto.
Qed.

Lemma Map_set_length {V} (m : JSMap V) k v :
  (List.length (Map_set m k v) <= S (List.length m))%nat.
Proof.
  induction m as [| [k0 v0] m IH]; cbn [Map_set List.length]; [lia |].
  destruct (String.eqb k0 k); cbn [List.length]; lia.
Qed.

Lemma dedup_fold_length l : forall seen,
  (List.length (fold_left (dedup_step toLowerCase) l seen)
   <= List.length seen + List.length l)%nat.
Proof.
  induction l as [| o l IH]; intros seen; cbn [fold_left List.length]; [lia |].
  specialize (IH (dedup_step toLowerCase seen o)).
  assert (List.length (dedup_step toLowerCase seen o) <= S (List.length seen))%nat.
  { unfold dedup_step.
    destruct (Map_get seen (toLowerCase (title o))) as [existing |];
      [destruct (priority o > priority existing)%js |];
      try apply Map_set_length. lia. }
  lia.
Qed.

(** Opportunities whose keys are new and pairwise distinct are appended
    to the map one by one. *)
Lemma dedup_fold_distinct l : forall seen,
  NoDup (map fst seen ++ map (keyOf toLowerCase) l) ->
  fold_left (dedup_step toLowerCase) l seen
  = seen ++ map (fun o => (keyOf toLowerCase o, o)) l.
Proof.
  induction l as [| o l IH]; intros seen ND; cbn [fold_left map].
  - now rewrite app_nil_r.
  - cbn [map] in ND.
    assert (Hnew : ~ In (keyOf toLowerCase o) (map fst seen)).
    { intros Hin. apply NoDup_remove_2 in ND. apply ND.
      apply in_or_app. now left. }
    unfold dedup_step at 2. fold (keyOf toLowerCase o).
    rewrite (proj2 (Map_get_None seen (keyOf toLowerCase o)) Hnew).
    rewrite (Map_set_new _ _ _ Hnew).
    rewrite IH.
    + now rewrite <- app_assoc.
    + rewrite map_app. cbn [map fst]. rewrite <- app_assoc. exact ND.
Qed.

Lemma deduplicate_distinct l :
  NoDup (map (keyOf toLowerCase) l) -> deduplicateOpportunities toLowerCase l = l.
Proof.
  intros ND. unfold deduplicateOpportunities, Map_values.
  rewrite (dedup_fold_distinct l [] ND). cbn [app].
  rewrite map_map. cbn [snd]. apply map_id.
Qed.

Lemma Map_set_Forall_at {V} (P : string * V -> Prop) (m : JSMap V) k v :
  P (k, v) -> Forall P m -> Forall P (Map_set m k v).
Proof.
  intros Hv. induction m as [| [k0 v0] m IH]; intros H; cbn [Map_set].
  - constructor; auto.
  - inversion H; subst.
    destruct (String.eqb_spec k0 k) as [-> | Hne]; constructor; auto.
Qed.

(** The keys of the map are pairwise distinct and each is the key of its
    value, whatever the priorities. *)
Lemma dedup_fold_keys l : forall seen,
  NoDup (map fst seen) ->
  Forall (fun kv => fst kv = keyOf toLowerCase (snd kv)) seen ->
  NoDup (map fst (fold_left (dedup_step toLowerCase) l seen))
  /\ Forall (fun kv => fst kv = keyOf toLowerCase (snd kv))
            (fold_left (dedup_step toLowerCase) l seen).
Proof.
  induction l as [| o l IH]; intros seen ND HK; cbn [fold_left]; [now split |].
  apply IH; unfold dedup_step.
  - destruct (Map_get seen (toLowerCase (title o))) as [existing |];
      [destruct (priority o > priority existing)%js |];
      try assumption; now apply Map_set_NoDup.
  - destruct (Map_get seen (toLowerCase (title o))) as [existing |];
      [destruct (priority o > priority existing)%js |];
      try assumption; apply Map_set_Forall_at; auto.
Qed.

Lemma deduplicate_NoDup l :
  NoDup (map (keyOf toLowerCase) (deduplicateOpportunities toLowerCase l)).
Proof.
  unfold deduplicateOpportunities, Map_values.
  destruct (dedup_fold_keys l [] (NoDup_nil _) (Forall_nil _)) as [ND HK].
  set (seen := fold_left (dedup_step toLowerCase) l []) in *.
  replace (map (keyOf toLowerCase) (map snd seen)) with (map fst seen); [exact ND |].
  rewrite map_map. apply map_ext_in. intros kv Hin.
  rewrite Forall_forall in HK. exact (HK kv Hin).
Qed.

(** X10. [deduplicateOpportunities] is idempotent; it never returns more
    opportunities than it is given; and it returns a list whose titles are
    pairwise distinct, case ignored, as it is, in the same order. *)
Theorem deduplicate_idempotent :
  forall opportunities,
    let unique := deduplicateOpportunities toLowerCase opportunities in
    deduplicateOpportunities toLowerCase unique = unique
    /\ (List.length unique <= List.length opportunities)%nat
    /\ (NoDup (map (keyOf toLowerCase) opportunities) -> unique = opportunities).
Proof.
  intros l. cbv zeta. split; [| split].
  - apply deduplicate_distinct, deduplicate_NoDup.
  - unfold deduplicateOpportunities, Map_values. rewrite length_map.
    apply (dedup_fold_length l []).
  - apply deduplicate_distinct.
Qed.

End DedupMore.

(** Three opportunities, two of them under the key [title]: two remain,
    and deduplicating again changes nothing. *)
Lemma deduplicate_idempotent_witness :
  let l := [opportunity "CDN" 8 40000; opportunity "Title" 9 25000;
            opportunity "title" 6 40000] in
  deduplicateOpportunities ascii_toLowerCase l
  = [opportunity "CDN" 8 40000; opportunity "Title" 9 25000]
  /\ deduplicateOpportunities ascii_toLowerCase
       (deduplicateOpportunities ascii_toLowerCase l)
     = deduplicateOpportunities ascii_toLowerCase l.
Proof.
  cbv zeta. split; [vm_compute; reflexivity |].
  exact (proj1 (deduplicate_idempotent ascii_toLowerCase _)).
Defined.

Lemma sort_insert_Permutation {A} (cmp : A -> A -> JS.number) a l :
  Permutation (sort_insert cmp a l) (a :: l).
Proof.
  induction l as [| b l IH]; cbn [sort_insert]; [reflexivity |].
  destruct (cmp a b > JS.int 0)%js; [| reflexivity].
  rewrite IH. apply perm_swap.
Qed.

Lemma Array_sort_Permutation {A} (cmp : A -> A -> JS.number) l :
  Permutation (Array_sort cmp l) l.
Proof.
  induction l as [| a l IH]; cbn [Array_sort fold_right]; [reflexivity |].
  fold (Array_sort cmp l). rewrite sort_insert_Permutation. now constructor.
Qed.

Lemma NoDup_firstn {A} n (l : list A) : NoDup l -> NoDup (firstn n l).
Proof.
  intros H. rewrite <- (firstn_skipn n l) in H.
  exact (NoDup_app_remove_r _ _ H).
Qed.

Lemma In_firstn {A} n (l : list A) x : In x (firstn n l) -> In x l.
Proof.
  intros H. rewrite <- (firstn_skipn n l). apply in_or_app. now left.
Qed.

Lemma Math_min_10_le x :
  is_number x -> (JS.Math_min (JS.int 10) x <= JS.int 10)%js = true.
Proof.
  intros Hx.
  destruct (Math_min_cases (JS.int 10) x (int_number 10) Hx)
    as [[-> _] | [[-> H] | (_ & _ & [(sx & sy & E & _) | ->])]].
  - vm_compute. reflexivity.
  - now apply lt_le.
  - vm_compute in E. discriminate.
  - vm_compute. reflexivity.
Qed.

Lemma Math_min_nan_number x y :
  JS.Math_min x y = JS.NaN \/ is_number (JS.Math_min x y).
Proof.
  destruct (JS.is_nan (JS.Math_min x y)) eqn:E; [left | now right].
  destruct (JS.Math_min x y); try discriminate. reflexivity.
Qed.

Section Ranking.

Variable toLowerCase : string -> string.

(** The opportunities that [calculate] merges: the raw ones, their
    revenue lift rescaled, and the synthetic ones. *)
Lemma calculate_eq data industry :
  calculate toLowerCase data industry
  = firstn 10
      (Array_sort byPriorityThenLift
         (map (reprioritize (scores data))
            (deduplicateOpportunities toLowerCase
               (map (fun opp =>
                       with_revenueLift opp
                         (adjustRevenueByIndustry (estimatedRevenueLift opp)
                            (averageMonthlyRevenue_of (industryConfigFor industry))))
                    (performanceResult data ++ seoResult data ++ mobileResult data
                     ++ conversionResult data ++ contentResult data)
                ++ generateSyntheticOpportunities data (industryConfigFor industry))))).
Proof. reflexivity. Qed.

(** X11. No opportunity returned by [calculate] has a priority above 10:
    every final priority is at most 10, or is NaN. *)
Theorem final_priority_at_most_10 :
  forall data industry o,
    In o (calculate toLowerCase data industry) ->
    (priority o <= JS.int 10)%js = true \/ priority o = JS.NaN.
Proof.
  intros data industry o Hin. rewrite calculate_eq in Hin.
  apply In_firstn in Hin.
  apply (Permutation_in _ (Array_sort_Permutation _ _)) in Hin.
  apply in_map_iff in Hin. destruct Hin as (o' & <- & _).
  unfold reprioritize, with_priority. cbn [priority].
  destruct (Math_min_nan_number (JS.int 10) (priority o' + priorityBoostOf o' (scores data))%js)
    as [E | N]; [now right | left].
  destruct (JS.is_nan (priority o' + priorityBoostOf o' (scores data))%js) eqn:E.
  - destruct (priority o' + priorityBoostOf o' (scores data))%js; discriminate.
  - now apply Math_min_10_le.
Qed.

End Ranking.

(** The ranking of the sample for the beauty profile has no priority
    above 10. *)
Lemma final_priority_at_most_10_witness :
  Forall (fun o => (priority o <= JS.int 10)%js = true)
         (calculate ascii_toLowerCase sample (Some "beauty")).
Proof.
  apply Forall_forall. intros o Hin.
  destruct (final_priority_at_most_10 ascii_toLowerCase sample (Some "beauty") o Hin)
    as [H | H].
  - exact H.
  - exfalso. revert o Hin H.
    apply (proj1 (Forall_forall (fun o => priority o = JS.NaN -> False) _)).
    vm_compute.
    repeat (apply Forall_cons; [discriminate |]). apply Forall_nil.
Defined.

(* ================================================================== *)
(** * What the ranking contains                                       *)
(* ================================================================== *)

Lemma deduplicate_In toLowerCase l o :
  In o (deduplicateOpportunities toLowerCase l) -> In o l.
Proof.
  intros H.
  assert (HF : Forall (fun o => In o l) (deduplicateOpportunities toLowerCase l)).
  { apply deduplicate_Forall. apply Forall_forall. auto. }
  rewrite Forall_forall in HF. auto.
Qed.

Lemma keyOf_reprioritize toLowerCase scores l :
  map (keyOf toLowerCase) (map (reprioritize scores) l) = map (keyOf toLowerCase) l.
Proof. rewrite map_map. reflexivity. Qed.

Section RankingMore.

Variable toLowerCase : string -> string.

(** X12. [calculate] never returns two opportunities whose titles are
    equal up to case, whatever it is given. *)
Theorem calculate_no_duplicate_titles :
  forall data industry,
    NoDup (map (keyOf toLowerCase) (calculate toLowerCase data industry)).
Proof.
  intros data industry. rewrite calculate_eq.
  rewrite <- firstn_map. apply NoDup_firstn.
  eapply Permutation_NoDup.
  - apply Permutation_map. symmetry. apply Array_sort_Permutation.
  - rewrite keyOf_reprioritize. apply deduplicate_NoDup.
Qed.

(** X13. [calculate] invents nothing: every opportunity it returns stems
    from a raw opportunity of an analyzer or from a synthetic one, and has
    its title, description, estimated improvement and effort; only the
    revenue lift and the priority are recomputed. *)
Theorem calculate_provenance :
  forall data industry o,
    In o (calculate toLowerCase data industry) ->
    exists source,
      In source
         (performanceResult data ++ seoResult data ++ mobileResult data
          ++ conversionResult data ++ contentResult data
          ++ generateSyntheticOpportunities data (industryConfigFor industry))
      /\ title o = title source
      /\ description o = description source
      /\ estimatedImprovement o = estimatedImprovement source
      /\ effort o = effort source.
Proof.
  intros data industry o Hin. rewrite calculate_eq in Hin.
  apply In_firstn in Hin.
  apply (Permutation_in _ (Array_sort_Permutation _ _)) in Hin.
  apply in_map_iff in Hin. destruct Hin as (o1 & <- & Hin).
  apply deduplicate_In in Hin. apply in_app_or in Hin.
  destruct Hin as [Hin | Hin].
  - apply in_map_iff in Hin. destruct Hin as (o2 & <- & Hin).
    exists o2. split; [| repeat split].
    rewrite !app_assoc. apply in_or_app. left. now rewrite <- !app_assoc.
  - exists o1. split; [| repeat split].
    rewrite !app_assoc. apply in_or_app. now right.
Qed.

End RankingMore.

(** The full-renewal proposal in the ranking of the sample stems from the
    synthetic opportunity of that title. *)
Lemma calculate_provenance_witness :
  In (fullRenewal (Profile beauty)) (generateSyntheticOpportunities sample (Profile beauty))
  /\ exists source,
      In source
         (performanceResult sample ++ seoResult sample ++ mobileResult sample
          ++ conversionResult sample ++ contentResult sample
          ++ generateSyntheticOpportunities sample (industryConfigFor (Some "beauty")))
      /\ title (reprioritize (scores sample) (fullRenewal (Profile beauty))) = title source
      /\ description (reprioritize (scores sample) (fullRenewal (Profile beauty)))
         = description source
      /\ estimatedImprovement (reprioritize (scores sample) (fullRenewal (Profile beauty)))
         = estimatedImprovement source
      /\ effort (reprioritize (scores sample) (fullRenewal (Profile beauty)))
         = effort source.
Proof.
  split; [vm_compute; now left |].
  apply (calculate_provenance ascii_toLowerCase sample (Some "beauty")).
  vm_compute. right. left. reflexivity.
Defined.

Section SortFacts.

Context {A : Type} (P : A -> Prop) (R : A -> A -> Prop) (cmp : A -> A -> JS.number).

Hypothesis behind : forall a b, P a -> P b -> (cmp a b > JS.int 0)%js = true -> R b a.
Hypothesis before : forall a b, P a -> P b -> (cmp a b > JS.int 0)%js = false -> R a b.

Lemma sort_insert_HdRel_gen b a l :
  HdRel R b l -> R b a -> HdRel R b (sort_insert cmp a l).
Proof.
  intros Hl Hba. destruct l as [| c l]; cbn [sort_insert]; [now constructor |].
  destruct (cmp a c > JS.int 0)%js; constructor; auto.
  now inversion Hl.
Qed.

Lemma sort_insert_Sorted_gen a l :
  P a -> Forall P l -> Sorted R l -> Sorted R (sort_insert cmp a l).
Proof.
  intros Ha. induction l as [| b l IH]; intros HP Hs; cbn [sort_insert].
  - repeat constructor.
  - inversion HP as [| ? ? Hb Hl]; subst. inversion Hs as [| ? ? Hs' Hhd]; subst.
    destruct (cmp a b > JS.int 0)%js eqn:E.
    + constructor; [now apply IH |].
      apply sort_insert_HdRel_gen; [assumption |]. now apply behind.
    + constructor; [assumption |]. constructor. now apply before.
Qed.

Lemma Array_sort_Sorted_gen l : Forall P l -> Sorted R (Array_sort cmp l).
Proof.
  induction l as [| a l IH]; intros H; cbn [Array_sort fold_right]; [constructor |].
  inversion H; subst. apply sort_insert_Sorted_gen; auto.
  now apply Array_sort_Forall.
Qed.

End SortFacts.

(** Sorting a list that is already in order leaves it as it is. *)
Lemma Array_sort_sorted {A} (P : A -> Prop) (R : A -> A -> Prop) cmp :
  (forall a b, P a -> P b -> R a b -> (cmp a b > JS.int 0)%js = false) ->
  forall l, Forall P l -> Sorted R l -> Array_sort cmp l = l.
Proof.
  intros Hcmp. induction l as [| a l IH]; intros HP Hs; [reflexivity |].
  inversion HP as [| ? ? Ha Hl]; subst. inversion Hs as [| ? ? Hs' Hhd]; subst.
  cbn [Array_sort fold_right]. fold (Array_sort cmp l). rewrite (IH Hl Hs').
  destruct l as [| b l]; [reflexivity |]. cbn [sort_insert].
  inversion Hhd; subst. inversion Hl; subst.
  now rewrite Hcmp.
Qed.

Lemma Forall_firstn_gen {A} (P : A -> Prop) n (l : list A) :
  Forall P l -> Forall P (firstn n l).
Proof.
  intros H. apply Forall_forall. intros x Hx. rewrite Forall_forall in H.
  apply H. eapply In_firstn; eauto.
Qed.

Lemma byPriority_ranked a b :
  well_formed a -> well_formed b -> ranked_before a b ->
  (byPriority a b > JS.int 0)%js = false.
Proof.
  intros (Vpa & Npa & _) (Vpb & Npb & _) H. unfold byPriority.
  rewrite (proj1 (sub_sign _ _ Vpb Vpa Npb Npa)).
  unfold JS.gt. change (SFltb (priority a) (priority b)) with (priority a < priority b)%js.
  destruct H as [H | [H _]].
  - unfold JS.gt in H. change (SFltb (priority b) (priority a))
      with (priority b < priority a)%js in H.
    exact (le_not_lt _ _ (lt_le _ _ H)).
  - now apply eq_not_lt.
Qed.

(* ================================================================== *)
(** * The analysis of one business                                    *)
(* ================================================================== *)

Lemma industryConfigFor_cases industry :
  (exists profile, industryConfigFor industry = Profile profile
                   /\ registry_profile profile)
  \/ (exists key, industry = Some key /\ In key Object_prototype_names
                  /\ industryConfigFor industry = Inherited key).
Proof.
  destruct (industryConfigFor industry) as [profile | name] eqn:E.
  - left. exists profile. split; [reflexivity |].
    exact (industryConfigFor_registry _ _ E).
  - right. unfold industryConfigFor in E.
    destruct industry as [key |]; [| discriminate].
    destruct (is_empty key); [discriminate |].
    unfold INDUSTRY_CONFIGS in E.
    destruct (assoc key INDUSTRY_CONFIGS_own); [discriminate |].
    destruct (existsb (String.eqb key) Object_prototype_names) eqn:Ex; [| discriminate].
    injection E as <-. exists key. split; [reflexivity |]. split; [| reflexivity].
    apply existsb_exists in Ex. destruct Ex as (x & Hx & Heq).
    apply String.eqb_eq in Heq. now subst.
Qed.

Lemma Some_eq {A} (x y : A) : Some x = Some y -> x = y.
Proof. intros H. now injection H. Qed.

Section Pipeline.

Variable toLowerCase : string -> string.

(** What [analyzeUrl] returns when it returns a result. *)
Lemma analyzeUrl_Some businessInfo p s m c ct screenshots analyzedAt r :
  analyzeUrl toLowerCase businessInfo p s m c ct screenshots analyzedAt = Some r ->
  exists profile,
    industryConfigFor (bi_industry businessInfo) = Profile profile
    /\ r_opportunities r
       = calculate toLowerCase
           {| scores := r_scores r;
              performanceResult := out_opportunities p;
              seoResult := out_opportunities s;
              mobileResult := out_opportunities m;
              conversionResult := out_opportunities c;
              contentResult := out_opportunities ct |}
           (bi_industry businessInfo)
    /\ r_estimatedMonthlyLoss r = estimatedMonthlyLossOf (r_opportunities r)
    /\ r_recommendedPlan r = recommendPlan (total (r_scores r))
    /\ r_priority r = determinePriority (total (r_scores r)) (r_estimatedMonthlyLoss r).
Proof.
  unfold analyzeUrl. rewrite calculateScores_resolved.
  destruct (industryConfigFor (bi_industry businessInfo)) as [profile | name] eqn:E;
    [| discriminate].
  cbv beta iota zeta. intros H. apply Some_eq in H. subst r. exists profile.
  cbn [r_opportunities r_scores r_estimatedMonthlyLoss r_recommendedPlan r_priority].
  split; [reflexivity |]. split; [reflexivity |]. split; [reflexivity |].
  split; reflexivity.
Qed.

(** X14. Once the analyzers have completed, [analyzeUrl] returns [null]
    exactly when the industry of the business names a member of
    [Object.prototype] (constructor, toString, ...): [calculateScores]
    throws, and the exception is caught.  For every other business a
    result is returned. *)
Theorem analyzeUrl_null_iff_inherited :
  forall businessInfo p s m c ct screenshots analyzedAt,
    analyzeUrl toLowerCase businessInfo p s m c ct screenshots analyzedAt = None
    <-> exists key, bi_industry businessInfo = Some key
                    /\ In key Object_prototype_names.
Proof.
  intros businessInfo p s m c ct screenshots analyzedAt.
  unfold analyzeUrl. rewrite calculateScores_resolved.
  destruct (industryConfigFor_cases (bi_industry businessInfo))
    as [(profile & E & _) | (key & Hk & Hin & E)]; rewrite E; cbv beta iota zeta.
  - split; [discriminate |].
    intros (key & Hk & Hin). rewrite Hk in E.
    rewrite (industryConfigFor_inherited key Hin) in E. discriminate.
  - split; [| reflexivity]. intros _. now exists key.
Qed.

(** X15. For a result produced by [analyzeUrl], [generateNextAction]
    gives the urgent message exactly when the total score is below 30:
    such a result always has the priority High. *)
Theorem urgent_action_iff_below_30 :
  forall r,
    produced toLowerCase r ->
    (generateNextAction r = "緊急対応が必要です。すぐにご連絡ください。"
     <-> (total (r_scores r) < JS.int 30)%js = true).
Proof.
  intros r (businessInfo & p & s & m & c & ct & screenshots & analyzedAt & H).
  apply analyzeUrl_Some in H. destruct H as (profile & _ & _ & _ & _ & Hprio).
  unfold generateNextAction. split.
  - destruct (r_priority r); [| discriminate | discriminate].
    destruct (total (r_scores r) < JS.int 30)%js; [reflexivity | discriminate].
  - intros Hlt. rewrite Hlt.
    assert (H3040 : (JS.int 30 <= JS.int 40)%js = true) by (vm_compute; reflexivity).
    pose proof (lt_le _ _ (lt_le_trans _ _ _ Hlt H3040)) as Hle.
    rewrite Hprio. unfold determinePriority.
    change (scoreMax (PRIORITY_THRESHOLDS High)) with (JS.int 40).
    rewrite Hle. reflexivity.
Qed.

(** X16. The sort by priority alone that [generateDetailedAnalysis]
    applies, in place, to the opportunities of a result of [analyzeUrl]
    changes nothing, so the three opportunities it reports are the first
    three of the ranking of [calculate], ties still ordered by revenue
    lift; this for raw opportunities whose priorities and revenue lifts
    are numbers. *)
Theorem top_opportunities_keep_the_ranking :
  forall businessInfo p s m c ct screenshots analyzedAt r,
    analyzeUrl toLowerCase businessInfo p s m c ct screenshots analyzedAt = Some r ->
    Forall well_formed
           (out_opportunities p ++ out_opportunities s ++ out_opportunities m
            ++ out_opportunities c ++ out_opportunities ct) ->
    Array_sort byPriority (r_opportunities r) = r_opportunities r
    /\ topOpportunities r = firstn 3 (r_opportunities r).
Proof.
  intros businessInfo p s m c ct screenshots analyzedAt r H Hraw.
  apply analyzeUrl_Some in H. destruct H as (profile & Hres & Hopp & _).
  assert (E : Array_sort byPriority (r_opportunities r) = r_opportunities r).
  { rewrite Hopp. rewrite calculate_eq. rewrite Hres.
    cbn [scores performanceResult seoResult mobileResult conversionResult contentResult].
    pose proof (prioritized_well_formed toLowerCase
                  {| scores := r_scores r;
                     performanceResult := out_opportunities p;
                     seoResult := out_opportunities s;
                     mobileResult := out_opportunities m;
                     conversionResult := out_opportunities c;
                     contentResult := out_opportunities ct |}
                  profile (industryConfigFor_registry _ _ Hres) Hraw) as Hwf.
    cbn [scores performanceResult seoResult mobileResult conversionResult contentResult]
      in Hwf.
    apply (Array_sort_sorted well_formed ranked_before).
    - exact byPriority_ranked.
    - apply Forall_firstn_gen, Array_sort_Forall. exact Hwf.
    - apply firstn_Sorted, Array_sort_Sorted. exact Hwf. }
  split; [exact E |]. unfold topOpportunities, slice0. now rewrite E.
Qed.

Lemma fold_loss_nonneg l :
  Forall (fun o => nonneg (estimatedRevenueLift o)) l ->
  nonneg (estimatedMonthlyLossOf l).
Proof.
  intros H. unfold estimatedMonthlyLossOf.
  apply (fold_add_field_nonneg estimatedRevenueLift); [exact I | exact H].
Qed.

(** X17. For a result of [analyzeUrl], when no analyzer reports an
    opportunity whose revenue lift is negative or NaN, the estimated
    monthly loss is neither negative nor NaN. *)
Theorem estimatedMonthlyLoss_not_negative :
  forall businessInfo p s m c ct screenshots analyzedAt r,
    analyzeUrl toLowerCase businessInfo p s m c ct screenshots analyzedAt = Some r ->
    Forall (fun o => (JS.int 0 <= estimatedRevenueLift o)%js = true)
           (out_opportunities p ++ out_opportunities s ++ out_opportunities m
            ++ out_opportunities c ++ out_opportunities ct) ->
    (JS.int 0 <= r_estimatedMonthlyLoss r)%js = true.
Proof.
  intros businessInfo p s m c ct screenshots analyzedAt r H Hraw.
  apply analyzeUrl_Some in H. destruct H as (profile & Hres & Hopp & Hloss & _).
  rewrite Hloss, Hopp. apply nonneg_le, fold_loss_nonneg.
  rewrite calculate_eq, Hres.
  cbn [scores performanceResult seoResult mobileResult conversionResult contentResult].
  apply Forall_firstn_gen, Array_sort_Forall, Forall_map.
  apply (deduplicate_Forall toLowerCase
           (fun o => nonneg (estimatedRevenueLift (reprioritize (r_scores r) o)))).
  pose proof (industryConfigFor_registry _ _ Hres) as Hp.
  destruct (adjustmentFactor_positive profile Hp) as [Hpos _].
  apply Forall_app. split.
  - apply Forall_map. eapply Forall_impl; [| exact Hraw]. cbv beta.
    intros o Ho. apply nonneg_le in Ho.
    unfold reprioritize, with_priority, with_revenueLift, adjustRevenueByIndustry.
    cbn [estimatedRevenueLift averageMonthlyRevenue_of ToNumber].
    now apply Math_round_nonneg, mul_positive_nonneg.
  - rewrite generateSyntheticOpportunities_rules.
    assert (H4 : nonneg (estimatedRevenueLift (fullRenewal (Profile profile)))
                 /\ nonneg (estimatedRevenueLift (mobileFirst (Profile profile)))
                 /\ nonneg (estimatedRevenueLift (contentMarketing (Profile profile)))
                 /\ nonneg (estimatedRevenueLift (conversionProgram (Profile profile)))).
    { unfold registry_profile in Hp. cbn [INDUSTRY_CONFIGS_own map snd In] in Hp.
      repeat (destruct Hp as [<- | Hp];
              [split; [| split; [| split]]; vm_compute; exact I |]).
      destruct Hp. }
    destruct H4 as (H1 & H2 & H3 & H4).
    repeat (apply Forall_app; split);
      match goal with |- Forall _ (if ?c then _ else _) => destruct c end;
      try (apply Forall_cons; [assumption |]); apply Forall_nil.
Qed.

End Pipeline.

Lemma sample_well_formed :
  Forall well_formed
         (performanceResult sample ++ seoResult sample ++ mobileResult sample
          ++ conversionResult sample ++ contentResult sample).
Proof.
  cbn [sample performanceResult seoResult mobileResult conversionResult
       contentResult app].
  repeat (apply Forall_cons;
          [split; [| split; [| split]]; vm_compute; reflexivity |]).
  apply Forall_nil.
Qed.

(** The salon of the examples has a total of 28 and is to be contacted
    urgently. *)
Lemma urgent_action_iff_below_30_witness :
  exists r,
    salon_analysis = Some r
    /\ total (r_scores r) = JS.int 28
    /\ generateNextAction r = "緊急対応が必要です。すぐにご連絡ください。".
Proof.
  destruct salon_analysis as [r |] eqn:E; [| vm_compute in E; discriminate E].
  exists r. split; [reflexivity |].
  assert (Ht : total (r_scores r) = JS.int 28).
  { apply (f_equal (fun o => match o with Some x => total (r_scores x) | None => JS.NaN end))
      in E.
    rewrite <- E. vm_compute. reflexivity. }
  split; [exact Ht |].
  apply (urgent_action_iff_below_30 ascii_toLowerCase r).
  - unfold produced. unfold salon_analysis in E. repeat eexists. exact E.
  - rewrite Ht. vm_compute. reflexivity.
Defined.

(** The three opportunities reported for the salon of the examples. *)
Lemma top_opportunities_keep_the_ranking_witness :
  exists r,
    salon_analysis = Some r
    /\ map title (topOpportunities r)
       = ["コンバージョン最適化（CRO）プログラム"; "Webサイトの全面リニューアル";
          "モバイルファースト設計への移行"]
    /\ topOpportunities r = firstn 3 (r_opportunities r).
Proof.
  destruct salon_analysis as [r |] eqn:E; [| vm_compute in E; discriminate E].
  exists r. split; [reflexivity |].
  unfold salon_analysis in E.
  destruct (top_opportunities_keep_the_ranking ascii_toLowerCase _ _ _ _ _ _ _ _ _ E)
    as [_ Htop]; [exact sample_well_formed |].
  split; [| exact Htop].
  rewrite Htop.
  apply (f_equal (fun o => match o with
                           | Some x => map title (firstn 3 (r_opportunities x))
                           | None => []
                           end)) in E.
  rewrite <- E. vm_compute. reflexivity.
Defined.

(** The estimated monthly loss of the salon of the examples is 900000. *)
Lemma estimatedMonthlyLoss_not_negative_witness :
  exists r,
    salon_analysis = Some r
    /\ r_estimatedMonthlyLoss r = JS.int 900000
    /\ (JS.int 0 <= r_estimatedMonthlyLoss r)%js = true.
Proof.
  destruct salon_analysis as [r |] eqn:E; [| vm_compute in E; discriminate E].
  exists r. split; [reflexivity |].
  unfold salon_analysis in E. split.
  - apply (f_equal (fun o => match o with
                             | Some x => r_estimatedMonthlyLoss x
                             | None => JS.NaN
                             end)) in E.
    rewrite <- E. vm_compute. reflexivity.
  - apply (estimatedMonthlyLoss_not_negative ascii_toLowerCase _ _ _ _ _ _ _ _ _ E).
    cbn [output_of out_opportunities sample performanceResult seoResult mobileResult
         conversionResult contentResult app].
    repeat (apply Forall_cons; [vm_compute; reflexivity |]). apply Forall_nil.
Defined.

(* ================================================================== *)
(** * The reports                                                     *)
(* ================================================================== *)

(** [a] is moved behind [b] exactly when [b] is more pressing, or as
    pressing with a lower total score. *)
Lemma priorityOrder_same p :
  (priorityOrder p - priorityOrder p !== JS.int 0)%js = false.
Proof. destruct p; vm_compute; reflexivity. Qed.

Lemma priorityOrder_differ p q :
  PriorityTier_eqb p q = false ->
  (priorityOrder p - priorityOrder q !== JS.int 0)%js = true
  /\ (priorityOrder p - priorityOrder q > JS.int 0)%js
     = (urgency p <? urgency q)%nat.
Proof. destruct p, q; intros H; try discriminate H; split; vm_compute; reflexivity. Qed.

Lemma PriorityTier_eqb_eq p q : PriorityTier_eqb p q = true -> p = q.
Proof. destruct p, q; intros H; try discriminate H; reflexivity. Qed.

Lemma byPriorityThenScore_gt a b :
  scored a -> scored b ->
  (byPriorityThenScore a b > JS.int 0)%js
  = if PriorityTier_eqb (r_priority a) (r_priority b)
    then (total (r_scores b) < total (r_scores a))%js
    else (urgency (r_priority a) <? urgency (r_priority b))%nat.
Proof.
  intros [Va Na] [Vb Nb]. unfold byPriorityThenScore. cbv zeta.
  destruct (PriorityTier_eqb (r_priority a) (r_priority b)) eqn:E.
  - apply PriorityTier_eqb_eq in E. rewrite E, priorityOrder_same.
    exact (proj1 (sub_sign _ _ Va Vb Na Nb)).
  - destruct (priorityOrder_differ _ _ E) as [-> H]. exact H.
Qed.

Lemma byPriorityThenScore_behind a b :
  scored a -> scored b ->
  (byPriorityThenScore a b > JS.int 0)%js = true -> listed_before b a.
Proof.
  intros Ha Hb. rewrite (byPriorityThenScore_gt a b Ha Hb).
  destruct (r_priority a) eqn:Ea, (r_priority b) eqn:Eb;
    cbn [PriorityTier_eqb urgency Nat.ltb Nat.leb]; intros H;
    try discriminate; unfold listed_before; rewrite Ea, Eb; cbn [urgency];
    try (left; lia); right; (split; [reflexivity | now apply lt_le]).
Qed.

Lemma byPriorityThenScore_before a b :
  scored a -> scored b ->
  (byPriorityThenScore a b > JS.int 0)%js = false -> listed_before a b.
Proof.
  intros Ha Hb. rewrite (byPriorityThenScore_gt a b Ha Hb).
  destruct Ha as [_ Na], Hb as [_ Nb].
  destruct (r_priority a) eqn:Ea, (r_priority b) eqn:Eb;
    cbn [PriorityTier_eqb urgency Nat.ltb Nat.leb]; intros H;
    try discriminate; unfold listed_before; rewrite Ea, Eb; cbn [urgency];
    try (left; lia); right; (split; [reflexivity | now apply not_lt_le]).
Qed.

Lemma listed_before_trans a b c :
  listed_before a b -> listed_before b c -> listed_before a c.
Proof.
  unfold listed_before. intros [H1 | [E1 L1]] [H2 | [E2 L2]].
  - left. lia.
  - left. rewrite <- E2. exact H1.
  - left. rewrite E1. exact H2.
  - right. split; [congruence |]. exact (le_trans _ _ _ L1 L2).
Qed.

(** X18. When no total score is NaN, [sortResults] returns the results it
    is given, each once, in report order: High before Medium before Low
    and, within one priority, by ascending total score. *)
Theorem sortResults_sorted :
  forall results,
    Forall scored results ->
    Permutation (sortResults results) results
    /\ StronglySorted listed_before (sortResults results).
Proof.
  intros results H. unfold sortResults. split.
  - apply Array_sort_Permutation.
  - apply Sorted_StronglySorted; [intros a b c; apply listed_before_trans |].
    apply (Array_sort_Sorted_gen scored); auto using byPriorityThenScore_behind,
      byPriorityThenScore_before.
Qed.

(** Five results, of priorities Low, High, Medium, High and Medium, in
    report order. *)
Lemma sortResults_sorted_witness :
  let results := [result_of Low 80; result_of High 35; result_of Medium 55;
                  result_of High 20; result_of Medium 50] in
  sortResults results
  = [result_of High 20; result_of High 35; result_of Medium 50;
     result_of Medium 55; result_of Low 80]
  /\ Permutation (sortResults results) results
  /\ StronglySorted listed_before (sortResults results).
Proof.
  cbv zeta. split; [vm_compute; reflexivity |].
  apply sortResults_sorted.
  repeat (apply Forall_cons; [split; vm_compute; reflexivity |]). apply Forall_nil.
Defined.

Lemma priority_counts results :
  (List.length (filter (fun r => PriorityTier_eqb (r_priority r) High) results)
   + List.length (filter (fun r => PriorityTier_eqb (r_priority r) Medium) results)
   + List.length (filter (fun r => PriorityTier_eqb (r_priority r) Low) results)
   = List.length results)%nat.
Proof.
  induction results as [| r l IH]; cbn [filter List.length]; [reflexivity |].
  destruct (r_priority r); cbn [PriorityTier_eqb List.length]; lia.
Qed.

Lemma plan_counts results :
  (List.length (filter (fun r => PlanTier_eqb (r_recommendedPlan r) Premium) results)
   + List.length (filter (fun r => PlanTier_eqb (r_recommendedPlan r) Standard) results)
   + List.length (filter (fun r => PlanTier_eqb (r_recommendedPlan r) Simple) results)
   = List.length results)%nat.
Proof.
  induction results as [| r l IH]; cbn [filter List.length]; [reflexivity |].
  destruct (r_recommendedPlan r); cbn [PlanTier_eqb List.length]; lia.
Qed.

Lemma filter_length_le {A} (f g : A -> bool) l :
  (forall x, In x l -> f x = true -> g x = true) ->
  (List.length (filter f l) <= List.length (filter g l))%nat.
Proof.
  induction l as [| a l IH]; intros H; cbn [filter]; [lia |].
  assert (IH' := IH (fun x Hx => H x (or_intror Hx))).
  destruct (f a) eqn:Ef.
  - rewrite (H a (or_introl eq_refl) Ef). cbn [List.length]. lia.
  - destruct (g a); cbn [List.length]; lia.
Qed.

Section Summary.

Variable toLowerCase : string -> string.

(** X19. In the summary of [generateSummaryCSV] the three priority counts
    add up to the number of results, and so do the three plan counts; for
    results produced by [analyzeUrl] the Premium count never exceeds the
    High count; and the average score of an empty batch is NaN. *)
Theorem summary_counts :
  forall results,
    let summary := generateSummaryCSV results in
    (highPriority summary + mediumPriority summary + lowPriority summary
     = analysed summary)%nat
    /\ (premiumRecommended summary + standardRecommended summary
        + simpleRecommended summary = analysed summary)%nat
    /\ (Forall (produced toLowerCase) results ->
        (premiumRecommended summary <= highPriority summary)%nat)
    /\ (results = [] -> averageScore summary = JS.NaN).
Proof.
  intros results. cbv zeta. unfold generateSummaryCSV.
  cbn [highPriority mediumPriority lowPriority analysed premiumRecommended
       standardRecommended simpleRecommended averageScore].
  split; [apply priority_counts |]. split; [apply plan_counts |]. split.
  - intros Hprod. apply filter_length_le. intros r Hin Hplan.
    rewrite Forall_forall in Hprod.
    destruct (Hprod r Hin) as (businessInfo & p & s & m & c & ct & sh & at' & H).
    apply analyzeUrl_Some in H. destruct H as (profile & _ & _ & _ & Hrec & Hprio).
    rewrite Hprio.
    rewrite (at_most_40_high (total (r_scores r)) (r_estimatedMonthlyLoss r));
      [reflexivity |].
    apply lt_le, premium_below_40.
    rewrite <- Hrec. destruct (r_recommendedPlan r); (reflexivity || discriminate).
  - intros ->. vm_compute. reflexivity.
Qed.

End Summary.

(* ================================================================== *)
(** * URLs and industry labels                                        *)
(* ================================================================== *)

Lemma https_not_http url :
  startsWith url "https://" = true -> startsWith url "http://" = false.
Proof.
  unfold startsWith.
  destruct url as [| c1 [| c2 [| c3 [| c4 [| c5 url]]]]]; cbn [String.prefix];
    try discriminate;
    repeat match goal with
           | |- context [ascii_dec ?a ?b] => destruct (ascii_dec a b) as [<- | ?]
           end; try discriminate; reflexivity.
Qed.

Lemma https_prepended url : startsWith ("https://" ++ url) "https://" = true.
Proof. destruct url; reflexivity. Qed.

(** X20. [normalizeUrl] returns a URL that starts with [http://] or
    [https://], and is idempotent; the HTTPS test of [analyzeUrl] fails on
    the normalized URL exactly when the given one starts with [http://],
    so a URL given without a scheme is analysed as secure. *)
Theorem normalizeUrl_scheme :
  forall url,
    (startsWith (normalizeUrl url) "http://" = true
     \/ startsWith (normalizeUrl url) "https://" = true)
    /\ normalizeUrl (normalizeUrl url) = normalizeUrl url
    /\ startsWith (normalizeUrl url) "https://" = negb (startsWith url "http://").
Proof.
  intros url. unfold normalizeUrl.
  destruct (startsWith url "http://") eqn:E1; cbn [negb andb].
  - rewrite E1. cbn [negb andb]. split; [now left |]. split; [reflexivity |].
    destruct (startsWith url "https://") eqn:E2; [| reflexivity].
    rewrite (https_not_http _ E2) in E1. discriminate.
  - destruct (startsWith url "https://") eqn:E2; cbn [negb].
    + rewrite E1, E2. cbn [negb andb]. split; [now right |]. split; reflexivity.
    + rewrite https_prepended, andb_false_r.
      split; [now right |]. split; reflexivity.
Qed.

Lemma typeMapping_label type industry :
  typeMapping type = Some (Label industry) ->
  In industry ["restaurant"; "beauty"; "clinic"; "retail"; "legal"; "fitness";
               "education"].
Proof.
  unfold typeMapping. destruct (assoc type typeMapping_own) as [i |] eqn:E.
  - intros [= <-]. apply assoc_In in E.
    cbn [typeMapping_own map snd In] in E. cbn [In].
    repeat (destruct E as [<- | E]; [tauto |]). destruct E.
  - destruct (existsb _ _); discriminate.
Qed.

Lemma typeMapping_member type name :
  typeMapping type = Some (Member name) ->
  name = type /\ In name Object_prototype_names.
Proof.
  unfold typeMapping. destruct (assoc type typeMapping_own) as [i |]; [discriminate |].
  destruct (existsb (String.eqb type) Object_prototype_names) eqn:Ex; [| discriminate].
  intros [= <-]. split; [reflexivity |].
  apply existsb_exists in Ex. destruct Ex as (x & Hx & Heq).
  apply String.eqb_eq in Heq. now subst.
Qed.

(** X21. Every industry label that [mapTypesToIndustry] returns is one of
    restaurant, beauty, clinic, retail, legal, fitness, education and
    other, and resolves to a profile, so that [calculateScores] returns
    for it; the only other outcome is a member of [Object.prototype],
    returned when a place type names one. *)
Theorem mapTypesToIndustry_resolves :
  forall types,
    match mapTypesToIndustry types with
    | Label industry =>
        In industry ["restaurant"; "beauty"; "clinic"; "retail"; "legal"; "fitness";
                     "education"; "other"]
        /\ (exists profile,
               industryConfigFor (Some industry) = Profile profile
               /\ forall results,
                    calculateScores results (Some industry)
                    = Return (Reference.computeScores profile results))
    | Member name => In name types /\ In name Object_prototype_names
    end.
Proof.
  assert (Hlabel : forall industry,
             In industry ["restaurant"; "beauty"; "clinic"; "retail"; "legal";
                          "fitness"; "education"; "other"] ->
             exists profile,
               industryConfigFor (Some industry) = Profile profile
               /\ forall results,
                    calculateScores results (Some industry)
                    = Return (Reference.computeScores profile results)).
  { intros industry Hin.
    assert (E : exists profile, industryConfigFor (Some industry) = Profile profile).
    { cbn [In] in Hin.
      repeat (destruct Hin as [<- | Hin]; [eexists; reflexivity |]). destruct Hin. }
    destruct E as [profile E]. exists profile. split; [exact E |].
    intros results. now rewrite calculateScores_resolved, E. }
  induction types as [| type rest IH]; cbn [mapTypesToIndustry].
  - split; [cbn [In]; tauto |]. apply Hlabel. cbn [In]. tauto.
  - destruct (typeMapping type) as [[industry | name] |] eqn:E.
    + apply typeMapping_label in E.
      assert (Hin : In industry ["restaurant"; "beauty"; "clinic"; "retail"; "legal";
                                 "fitness"; "education"; "other"]).
      { cbn [In] in E |- *. tauto. }
      split; [exact Hin | now apply Hlabel].
    + apply typeMapping_member in E. destruct E as [-> Hin].
      split; [now left | exact Hin].
    + destruct (mapTypesToIndustry rest) as [industry | name]; [exact IH |].
      destruct IH as [H1 H2]. split; [now right | exact H2].
Qed.

(* ================================================================== *)
(** * The scores of the analyzers                                     *)
(* ================================================================== *)

(** X22. [calculateSEOScore] returns an integer between 20 and 100 for
    every check result: the penalties add up to at most 80, and the final
    [Math.max(0, score)] never changes the score. *)
Theorem calculateSEOScore_range :
  forall result,
    exists k, 20 <= k <= 100 /\ calculateSEOScore result = JS.int k.
Proof.
  intros result. unfold calculateSEOScore.
  set (s0 := JS.int 100).
  assert (H0 : integer_between 100 100 s0) by (exists 100; split; [lia | reflexivity]).
  set (s1 := if negb (hasTitle result) then _ else _).
  assert (H1 : integer_between 80 100 s1).
  { subst s1. destruct (negb (hasTitle result)); [| destruct (_ || _)].
    - apply (integer_between_weaken 80 80); try lia. now apply (integer_sub 100 100 20).
    - apply (integer_between_weaken 90 90); try lia. now apply (integer_sub 100 100 10).
    - apply (integer_between_weaken 100 100); try lia. exact H0. }
  clearbody s1. clear H0 s0.
  set (s2 := if negb (hasMetaDescription result) then _ else _).
  assert (H2 : integer_between 65 100 s2).
  { subst s2. destruct (negb (hasMetaDescription result)); [| destruct (_ || _)].
    - apply (integer_between_weaken 65 85); try lia. now apply (integer_sub 80 100 15).
    - apply (integer_between_weaken 73 93); try lia. now apply (integer_sub 80 100 7).
    - apply (integer_between_weaken 80 100); try lia. exact H1. }
  clearbody s2. clear H1 s1.
  set (s3 := if negb (hasH1 result) then _ else _).
  assert (H3 : integer_between 50 100 s3).
  { subst s3. destruct (negb (hasH1 result)); [| destruct (_ > _)%js].
    - apply (integer_between_weaken 50 85); try lia. now apply (integer_sub 65 100 15).
    - apply (integer_between_weaken 60 95); try lia. now apply (integer_sub 65 100 5).
    - apply (integer_between_weaken 65 100); try lia. exact H2. }
  clearbody s3. clear H2 s2.
  set (s4 := if negb (hasStructuredData result) then _ else _).
  assert (H4 : integer_between 40 100 s4).
  { subst s4. destruct (negb (hasStructuredData result)).
    - apply (integer_between_weaken 40 90); try lia. now apply (integer_sub 50 100 10).
    - apply (integer_between_weaken 50 100); try lia. exact H3. }
  clearbody s4. clear H3 s3.
  set (s5 := if negb (hasCanonical result) then _ else _).
  assert (H5 : integer_between 35 100 s5).
  { subst s5. destruct (negb (hasCanonical result)).
    - apply (integer_between_weaken 35 95); try lia. now apply (integer_sub 40 100 5).
    - apply (integer_between_weaken 40 100); try lia. exact H4. }
  clearbody s5. clear H4 s4.
  set (s6 := if negb (hasOGP result) then _ else _).
  assert (H6 : integer_between 30 100 s6).
  { subst s6. destruct (negb (hasOGP result)).
    - apply (integer_between_weaken 30 95); try lia. now apply (integer_sub 35 100 5).
    - apply (integer_between_weaken 35 100); try lia. exact H5. }
  clearbody s6. clear H5 s5.
  set (s7 := if negb (hasRobotsTxt result) then _ else _).
  assert (H7 : integer_between 25 100 s7).
  { subst s7. destruct (negb (hasRobotsTxt result)).
    - apply (integer_between_weaken 25 95); try lia. now apply (integer_sub 30 100 5).
    - apply (integer_between_weaken 30 100); try lia. exact H6. }
  clearbody s7. clear H6 s6.
  set (s8 := if negb (hasSitemap result) then _ else _).
  assert (H8 : integer_between 20 100 s8).
  { subst s8. destruct (negb (hasSitemap result)).
    - apply (integer_between_weaken 20 95); try lia. now apply (integer_sub 25 100 5).
    - apply (integer_between_weaken 25 100); try lia. exact H7. }
  clearbody s8. clear H7 s7.
  destruct H8 as (k & Hk & ->). exists k. split; [exact Hk |].
  destruct (small_ints 0 k ltac:(lia) ltac:(lia)) as (_ & _ & _ & _ & -> & _).
  f_equal. lia.
Qed.

(** X23. The mobile score is an integer between 0 and 100; it is 100
    exactly when the page has a viewport, is responsive, does not scroll
    horizontally, and has large enough touch targets and text; and it is
    below 30 only for a page that is not responsive. *)
Theorem mobileScoreOf_range :
  forall result,
    exists k,
      0 <= k <= 100
      /\ mobileScoreOf result = JS.int k
      /\ (k = 100 <->
          hasViewport result = true /\ isMobileResponsive result = true
          /\ horizontalScrolling result = false /\ touchTargetSize result = true
          /\ textSizeReadable result = true)
      /\ (k < 30 -> isMobileResponsive result = false).
Proof.
  intros [v r t x h].
  exists (20 * Z.b2z v + 30 * Z.b2z r + 20 * Z.b2z (negb h)
          + 15 * Z.b2z t + 15 * Z.b2z x).
  unfold mobileScoreOf.
  cbn [hasViewport isMobileResponsive touchTargetSize textSizeReadable horizontalScrolling].
  destruct v, r, t, x, h; cbn [Z.b2z negb];
    (split; [lia |]); (split; [vm_compute; reflexivity |]);
    (split; [split; [intros H; try discriminate H; tauto
                    | intros (H1 & H2 & H3 & H4 & H5); try discriminate; reflexivity]
            | intros H; try reflexivity; exfalso; revert H; clear; cbn; lia]).
Qed.

Lemma le_or_lt x y :
  is_number x -> is_number y -> (x <= y)%js = true \/ (y < x)%js = true.
Proof.
  intros Hx Hy. destruct (lex_cases (rank x) (rank y)) as [L | [L | L]].
  - left. apply le_spec. auto.
  - left. apply le_spec. auto.
  - right. apply lt_spec. auto.
Qed.

(** For every word count that is a number, one of [totalWords >= 200] and
    [totalWords <= 3000] holds. *)
Lemma word_count_bracket x :
  is_number x -> (x >= JS.int 200)%js || (x <= JS.int 3000)%js = true.
Proof.
  intros Hx. unfold JS.ge. change (SFleb (JS.int 200) x) with (JS.int 200 <= x)%js.
  destruct (le_or_lt (JS.int 200) x (int_number 200) Hx) as [H | H].
  - now rewrite H.
  - assert (H' : (JS.int 200 <= JS.int 3000)%js = true) by (vm_compute; reflexivity).
    rewrite (lt_le _ _ (lt_le_trans _ _ _ H H')). apply orb_true_r.
Qed.

(** X24. [calculateReadabilityScore] returns an integer between 60 and
    100, and at least 70 when the word count is a number, since one of
    [totalWords >= 200] and [totalWords <= 3000] always holds then; so
    the test [readabilityScore < 50] of [extractIssues] never succeeds on
    a score it returns. *)
Theorem calculateReadabilityScore_range :
  forall text result,
    exists k,
      60 <= k <= 100
      /\ calculateReadabilityScore text result = JS.int k
      /\ (is_number (totalWords result) -> 70 <= k)
      /\ (calculateReadabilityScore text result < JS.int 50)%js = false.
Proof.
  intros text result. unfold calculateReadabilityScore.
  set (lo := if JS.is_nan (totalWords result) then 50 else 60).
  assert (Hlo : 50 <= lo <= 60) by (subst lo; destruct (JS.is_nan _); lia).
  cbv zeta.
  set (s1 := if (totalWords result >= JS.int 300)%js && _ then _ else _).
  assert (H1 : integer_between lo 70 s1).
  { subst s1.
    assert (H50 : integer_between 50 50 (JS.int 50)) by (exists 50; split; [lia | reflexivity]).
    destruct (_ && _).
    - apply (integer_between_weaken 70 70); try lia. now apply (integer_add 50 50 20).
    - destruct (JS.is_nan (totalWords result)) eqn:E.
      + subst lo. destruct (_ || _).
        * apply (integer_between_weaken 60 60); try lia. now apply (integer_add 50 50 10).
        * apply (integer_between_weaken 50 50); try lia. exact H50.
      + rewrite (word_count_bracket _ E). subst lo.
        apply (integer_between_weaken 60 60); try lia. now apply (integer_add 50 50 10). }
  clearbody s1.
  set (s2 := (s1 + JS.int 10)%js).
  assert (H2 : integer_between (lo + 10) 80 s2).
  { subst s2. now apply (integer_add lo 70 10); try lia. }
  clearbody s2. clear H1 s1.
  set (s3 := if hasImages result && _ then _ else _).
  assert (H3 : integer_between (lo + 10) 90 s3).
  { subst s3. destruct (hasImages result && _); [destruct (_ && _) |].
    - apply (integer_between_weaken (lo + 10 + 10) (80 + 10)); try lia.
      now apply (integer_add (lo + 10) 80 10); try lia.
    - apply (integer_between_weaken (lo + 10) 80); try lia. exact H2.
    - apply (integer_between_weaken (lo + 10) 80); try lia. exact H2. }
  clearbody s3. clear H2 s2.
  set (s4 := if (3 <? _)%nat then _ else _).
  assert (H4 : integer_between (lo + 10) 100 s4).
  { subst s4. destruct (3 <? _)%nat.
    - apply (integer_between_weaken (lo + 10 + 10) (90 + 10)); try lia.
      now apply (integer_add (lo + 10) 90 10); try lia.
    - apply (integer_between_weaken (lo + 10) 90); try lia. exact H3. }
  clearbody s4. clear H3 s3.
  destruct H4 as (k & Hk & ->).
  destruct (small_ints 100 k ltac:(lia) ltac:(lia)) as (_ & _ & _ & _ & _ & ->).
  rewrite Z.min_r by lia.
  exists k. split; [lia |]. split; [reflexivity |]. split.
  - intros Hn. unfold is_number in Hn. subst lo. rewrite Hn in Hk. lia.
  - destruct (small_ints k 50 ltac:(lia) ltac:(lia)) as (_ & _ & -> & _).
    apply Z.ltb_ge. lia.
Qed.
